(** * A shallow embedding of the CSP solver of [Assignment 5/CSP-backtracking.py]

    The Python class [CSP] is embedded function by function.  Python objects
    are mutated in place; here every method takes the objects it reads and
    returns the objects it has changed.  An exception that nobody catches
    ends the program, so a raising computation returns [Raise e] and nothing
    else. *)

From Stdlib Require Import List String Ascii Arith Bool Lia DecimalString
  Permutation.
Import ListNotations.
Open Scope string_scope.
Open Scope list_scope.

(** ** Python values *)

(** Variable names and domain values are Python [str]: [create_sudoku_csp]
    names the cells ['row-col'] and fills the domains with ['1'] .. ['9']. *)
Definition name := string.
Definition value := string.

(** The exceptions the methods can raise.  [LoopBound] is not a Python
    exception: it marks a loop of the model that ran out of its step budget
    (the theorems below show when that cannot happen).  [RecursionError] is
    Python's answer to a recursion deeper than the interpreter allows. *)
Inductive exn : Type :=
| KeyError
| AttributeError
| ValueError
| RecursionError
| LoopBound.

Inductive res (A : Type) : Type :=
| Ok (a : A)
| Raise (e : exn).
Arguments Ok {A} a.
Arguments Raise {A} e.

Definition bind {A B : Type} (m : res A) (k : A -> res B) : res B :=
  match m with
  | Ok a => k a
  | Raise e => Raise e
  end.

Notation "x <- m ;; k" := (bind m (fun x => k))
  (at level 61, m at next level, right associativity).
Notation "' p <- m ;; k" := (bind m (fun x => let p := x in k))
  (at level 61, p pattern, m at next level, right associativity).

(** ** Dictionaries

    A Python 3 [dict] keeps its keys in insertion order; [get_all_arcs] and
    [min(assignment.keys(), ...)] depend on that order, so a dictionary is
    an association list: binding a key that is present replaces its value in
    place, binding a new key appends it. *)
Definition dict (V : Type) : Type := list (name * V).

Fixpoint dict_get {V : Type} (k : name) (d : dict V) : option V :=
  match d with
  | [] => None
  | (k', v) :: d' => if String.eqb k k' then Some v else dict_get k d'
  end.

Fixpoint dict_set {V : Type} (k : name) (v : V) (d : dict V) : dict V :=
  match d with
  | [] => [(k, v)]
  | (k', v') :: d' =>
      if String.eqb k k' then (k', v) :: d' else (k', v') :: dict_set k v d'
  end.

Definition dict_keys {V : Type} (d : dict V) : list name := map fst d.
Definition dict_values {V : Type} (d : dict V) : list V := map snd d.

(** [k in d] *)
Definition dict_mem {V : Type} (k : name) (d : dict V) : bool :=
  match dict_get k d with
  | Some _ => true
  | None => false
  end.

(** [d[k]], which raises [KeyError] for a missing key *)
Definition lookup {V : Type} (k : name) (d : dict V) : res V :=
  match dict_get k d with
  | Some v => Ok v
  | None => Raise KeyError
  end.

(** ** Domains as the assignment stores them

    [add_variable] stores [list(domain)], a list.  [backtrack] later binds a
    variable to the candidate value itself ([assignment_cp[variable] = value],
    line 137), a [str]: an entry of an assignment is one or the other. *)
Inductive entry : Type :=
| EList (l : list value)
| EStr (s : value).

Definition assignment : Type := dict entry.

(** The characters of a [str], each as a one-character [str]: what
    iterating over a string yields. *)
Fixpoint chars (s : string) : list value :=
  match s with
  | EmptyString => []
  | String c s' => String c EmptyString :: chars s'
  end.

(** [len(e)] *)
Definition py_len (e : entry) : nat :=
  match e with
  | EList l => List.length l
  | EStr s => String.length s
  end.

(** The values [for x in e] visits when [e] is not changed meanwhile. *)
Definition py_iter (e : entry) : list value :=
  match e with
  | EList l => l
  | EStr s => chars s
  end.

(** Truth value of [e]: a list or a string is false when it is empty. *)
Definition py_truthy (e : entry) : bool :=
  match py_len e with
  | 0 => false
  | S _ => true
  end.

(** [x in s] for two strings: [x] occurs in [s] as a substring. *)
Fixpoint str_contains (x s : string) : bool :=
  String.prefix x s
  || match s with
     | EmptyString => false
     | String _ s' => str_contains x s'
     end.

(** [x in e] *)
Definition py_contains (x : value) (e : entry) : bool :=
  match e with
  | EList l => existsb (String.eqb x) l
  | EStr s => str_contains x s
  end.

(** [l.remove(x)] on a list that holds [x]: the first occurrence goes. *)
Fixpoint remove_first (x : value) (l : list value) : list value :=
  match l with
  | [] => []
  | y :: l' => if String.eqb x y then l' else y :: remove_first x l'
  end.

Definition pair_eqb (p q : value * value) : bool :=
  String.eqb (fst p) (fst q) && String.eqb (snd p) (snd q).

(** [arc in pairs] for a tuple and a list of tuples *)
Definition pair_in (p : value * value) (pairs : list (value * value)) : bool :=
  existsb (pair_eqb p) pairs.

(** ** The class [CSP] *)

Definition arc : Type := (name * name)%type.

Record CSP : Type := mkCSP {
  variables : list name;
  domains : dict (list value);
  constraints : dict (dict (list (value * value)));
  backtracking_number : nat;
  failed_backtracking_number : nat
}.

(** [CSP.__init__] *)
Definition new_csp : CSP := mkCSP [] [] [] 0 0.

Definition set_constraints (self : CSP)
  (c : dict (dict (list (value * value)))) : CSP :=
  mkCSP (variables self) (domains self) c
        (backtracking_number self) (failed_backtracking_number self).

Definition set_counters (self : CSP) (b f : nat) : CSP :=
  mkCSP (variables self) (domains self) (constraints self) b f.

(** [CSP.add_variable] (lines 30-37).  Nothing in it can raise. *)
Definition add_variable (self : CSP) (nm : name) (domain : list value)
  : res CSP :=
  Ok (mkCSP (variables self ++ [nm])
            (dict_set nm domain (domains self))
            (dict_set nm [] (constraints self))
            (backtracking_number self)
            (failed_backtracking_number self)).

(** [CSP.get_all_possible_pairs]: [itertools.product(a, b)] *)
Definition get_all_possible_pairs {A B : Type} (a : list A) (b : list B)
  : list (A * B) :=
  flat_map (fun x => map (fun y => (x, y)) b) a.

(** [CSP.get_all_arcs] (line 53) *)
Definition get_all_arcs (self : CSP) : list arc :=
  flat_map (fun ic => map (fun jc => (fst ic, fst jc)) (snd ic))
           (constraints self).

(** [CSP.get_all_neighboring_arcs] (line 60) *)
Definition get_all_neighboring_arcs (self : CSP) (var : name)
  : res (list arc) :=
  ci <- lookup var (constraints self) ;;
  Ok (map (fun i => (i, var)) (dict_keys ci)).

(** [CSP.add_constraint_one_way] (lines 62-78) *)
Definition add_constraint_one_way (self : CSP) (i j : name)
  (filter_function : value -> value -> bool) : res CSP :=
  ci <- lookup i (constraints self) ;;
  ci1 <- (if dict_mem j ci then Ok ci
          else
            di <- lookup i (domains self) ;;
            dj <- lookup j (domains self) ;;
            Ok (dict_set j (get_all_possible_pairs di dj) ci)) ;;
  cij <- lookup j ci1 ;;
  let kept := filter (fun p => filter_function (fst p) (snd p)) cij in
  Ok (set_constraints self (dict_set i (dict_set j kept ci1) (constraints self))).

(** [CSP.add_all_different_constraint] (lines 80-87) *)
Fixpoint add_constraints_over (self : CSP) (pairs : list (name * name))
  : res CSP :=
  match pairs with
  | [] => Ok self
  | (i, j) :: rest =>
      if String.eqb i j then add_constraints_over self rest
      else
        self' <- add_constraint_one_way self i j
                   (fun x y => negb (String.eqb x y)) ;;
        add_constraints_over self' rest
  end.

Definition add_all_different_constraint (self : CSP) (vars : list name)
  : res CSP :=
  add_constraints_over self (get_all_possible_pairs vars vars).

(** ** AC-3 *)

(** [sum(arc in self.constraints[xi][xj] for arc in arcs)] (line 191).  The
    generator looks the constraint up once per arc, so an empty [arcs] never
    touches [self.constraints]. *)
Fixpoint count_in (self : CSP) (xi xj : name) (arcs : list (value * value))
  : res nat :=
  match arcs with
  | [] => Ok 0
  | a :: rest =>
      ci <- lookup xi (constraints self) ;;
      cij <- lookup xj ci ;;
      n <- count_in self xi xj rest ;;
      Ok ((if pair_in a cij then 1 else 0) + n)
  end.

(** The test of line 191 for one value [x] of [xi]'s domain: no pair
    [(x, b)], [b] in [assignment[xj]], is a legal pair. *)
Definition unsupported (self : CSP) (a : assignment) (xi xj : name)
  (x : value) : res bool :=
  dj <- lookup xj a ;;
  let arcs := get_all_possible_pairs [x] (py_iter dj) in
  n <- count_in self xi xj arcs ;;
  Ok (Nat.eqb n 0).

(** The [for] loop of [revise] (lines 189-193) when [assignment[xi]] is a
    list.  A list iterator is an index into the list object: each step
    reads the element at the index, if there is one, and moves the index on.
    The body removes from the very list that is being iterated, so [l] is
    the current contents of that list object and [a] the assignment whose
    entry [xi] is the same object.  A step either ends the loop or moves the
    index on while the list does not grow, so [steps], started at the
    length of the list, is never used up. *)
Fixpoint revise_list (self : CSP) (xi xj : name) (steps i : nat)
  (revised : bool) (l : list value) (a : assignment)
  : res (bool * assignment) :=
  match nth_error l i with
  | None => Ok (revised, a)
  | Some x =>
      match steps with
      | 0 => Raise LoopBound
      | S steps' =>
          u <- unsupported self a xi xj x ;;
          if u then
            if py_contains x (EList l) then
              let l' := remove_first x l in
              revise_list self xi xj steps' (S i) true l'
                          (dict_set xi (EList l') a)
            else revise_list self xi xj steps' (S i) true l a
          else revise_list self xi xj steps' (S i) revised l a
      end
  end.

(** The same loop when [assignment[xi]] is a [str] [s]: the characters are
    visited in turn, and [s.remove] does not exist. *)
Fixpoint revise_str (self : CSP) (xi xj : name) (todo : list value)
  (revised : bool) (s : value) (a : assignment)
  : res (bool * assignment) :=
  match todo with
  | [] => Ok (revised, a)
  | x :: todo' =>
      u <- unsupported self a xi xj x ;;
      if u then
        if py_contains x (EStr s) then Raise AttributeError
        else revise_str self xi xj todo' true s a
      else revise_str self xi xj todo' revised s a
  end.

(** [CSP.revise] (lines 177-195) *)
Definition revise (self : CSP) (a : assignment) (xi xj : name)
  : res (bool * assignment) :=
  di <- lookup xi a ;;
  match di with
  | EList l => revise_list self xi xj (List.length l) 0 false l a
  | EStr s => revise_str self xi xj (chars s) false s a
  end.

(** The arcs lines 172-174 append to the queue after [xi] was revised
    against [xj]. *)
Definition requeued (self : CSP) (xi xj : name) : res (list arc) :=
  arcs <- get_all_neighboring_arcs self xi ;;
  Ok (map (fun kx => (fst kx, xi))
          (filter (fun kx => negb (String.eqb (fst kx) xj)) arcs)).

(** One more call of [revise] *)
Definition tick {A : Type} (r : A * nat) : A * nat := (fst r, S (snd r)).

(** The [while] loop of [CSP.inference] (lines 167-175).  Each turn of the
    loop takes one unit of [steps]; the second component of the result
    counts the calls of [revise]. *)
Fixpoint inference_loop (self : CSP) (steps : nat) (a : assignment)
  (queue : list arc) : res (bool * assignment) * nat :=
  match queue with
  | [] => (Ok (true, a), 0)
  | (xi, xj) :: queue' =>
      match steps with
      | 0 => (Raise LoopBound, 0)
      | S steps' =>
          tick
            match revise self a xi xj with
            | Raise e => (Raise e, 0)
            | Ok (true, a1) =>
                match lookup xi a1 with
                | Raise e => (Raise e, 0)
                | Ok di =>
                    if negb (py_truthy di) then (Ok (false, a1), 0)
                    else
                      match requeued self xi xj with
                      | Raise e => (Raise e, 0)
                      | Ok more =>
                          inference_loop self steps' a1 (queue' ++ more)
                      end
                end
            | Ok (false, a1) => inference_loop self steps' a1 queue'
            end
      end
  end.

(** The size of [x]'s domain in [a], 0 for a name [a] does not bind. *)
Definition size_of (a : assignment) (x : name) : nat :=
  match dict_get x a with
  | Some e => py_len e
  | None => 0
  end.

(** The values still held by the tails of all arcs: every arc counts the
    size of the domain it starts from. *)
Definition potential (self : CSP) (a : assignment) : nat :=
  list_sum (map (fun ij => size_of a (fst ij)) (get_all_arcs self)).

(** Turns of the loop that are always enough (see [inference_loop_spec]). *)
Definition inference_bound (self : CSP) (a : assignment) (queue : list arc)
  : nat :=
  List.length queue + potential self a.

(** [CSP.inference] *)
Definition inference (self : CSP) (a : assignment) (queue : list arc)
  : res (bool * assignment) :=
  fst (inference_loop self (inference_bound self a queue) a queue).

(** The calls of [revise] one call of [inference] makes. *)
Definition revise_calls (self : CSP) (a : assignment) (queue : list arc)
  : nat :=
  snd (inference_loop self (inference_bound self a queue) a queue).

(** ** Backtracking search *)

(** The key of line 158: [float("inf")] or a length. *)
Inductive badness : Type :=
| Len (n : nat)
| Inf.

(** [x < y] *)
Definition badness_lt (x y : badness) : bool :=
  match x, y with
  | Len n, Len m => Nat.ltb n m
  | Len _, Inf => true
  | Inf, _ => false
  end.

Definition badness_of (a : assignment) (var : name) : res badness :=
  d <- lookup var a ;;
  Ok (if Nat.ltb (py_len d) 2 then Inf else Len (py_len d)).

(** [min(items, key=...)] once a first item is known: a later item replaces
    the best one only when its key is strictly smaller. *)
Fixpoint min_from (a : assignment) (best : name) (kbest : badness)
  (rest : list name) : res name :=
  match rest with
  | [] => Ok best
  | y :: rest' =>
      ky <- badness_of a y ;;
      if badness_lt ky kbest then min_from a y ky rest'
      else min_from a best kbest rest'
  end.

(** [CSP.select_unassigned_variable] (lines 149-158); [min] of an empty
    sequence raises [ValueError]. *)
Definition select_unassigned_variable (a : assignment) : res name :=
  match dict_keys a with
  | [] => Raise ValueError
  | x :: rest =>
      kx <- badness_of a x ;;
      min_from a x kx rest
  end.

(** Line 131: the sum of the lengths equals the number of variables. *)
Definition complete (a : assignment) : bool :=
  Nat.eqb (list_sum (map py_len (dict_values a))) (List.length a).

(** [if result:] (line 142): [None] and the empty dict are false. *)
Definition result_truthy (r : option assignment) : bool :=
  match r with
  | None => false
  | Some [] => false
  | Some (_ :: _) => true
  end.

Definition count_backtrack (self : CSP) : CSP :=
  set_counters self (S (backtracking_number self))
               (failed_backtracking_number self).

Definition count_failed (self : CSP) : CSP :=
  set_counters self (backtracking_number self)
               (S (failed_backtracking_number self)).

(** [CSP.backtrack] (lines 111-147).  [depth] is the number of nested calls
    the interpreter allows.  [copy.deepcopy] gives an object that shares
    nothing with [assignment]; the assignment [a] is a value here, so the
    copy is [a] itself and nothing done to the copy reaches [a]. *)
Fixpoint backtrack (depth : nat) (self : CSP) (a : assignment)
  : res (option assignment * CSP) :=
  match depth with
  | 0 => Raise RecursionError
  | S depth' =>
      if complete a then Ok (Some a, self)
      else
        variable <- select_unassigned_variable a ;;
        d <- lookup variable a ;;
        (fix try (self : CSP) (todo : list value)
           : res (option assignment * CSP) :=
           match todo with
           | [] => Ok (None, count_failed self)
           | v :: todo' =>
               let assignment_cp := dict_set variable (EStr v) a in
               ' (consistent, pruned) <-
                 inference self assignment_cp (get_all_arcs self) ;;
               if (consistent : bool) then
                 ' (result, self') <-
                   backtrack depth' (count_backtrack self) pruned ;;
                 if result_truthy result then Ok (result, self')
                 else try self' todo'
               else try self todo'
           end) self (py_iter d)
  end.

(** The assignment [backtracking_search] starts from (line 98). *)
Definition initial_assignment (self : CSP) : assignment :=
  map (fun kv => (fst kv, EList (snd kv))) (domains self).

(** [CSP.backtracking_search] (lines 89-109).  What [inference] returns is
    dropped (line 102); only its pruning of [assignment] is kept. *)
Definition backtracking_search (depth : nat) (self : CSP)
  : res (option assignment * CSP) :=
  let a := initial_assignment self in
  ' (_, pruned) <- inference self a (get_all_arcs self) ;;
  backtrack depth (set_counters self 1 0) pruned.

(** ** The Sudoku board *)

(** What [create_sudoku_csp] and [print_sudoku_solution] end with: they
    index into strings and lists, which raises [IndexError]; no method of
    [CSP] does. *)
Inductive outcome (A : Type) : Type :=
| Returned (a : A)
| IndexError
| Raised (e : exn).
Arguments Returned {A} a.
Arguments IndexError {A}.
Arguments Raised {A} e.

(** [str(n)] for an [int] that is not negative *)
Definition str (n : nat) : string := NilEmpty.string_of_uint (Nat.to_uint n).

(** ['{}-{}'.format(row, col)] *)
Definition cell_name (row col : nat) : name :=
  (str row ++ "-" ++ str col)%string.

(** [range(a, b)] *)
Definition range (a b : nat) : list nat := seq a (b - a).

(** [board[row][col]], a string of one character *)
Definition board_at (board : list string) (row col : nat) : outcome value :=
  match nth_error board row with
  | None => IndexError
  | Some line =>
      match String.get col line with
      | None => IndexError
      | Some c => Returned (String c EmptyString)
      end
  end.

(** The domain lines 208-211 give a cell that shows [v] on the board. *)
Definition cell_domain (v : value) : list value :=
  if String.eqb v "0" then map str (range 1 10) else [v].

(** The loops of lines 206-211, over the cells in the order the two
    [for]s visit them. *)
Fixpoint declare_cells (board : list string) (cells : list (nat * nat))
  (csp : CSP) : outcome CSP :=
  match cells with
  | [] => Returned csp
  | (row, col) :: rest =>
      match board_at board row col with
      | Returned v =>
          match add_variable csp (cell_name row col) (cell_domain v) with
          | Ok csp' => declare_cells board rest csp'
          | Raise e => Raised e
          end
      | IndexError => IndexError
      | Raised e => Raised e
      end
  end.

(** The list of line 214, of line 216, and [cells] of lines 219-222 *)
Definition row_cells (row : nat) : list name :=
  map (fun col => cell_name row col) (range 0 9).

Definition col_cells (col : nat) : list name :=
  map (fun row => cell_name row col) (range 0 9).

Definition box_cells (box_row box_col : nat) : list name :=
  map (fun rc => cell_name (fst rc) (snd rc))
      (get_all_possible_pairs (range (box_row * 3) ((box_row + 1) * 3))
                              (range (box_col * 3) ((box_col + 1) * 3))).

(** One [add_all_different_constraint] per group, in order *)
Fixpoint constrain_groups (groups : list (list name)) (csp : CSP) : res CSP :=
  match groups with
  | [] => Ok csp
  | cells :: rest =>
      csp' <- add_all_different_constraint csp cells ;;
      constrain_groups rest csp'
  end.

(** [create_sudoku_csp] (lines 198-225), from the list [board] of line 204
    on: [board] holds the lines of the file, stripped. *)
Definition create_sudoku_csp (board : list string) : outcome CSP :=
  match declare_cells board
          (get_all_possible_pairs (range 0 9) (range 0 9)) new_csp with
  | Returned csp =>
      match
        (csp <- constrain_groups (map row_cells (range 0 9)) csp ;;
         csp <- constrain_groups (map col_cells (range 0 9)) csp ;;
         constrain_groups
           (map (fun b => box_cells (fst b) (snd b))
                (get_all_possible_pairs (range 0 3) (range 0 3))) csp)
      with
      | Ok csp' => Returned csp'
      | Raise e => Raised e
      end
  | IndexError => IndexError
  | Raised e => Raised e
  end.

(** [solution[key][0]] *)
Definition first_value (solution : assignment) (key : name) : outcome value :=
  match dict_get key solution with
  | None => Raised KeyError
  | Some (EList []) => IndexError
  | Some (EList (v :: _)) => Returned v
  | Some (EStr EmptyString) => IndexError
  | Some (EStr (String c _)) => Returned (String c EmptyString)
  end.





(** * The vocabulary of the claims *)

(** The key line 158 gives a variable, read off the size of its domain. *)
Definition bkey (a : assignment) (y : name) : badness :=
  if Nat.ltb (size_of a y) 2 then Inf else Len (size_of a y).

(** ** Sizes and arcs *)

(** The arcs of a list that start from [xi] *)
Definition arcs_from (xi : name) (arcs : list arc) : nat :=
  List.length (filter (fun ij => String.eqb (fst ij) xi) arcs).

(** [a'] is [a] after some pruning: the same variables in the same order,
    no domain larger than it was, and no value in a domain of [a'] that was
    not in that domain in [a]. *)
Definition shrunk (a a' : assignment) : Prop :=
  dict_keys a' = dict_keys a /\
  (forall x, size_of a' x <= size_of a x) /\
  (forall x e', dict_get x a' = Some e' ->
     exists e, dict_get x a = Some e /\ incl (py_iter e') (py_iter e)).

(** [d]: the largest domain of the assignment; [e]: the number of arcs. *)
Definition max_domain_size (a : assignment) : nat :=
  list_max (map py_len (dict_values a)).

Definition arc_count (self : CSP) : nat := List.length (get_all_arcs self).

(** Several calls of [inference] in a row on the same assignment object,
    one queue each; what the calls return is not looked at. *)
Fixpoint inference_runs (self : CSP) (a : assignment)
  (queues : list (list arc)) : res assignment :=
  match queues with
  | [] => Ok a
  | queue :: queues' =>
      ' (_, a1) <- inference self a queue ;;
      inference_runs self a1 queues'
  end.

(** ** Arc consistency *)

(** [x], a value of [xi], has a legal partner among the values of [xj]. *)
Definition supports (self : CSP) (a : assignment) (xi xj : name) (x : value)
  : Prop :=
  exists dj ci cij b,
    dict_get xj a = Some dj /\
    dict_get xi (constraints self) = Some ci /\
    dict_get xj ci = Some cij /\
    In b (py_iter dj) /\ In (x, b) cij.

Definition arc_consistent_on (self : CSP) (a : assignment) (ij : arc) : Prop :=
  exists di,
    dict_get (fst ij) a = Some di /\
    forall x, In x (py_iter di) -> supports self a (fst ij) (snd ij) x.

Definition arc_consistent (self : CSP) (a : assignment) (arcs : list arc)
  : Prop :=
  Forall (arc_consistent_on self a) arcs.

(** Arc consistency can be checked by running through the values. *)
Definition supportsb (self : CSP) (a : assignment) (xi xj : name) (x : value)
  : bool :=
  match dict_get xj a, dict_get xi (constraints self) with
  | Some dj, Some ci =>
      match dict_get xj ci with
      | Some cij => existsb (fun b => pair_in (x, b) cij) (py_iter dj)
      | None => false
      end
  | _, _ => false
  end.

Definition arc_consistent_onb (self : CSP) (a : assignment) (ij : arc) : bool :=
  match dict_get (fst ij) a with
  | Some di => forallb (supportsb self a (fst ij) (snd ij)) (py_iter di)
  | None => false
  end.

Definition arc_consistentb (self : CSP) (a : assignment) (arcs : list arc)
  : bool :=
  forallb (arc_consistent_onb self a) arcs.

(** ** Solutions *)

(** Every constrained pair of variables holds a legal pair of values. *)
Definition satisfies_constraints (self : CSP) (sol : name -> value) : Prop :=
  forall i j ci cij,
    dict_get i (constraints self) = Some ci ->
    dict_get j ci = Some cij -> In (sol i, sol j) cij.

(** One value for every variable, taken from its declared domain, every
    constrained pair of variables holding a legal pair of values. *)
Definition is_solution (self : CSP) (sol : name -> value) : Prop :=
  (forall x dom, dict_get x (domains self) = Some dom -> In (sol x) dom) /\
  satisfies_constraints self sol.

(** Every domain of the assignment still holds the value [sol] gives its
    variable. *)
Definition keeps (a : assignment) (sol : name -> value) : Prop :=
  forall x e, dict_get x a = Some e -> In (sol x) (py_iter e).

(** ** The constraint graph *)

(** [self.constraints[i][j]], when both keys are there *)
Definition constraint_of (self : CSP) (i j : name)
  : option (list (value * value)) :=
  match dict_get i (constraints self) with
  | Some ci => dict_get j ci
  | None => None
  end.

(** The pairs [add_constraint_one_way] filters (lines 72-78): the pairs
    already installed for [(i, j)], or else all pairs of the two domains. *)
Definition pairs_to_filter (self : CSP) (i j : name)
  : res (list (value * value)) :=
  match constraint_of self i j with
  | Some pairs => Ok pairs
  | None =>
      di <- lookup i (domains self) ;;
      dj <- lookup j (domains self) ;;
      Ok (get_all_possible_pairs di dj)
  end.

(** What the three builder methods keep true of a CSP that started as
    [CSP()]: [domains] and [constraints] have the same keys in the same
    order, no key twice; the names in [variables] are those keys; and every
    variable a constraint leads to is declared. *)
Definition well_formed (self : CSP) : Prop :=
  dict_keys (constraints self) = dict_keys (domains self) /\
  NoDup (dict_keys (domains self)) /\
  (forall x, In x (variables self) <-> In x (dict_keys (domains self))) /\
  (forall i ci, dict_get i (constraints self) = Some ci ->
     NoDup (dict_keys ci) /\
     forall j, In j (dict_keys ci) -> In j (dict_keys (domains self))).

(** Every constraint has its opposite: the docstring of
    [add_constraint_one_way] asks the caller for that. *)
Definition two_way (self : CSP) : Prop :=
  forall i j, constraint_of self i j <> None -> constraint_of self j i <> None.

(** An assignment as [backtracking_search] makes it: every declared
    variable is bound to a list. *)
Definition list_valued (self : CSP) (a : assignment) : Prop :=
  forall x, In x (dict_keys (domains self)) ->
            exists l, dict_get x a = Some (EList l).

(** The filter of line 87 *)
Definition differ (p : value * value) : bool :=
  negb (String.eqb (fst p) (snd p)).

(** ** The Sudoku grid *)

(** The cells in the order lines 206-207 visit them *)
Definition all_cells : list (nat * nat) :=
  get_all_possible_pairs (range 0 9) (range 0 9).

Definition cell_names : list name :=
  map (fun rc => cell_name (fst rc) (snd rc)) all_cells.

(** The 27 groups of lines 213-223, in the order they are constrained *)
Definition sudoku_groups : list (list name) :=
  map row_cells (range 0 9) ++ map col_cells (range 0 9) ++
  map (fun b => box_cells (fst b) (snd b))
      (get_all_possible_pairs (range 0 3) (range 0 3)).

Arguments all_cells : simpl never.
Arguments cell_names : simpl never.
Arguments sudoku_groups : simpl never.

(** Two cells that are not the same and share a row, a column or a box *)
Definition peers (r c r' c' : nat) : bool :=
  negb (Nat.eqb r r' && Nat.eqb c c') &&
  (Nat.eqb r r' || Nat.eqb c c' ||
   (Nat.eqb (r / 3) (r' / 3) && Nat.eqb (c / 3) (c' / 3))).

(** Nine lines of nine characters at least *)
Definition nine_by_nine (board : list string) : Prop :=
  forall r c, r < 9 -> c < 9 -> exists v, board_at board r c = Returned v.

(** What the board shows in a cell, [""] outside the board *)
Definition shown (board : list string) (r c : nat) : value :=
  match board_at board r c with
  | Returned v => v
  | _ => ""
  end.

(** [x] and [y] are two different names of one group. *)
Definition linked (groups : list (list name)) (x y : name) : bool :=
  negb (String.eqb x y) &&
  existsb (fun g => existsb (String.eqb x) g && existsb (String.eqb y) g) groups.

(** No name twice *)
Fixpoint nodupb (l : list name) : bool :=
  match l with
  | [] => true
  | x :: l' => negb (existsb (String.eqb x) l') && nodupb l'
  end.

(** The board has the cell [(r, c)]. *)
Definition has_cell (board : list string) (rc : nat * nat) : bool :=
  match board_at board (fst rc) (snd rc) with
  | Returned _ => true
  | _ => false
  end.

(** ** The search *)

(** The [for] loop of [backtrack] (lines 135-143) as a function of its own,
    [rec] standing for the recursive call of line 141; [backtrack_unfold]
    shows that [backtrack] runs this loop. *)
Fixpoint try_values (rec : CSP -> assignment -> res (option assignment * CSP))
  (a : assignment) (variable : name) (self : CSP) (todo : list value)
  : res (option assignment * CSP) :=
  match todo with
  | [] => Ok (None, count_failed self)
  | v :: todo' =>
      let assignment_cp := dict_set variable (EStr v) a in
      ' (consistent, pruned) <-
        inference self assignment_cp (get_all_arcs self) ;;
      if (consistent : bool) then
        ' (result, self') <- rec (count_backtrack self) pruned ;;
        if result_truthy result then Ok (result, self')
        else try_values rec a variable self' todo'
      else try_values rec a variable self todo'
  end.

(** [self'] is [self] with the two counters raised by some amount. *)
Definition counted (self self' : CSP) : Prop :=
  variables self' = variables self /\
  domains self' = domains self /\
  constraints self' = constraints self /\
  backtracking_number self <= backtracking_number self' /\
  failed_backtracking_number self <= failed_backtracking_number self'.

(** Every value of every domain is one character, as on a Sudoku board. *)
Definition single_chars (a : assignment) : Prop :=
  forall x e v, dict_get x a = Some e -> In v (py_iter e) -> String.length v = 1.

(** No domain is empty. *)
Definition all_nonempty (a : assignment) : Prop :=
  forall x, In x (dict_keys a) -> 1 <= size_of a x.

(** The variables that still have two values or more *)
Definition undecided (a : assignment) : nat :=
  List.length (filter (fun x => Nat.leb 2 (size_of a x)) (dict_keys a)).

(** The CSP after the cells are declared on a board of nine by nine *)
Definition declared_board (board : list string) : CSP :=
  mkCSP cell_names
        (map (fun rc => (cell_name (fst rc) (snd rc),
                         cell_domain (shown board (fst rc) (snd rc)))) all_cells)
        (map (fun rc => (cell_name (fst rc) (snd rc), [])) all_cells)
        0 0.

(** ** Puzzles of different values *)

(** [x] is a value of the declared domain of [i]. *)
Definition declared (self : CSP) (i : name) (x : value) : Prop :=
  exists d, dict_get i (domains self) = Some d /\ In x d.

(** Every constraint is the one [add_all_different_constraint] installs
    between two variables, the pairs of different values of the two
    declared domains, and no variable is constrained against itself. *)
Definition all_different (self : CSP) : Prop :=
  forall i j pairs,
    constraint_of self i j = Some pairs ->
    i <> j /\
    forall x y,
      In (x, y) pairs <-> declared self i x /\ declared self j y /\ x <> y.

(** An assignment as the search passes it on when the domains hold single
    characters: no variable twice, no domain empty, no value twice in a
    domain, every value one character of the declared domain. *)
Definition tidy (self : CSP) (a : assignment) : Prop :=
  NoDup (dict_keys a) /\
  all_nonempty a /\
  single_chars a /\
  (forall i e, dict_get i a = Some e -> NoDup (py_iter e)) /\
  (forall i e x, dict_get i a = Some e -> In x (py_iter e) -> declared self i x).

(** Every arc of the graph is in the queue or consistent. *)
Definition pending (self : CSP) (a : assignment) (queue : list arc) : Prop :=
  forall i j,
    constraint_of self i j <> None ->
    In (i, j) queue \/ arc_consistent_on self a (i, j).

(** The value [print_sudoku_solution] shows for a variable: the first of
    its domain. *)
Definition answer (a : assignment) (x : name) : value :=
  match dict_get x a with
  | Some e => hd EmptyString (py_iter e)
  | None => EmptyString
  end.

(** * Concrete boards *)

Module Boards.

Definition same (x y : value) : bool := String.eqb x y.

(** Two cells of one group that were both given ['1']. *)
Definition two_givens : res CSP :=
  c <- add_variable new_csp "A" ["1"] ;;
  c <- add_variable c "B" ["1"] ;;
  add_all_different_constraint c ["A"; "B"].

Definition two_givens_csp : CSP :=
  mkCSP ["A"; "B"]
        [("A", ["1"]); ("B", ["1"])]
        [("A", [("B", [])]); ("B", [("A", [])])]
        0 0.

(** The same with a free cell [C] outside the group. *)
Definition givens_and_free : res CSP :=
  c <- add_variable new_csp "A" ["1"] ;;
  c <- add_variable c "B" ["1"] ;;
  c <- add_variable c "C" ["1"; "2"] ;;
  add_all_different_constraint c ["A"; "B"].

Definition givens_and_free_csp : CSP :=
  mkCSP ["A"; "B"; "C"]
        [("A", ["1"]); ("B", ["1"]); ("C", ["1"; "2"])]
        [("A", [("B", [])]); ("B", [("A", [])]); ("C", [])]
        0 0.

(** A free cell [V] in one group with two cells that were both given ['1']. *)
Definition free_and_givens : res CSP :=
  c <- add_variable new_csp "V" ["1"; "2"] ;;
  c <- add_variable c "A" ["1"] ;;
  c <- add_variable c "B" ["1"] ;;
  add_all_different_constraint c ["V"; "A"; "B"].

Definition free_and_givens_csp : CSP :=
  mkCSP ["V"; "A"; "B"]
        [("V", ["1"; "2"]); ("A", ["1"]); ("B", ["1"])]
        [("V", [("A", [("2", "1")]); ("B", [("2", "1")])]);
         ("A", [("V", [("1", "2")]); ("B", [])]);
         ("B", [("V", [("1", "2")]); ("A", [])])]
        0 0.

(** Two variables that must be equal, the constraint installed both ways. *)
Definition equal_pair : res CSP :=
  c <- add_variable new_csp "A" ["1"; "2"; "3"] ;;
  c <- add_variable c "B" ["3"] ;;
  c <- add_constraint_one_way c "A" "B" same ;;
  add_constraint_one_way c "B" "A" same.

Definition equal_pair_csp : CSP :=
  mkCSP ["A"; "B"]
        [("A", ["1"; "2"; "3"]); ("B", ["3"])]
        [("A", [("B", [("3", "3")])]); ("B", [("A", [("3", "3")])])]
        0 0.

(** One free variable and no constraint. *)
Definition one_free : res CSP := add_variable new_csp "X" ["1"; "2"].

Definition one_free_csp : CSP :=
  mkCSP ["X"] [("X", ["1"; "2"])] [("X", [])] 0 0.

(** Two free cells of one group. *)
Definition two_free : res CSP :=
  c <- add_variable new_csp "X" ["1"; "2"] ;;
  c <- add_variable c "Y" ["1"; "2"] ;;
  add_all_different_constraint c ["X"; "Y"].

Definition two_free_csp : CSP :=
  mkCSP ["X"; "Y"]
        [("X", ["1"; "2"]); ("Y", ["1"; "2"])]
        [("X", [("Y", [("1", "2"); ("2", "1")])]);
         ("Y", [("X", [("1", "2"); ("2", "1")])])]
        0 0.

(** Two variables declared, nothing constrained. *)
Definition two_declared_csp : CSP :=
  mkCSP ["X"; "Y"] [("X", ["1"; "2"]); ("Y", ["1"; "2"])]
        [("X", []); ("Y", [])] 0 0.

(** A board of nine by nine; ['0'] marks an empty cell. *)
Definition sample_board : list string :=
  ["530070000"; "600195000"; "098000060"; "800060003"; "400803001";
   "700020006"; "060000280"; "000419005"; "000080079"].

(** What a call returned, or [default] when it raised *)
Definition returned {A : Type} (r : res A) (default : A) : A :=
  match r with
  | Ok x => x
  | Raise _ => default
  end.

Definition built (r : outcome CSP) : CSP :=
  match r with
  | Returned csp => csp
  | _ => new_csp
  end.

Definition found (r : option assignment) : assignment :=
  match r with
  | Some a => a
  | None => []
  end.

(** The CSP of that board, what the first pass leaves of its domains, and
    what the search answers. *)
Definition sample_csp : CSP := built (create_sudoku_csp sample_board).

Definition sample_pruned : assignment :=
  snd (returned (inference sample_csp (initial_assignment sample_csp)
                           (get_all_arcs sample_csp))
                (false, [])).

Definition sample_answer : assignment :=
  found (fst (returned (backtracking_search 1 sample_csp) (None, new_csp))).

Definition sample_done : CSP :=
  snd (returned (backtracking_search 1 sample_csp) (None, new_csp)).

End Boards.

(** * Properties *)

(** ** Dictionaries *)

Section DictFacts.
Context {V : Type}.
Implicit Types (d : dict V) (k : name) (v : V).

Lemma dict_get_set_same k v d : dict_get k (dict_set k v d) = Some v.
Proof.
  induction d as [|[k' v'] d IH]; simpl.
  - now rewrite String.eqb_refl.
  - destruct (String.eqb k k') eqn:E; simpl; rewrite E; [reflexivity | exact IH].
Qed.

Lemma dict_get_set_other k k' v d :
  k' <> k -> dict_get k' (dict_set k v d) = dict_get k' d.
Proof.
  intros Hne. induction d as [|[k0 v0] d IH]; simpl.
  - destruct (String.eqb k' k) eqn:E; [|reflexivity].
    apply String.eqb_eq in E. contradiction.
  - destruct (String.eqb k k0) eqn:E; simpl.
    + apply String.eqb_eq in E. subst k0.
      destruct (String.eqb k' k) eqn:E'; [|reflexivity].
      apply String.eqb_eq in E'. contradiction.
    + now rewrite IH.
Qed.

Lemma dict_set_set k v1 v2 d :
  dict_set k v2 (dict_set k v1 d) = dict_set k v2 d.
Proof.
  induction d as [|[k' v'] d IH]; simpl.
  - now rewrite String.eqb_refl.
  - destruct (String.eqb k k') eqn:E; simpl; rewrite E; [reflexivity|].
    now rewrite IH.
Qed.

Lemma dict_set_get k v d : dict_get k d = Some v -> dict_set k v d = d.
Proof.
  induction d as [|[k' v'] d IH]; simpl; [discriminate|].
  destruct (String.eqb k k') eqn:E.
  - now intros [= ->].
  - intros H. now rewrite IH.
Qed.

(** Binding a key that is present keeps the order of the keys; a new key
    goes to the end. *)
Lemma dict_keys_set k v d :
  dict_keys (dict_set k v d) =
  if dict_mem k d then dict_keys d else dict_keys d ++ [k].
Proof.
  unfold dict_mem. induction d as [|[k' v'] d IH]; simpl; [reflexivity|].
  destruct (String.eqb k k') eqn:E; simpl; [reflexivity|].
  rewrite IH. now destruct (dict_get k d).
Qed.

Lemma dict_get_in_keys k d : In k (dict_keys d) -> exists v, dict_get k d = Some v.
Proof.
  induction d as [|[k' v'] d IH]; simpl; [contradiction|].
  intros [->|Hin].
  - rewrite String.eqb_refl. now exists v'.
  - destruct (String.eqb k k'); [now exists v' | auto].
Qed.

Lemma dict_get_in k v d : dict_get k d = Some v -> In (k, v) d.
Proof.
  induction d as [|[k' v'] d IH]; simpl; [discriminate|].
  destruct (String.eqb k k') eqn:E.
  - apply String.eqb_eq in E. subst k'. intros [= ->]. now left.
  - intros H. right. auto.
Qed.

End DictFacts.

(** ** [add_variable] *)

(** C5 (as the code has it): [add_variable] never fails.  It appends the
    name to [variables] whether or not the name is there already, binds the
    name to the new domain (an earlier domain of that name is overwritten)
    and binds the name to an empty dict in [constraints] (the constraints
    leaving an earlier variable of that name are dropped). *)
Theorem add_variable_always_registers (self : CSP) (nm : name) (domain : list value) :
  exists self',
    add_variable self nm domain = Ok self' /\
    variables self' = variables self ++ [nm] /\
    dict_get nm (domains self') = Some domain /\
    dict_get nm (constraints self') = Some [] /\
    (forall other, other <> nm ->
       dict_get other (domains self') = dict_get other (domains self) /\
       dict_get other (constraints self') = dict_get other (constraints self)) /\
    backtracking_number self' = backtracking_number self /\
    failed_backtracking_number self' = failed_backtracking_number self.
Proof.
  eexists. split; [reflexivity|]. simpl.
  repeat split; auto using dict_get_set_same, dict_get_set_other.
Qed.

(** C5 (as the spec has it) fails: declaring ["A"] a second time raises
    nothing; the name is listed twice and the first domain is gone. *)
Lemma add_variable_twice_succeeds :
  exists self1 self2,
    add_variable new_csp "A" ["1"] = Ok self1 /\
    In "A" (variables self1) /\
    add_variable self1 "A" ["2"] = Ok self2 /\
    variables self2 = ["A"; "A"] /\
    domains self2 = [("A", ["2"])].
Proof.
  do 2 eexists. split; [reflexivity|]. simpl.
  split; [now left|]. split; [reflexivity|]. now split.
Qed.

(** ** [select_unassigned_variable] *)

Ltac badness_cases :=
  repeat match goal with
         | b : badness |- _ => destruct b
         end;
  simpl in *; try congruence;
  rewrite ?Nat.ltb_lt, ?Nat.ltb_ge in *; try lia.

Lemma badness_lt_trans x y z :
  badness_lt x y = true -> badness_lt y z = true -> badness_lt x z = true.
Proof. badness_cases. Qed.

Lemma badness_lt_le_trans x y z :
  badness_lt x y = true -> badness_lt z y = false -> badness_lt x z = true.
Proof. badness_cases. Qed.

Lemma dict_get_keys {V : Type} (k : name) (v : V) (d : dict V) :
  dict_get k d = Some v -> In k (dict_keys d).
Proof.
  intros H. apply dict_get_in in H.
  change k with (fst (k, v)). now apply in_map.
Qed.

Lemma badness_of_key (a : assignment) (y : name) :
  In y (dict_keys a) -> badness_of a y = Ok (bkey a y).
Proof.
  intros Hin. destruct (dict_get_in_keys _ _ Hin) as [e He].
  unfold badness_of, lookup, bkey, size_of. now rewrite He.
Qed.

(** What [min] has found after scanning [before ++ best :: mid]: everything
    before the best item is strictly worse, everything after it is no
    better.  The scan of [rest] keeps that. *)
Lemma min_from_spec (a : assignment) (rest : list name) :
  forall (best : name) (before mid : list name),
    (forall y, In y rest -> In y (dict_keys a)) ->
    (forall y, In y before -> badness_lt (bkey a best) (bkey a y) = true) ->
    (forall y, In y mid -> badness_lt (bkey a y) (bkey a best) = false) ->
    exists v before' after',
      min_from a best (bkey a best) rest = Ok v /\
      before ++ best :: mid ++ rest = before' ++ v :: after' /\
      (forall y, In y before' -> badness_lt (bkey a v) (bkey a y) = true) /\
      (forall y, In y after' -> badness_lt (bkey a y) (bkey a v) = false).
Proof.
  induction rest as [|y rest IH]; intros best before mid Hkeys Hbefore Hmid.
  - exists best, before, mid. rewrite app_nil_r. auto.
  - simpl. rewrite badness_of_key by (apply Hkeys; now left). simpl.
    destruct (badness_lt (bkey a y) (bkey a best)) eqn:Hlt.
    + destruct (IH y (before ++ best :: mid) []) as (v & b' & a' & Hv & Hsplit & Hb & Ha).
      * intros z Hz. apply Hkeys. now right.
      * intros z Hz. apply in_app_or in Hz. destruct Hz as [Hz|[<-|Hz]].
        -- eapply badness_lt_trans; eauto.
        -- exact Hlt.
        -- eapply badness_lt_le_trans; eauto.
      * intros z [].
      * exists v, b', a'. repeat split; auto.
        rewrite <- Hsplit. rewrite <- app_assoc. reflexivity.
    + destruct (IH best before (mid ++ [y])) as (v & b' & a' & Hv & Hsplit & Hb & Ha).
      * intros z Hz. apply Hkeys. now right.
      * exact Hbefore.
      * intros z Hz. apply in_app_or in Hz. destruct Hz as [Hz|[<-|[]]]; auto.
      * exists v, b', a'. repeat split; auto.
        rewrite <- Hsplit. rewrite <- app_assoc. reflexivity.
Qed.

(** C7: when some variable has two values or more, [select_unassigned_variable]
    returns a variable [v] with two values or more whose domain is the
    smallest among those; in the order of the keys of [assignment] (the
    order in which the variables were first declared) every variable before
    [v] is decided or has strictly more values, every variable after [v] is
    decided or has at least as many.  So a variable with fewer than two
    values is not returned. *)
Theorem select_unassigned_variable_mrv (a : assignment) :
  (exists x, 2 <= size_of a x) ->
  exists v before after,
    select_unassigned_variable a = Ok v /\
    dict_keys a = before ++ v :: after /\
    2 <= size_of a v /\
    (forall y, 2 <= size_of a y -> size_of a v <= size_of a y) /\
    (forall y, In y before -> size_of a y < 2 \/ size_of a v < size_of a y) /\
    (forall y, In y after -> size_of a y < 2 \/ size_of a v <= size_of a y).
Proof.
  intros [x Hx].
  assert (Hxin : In x (dict_keys a)).
  { unfold size_of in Hx. destruct (dict_get x a) as [e|] eqn:He; [|lia].
    eapply dict_get_keys; eauto. }
  unfold select_unassigned_variable.
  destruct (dict_keys a) as [|k ks] eqn:Hks; [contradiction|].
  rewrite badness_of_key by (rewrite Hks; now left). simpl.
  destruct (min_from_spec a ks k [] []) as (v & b' & a' & Hv & Hsplit & Hb & Ha).
  { intros y Hy. rewrite Hks. now right. }
  { intros y []. }
  { intros y []. }
  simpl in Hsplit.
  assert (Hle : forall y, In y (k :: ks) -> badness_lt (bkey a y) (bkey a v) = false).
  { intros y Hy. rewrite Hsplit in Hy. apply in_app_or in Hy.
    destruct Hy as [Hy|[<-|Hy]].
    - specialize (Hb y Hy). destruct (bkey a v), (bkey a y); simpl in *;
        try congruence. rewrite Nat.ltb_lt in Hb. apply Nat.ltb_ge. lia.
    - destruct (bkey a v); simpl; [apply Nat.ltb_irrefl | reflexivity].
    - auto. }
  assert (Hv2 : 2 <= size_of a v /\ bkey a v = Len (size_of a v)).
  { specialize (Hle x Hxin). unfold bkey in *.
    destruct (Nat.ltb (size_of a x) 2) eqn:E1; [apply Nat.ltb_lt in E1; lia|].
    destruct (Nat.ltb (size_of a v) 2) eqn:E2; [discriminate|].
    apply Nat.ltb_ge in E2. auto. }
  destruct Hv2 as [Hv2 Hkv].
  assert (Hsmall : forall y, bkey a y = Inf -> size_of a y < 2).
  { intros y. unfold bkey. destruct (Nat.ltb (size_of a y) 2) eqn:E; [|discriminate].
    now apply Nat.ltb_lt in E. }
  assert (Hbig : forall y n, bkey a y = Len n -> n = size_of a y).
  { intros y n. unfold bkey. destruct (Nat.ltb (size_of a y) 2); congruence. }
  exists v, b', a'. repeat split; auto.
  - intros y Hy.
    assert (Hyin : In y (k :: ks)).
    { rewrite <- Hks. unfold size_of in Hy.
      destruct (dict_get y a) eqn:E; [eapply dict_get_keys; eauto | lia]. }
    specialize (Hle y Hyin). rewrite Hkv in Hle.
    destruct (bkey a y) eqn:E; simpl in Hle; [|apply Hsmall in E; lia].
    apply Hbig in E. apply Nat.ltb_ge in Hle. lia.
  - intros y Hy. specialize (Hb y Hy). rewrite Hkv in Hb.
    destruct (bkey a y) eqn:E; simpl in Hb.
    + apply Hbig in E. apply Nat.ltb_lt in Hb. right. lia.
    + left. auto.
  - intros y Hy. specialize (Ha y Hy). rewrite Hkv in Ha.
    destruct (bkey a y) eqn:E; simpl in Ha.
    + apply Hbig in E. apply Nat.ltb_ge in Ha. right. lia.
    + left. auto.
Qed.

Lemma select_unassigned_variable_mrv_witness :
  let a := [("A", EList ["5"]); ("B", EList ["1"; "2"; "3"]);
            ("C", EList ["4"; "6"]); ("D", EList ["7"; "8"])] in
  exists v before after,
    select_unassigned_variable a = Ok v /\
    dict_keys a = before ++ v :: after /\
    2 <= size_of a v /\
    (forall y, 2 <= size_of a y -> size_of a v <= size_of a y) /\
    (forall y, In y before -> size_of a y < 2 \/ size_of a v < size_of a y) /\
    (forall y, In y after -> size_of a y < 2 \/ size_of a v <= size_of a y).
Proof.
  intro a. apply (select_unassigned_variable_mrv a).
  exists "B". vm_compute. lia.
Defined.

(** ** [revise] *)

Lemma nth_error_contains (l : list value) (i : nat) (x : value) :
  nth_error l i = Some x -> py_contains x (EList l) = true.
Proof.
  intros H. simpl. apply existsb_exists. exists x.
  split; [eapply nth_error_In; eauto | apply String.eqb_refl].
Qed.

Lemma remove_first_length (x : value) (l : list value) :
  existsb (String.eqb x) l = true ->
  S (List.length (remove_first x l)) = List.length l.
Proof.
  induction l as [|y l IH]; simpl; [discriminate|].
  destruct (String.eqb x y); simpl; [reflexivity|].
  intros H. now rewrite IH.
Qed.

Lemma remove_first_incl (x : value) (l : list value) :
  incl (remove_first x l) l.
Proof.
  induction l as [|y l IH]; simpl; [apply incl_refl|].
  destruct (String.eqb x y).
  - apply incl_tl, incl_refl.
  - intros z [<-|Hz]; [now left | right; now apply IH].
Qed.

Lemma chars_contains (s : string) (x : value) :
  In x (chars s) -> str_contains x s = true.
Proof.
  induction s as [|c s IH]; simpl; [contradiction|].
  intros [<-|Hin].
  - simpl. destruct (ascii_dec c c); [|congruence].
    destruct s; reflexivity.
  - rewrite (IH Hin). apply orb_true_r.
Qed.

(** The loop over a list: the entry [xi] is rebound to a list [l'] that
    keeps some of the values of [l] and adds none; the loop answers [True]
    only when it was already told so or a value went. *)
Lemma revise_list_spec (self : CSP) (xi xj : name) (steps : nat) :
  forall i revised l a r a',
    dict_get xi a = Some (EList l) ->
    revise_list self xi xj steps i revised l a = Ok (r, a') ->
    exists l',
      a' = dict_set xi (EList l') a /\ incl l' l /\
      (r = revised /\ l' = l \/ r = true /\ List.length l' < List.length l).
Proof.
  induction steps as [|steps IH]; intros i revised l a r a' Hget; simpl.
  - destruct (nth_error l i); [discriminate|].
    intros [= <- <-]. exists l. rewrite dict_set_get by exact Hget.
    split; [reflexivity|]. split; [apply incl_refl | now left].
  - destruct (nth_error l i) as [x|] eqn:Hnth.
    2:{ intros [= <- <-]. exists l. rewrite dict_set_get by exact Hget.
        split; [reflexivity|]. split; [apply incl_refl | now left]. }
    destruct (unsupported self a xi xj x) as [[|]|e]; simpl; [| |discriminate].
    + pose proof (nth_error_contains _ _ _ Hnth) as Hc. simpl in Hc. rewrite Hc.
      intros Hrun. apply IH in Hrun; [|apply dict_get_set_same].
      destruct Hrun as (l' & -> & Hincl & Hr).
      pose proof (remove_first_length x l Hc) as Hlen.
      exists l'. rewrite dict_set_set. split; [reflexivity|]. split.
      * eapply incl_tran; [exact Hincl | apply remove_first_incl].
      * right. destruct Hr as [[-> ->]|[-> Hlt]]; split; auto; lia.
    + intros Hrun. apply IH in Hrun; [|exact Hget]. exact Hrun.
Qed.

Lemma revise_str_spec (self : CSP) (xi xj : name) (s : value) (a : assignment) :
  forall todo revised r a',
    (forall x, In x todo -> str_contains x s = true) ->
    revise_str self xi xj todo revised s a = Ok (r, a') ->
    a' = a /\ r = revised.
Proof.
  induction todo as [|x todo IH]; intros revised r a' Hin; simpl.
  - now intros [= <- <-].
  - destruct (unsupported self a xi xj x) as [[|]|e]; simpl; [| |discriminate].
    + rewrite Hin by now left. discriminate.
    + apply IH. intros y Hy. apply Hin. now right.
Qed.

(** What one call of [revise] does to the assignment: only the entry of
    [xi] changes, it loses values and gains none, and [True] is returned
    exactly when it lost some. *)
Lemma revise_spec (self : CSP) (a : assignment) (xi xj : name)
  (r : bool) (a' : assignment) :
  revise self a xi xj = Ok (r, a') ->
  exists e e',
    dict_get xi a = Some e /\ a' = dict_set xi e' a /\
    incl (py_iter e') (py_iter e) /\
    (r = false /\ e' = e \/ r = true /\ py_len e' < py_len e).
Proof.
  unfold revise, lookup. destruct (dict_get xi a) as [[l|s]|] eqn:Hget; simpl;
    [| |discriminate].
  - intros Hrun. apply revise_list_spec in Hrun; [|exact Hget].
    destruct Hrun as (l' & -> & Hincl & Hr).
    exists (EList l), (EList l'). repeat split; auto.
    destruct Hr as [[-> ->]|[-> Hlt]]; auto.
  - intros Hrun. apply revise_str_spec in Hrun; [|apply chars_contains].
    destruct Hrun as [-> ->]. exists (EStr s), (EStr s).
    rewrite dict_set_get by exact Hget. repeat split; auto. apply incl_refl.
Qed.

(** [unsupported] raises nothing but [KeyError]. *)
Lemma count_in_raises (self : CSP) (xi xj : name) (arcs : list (value * value))
  (e : exn) :
  count_in self xi xj arcs = Raise e -> e = KeyError.
Proof.
  induction arcs as [|p arcs IH]; simpl; [discriminate|].
  unfold lookup. destruct (dict_get xi (constraints self)) as [ci|]; simpl;
    [|congruence].
  destruct (dict_get xj ci); simpl; [|congruence].
  destruct (count_in self xi xj arcs); simpl; [discriminate|].
  intros [= <-]. now apply IH.
Qed.

Lemma unsupported_raises (self : CSP) (a : assignment) (xi xj : name)
  (x : value) (e : exn) :
  unsupported self a xi xj x = Raise e -> e = KeyError.
Proof.
  unfold unsupported, lookup. destruct (dict_get xj a) as [dj|]; simpl;
    [|congruence].
  destruct (count_in self xi xj _) eqn:Hc; simpl; [discriminate|].
  intros [= <-]. eapply count_in_raises; eauto.
Qed.

(** The step budget of the loop over a list is never used up. *)
Lemma revise_list_no_bound (self : CSP) (xi xj : name) (steps : nat) :
  forall i revised l a,
    List.length l <= steps + i ->
    revise_list self xi xj steps i revised l a <> Raise LoopBound.
Proof.
  induction steps as [|steps IH]; intros i revised l a Hlen; simpl.
  - destruct (nth_error l i) eqn:Hnth; [|discriminate].
    assert (i < List.length l) by (apply nth_error_Some; congruence). lia.
  - destruct (nth_error l i) as [x|] eqn:Hnth; [|discriminate].
    destruct (unsupported self a xi xj x) as [[|]|e] eqn:Hu; simpl.
    + pose proof (nth_error_contains _ _ _ Hnth) as Hc. simpl in Hc. rewrite Hc.
      apply IH. pose proof (remove_first_length x l Hc). lia.
    + apply IH. lia.
    + apply unsupported_raises in Hu. congruence.
Qed.

Lemma revise_str_no_bound (self : CSP) (xi xj : name) (s : value) (a : assignment) :
  forall todo revised,
    revise_str self xi xj todo revised s a <> Raise LoopBound.
Proof.
  induction todo as [|x todo IH]; intros revised; simpl; [discriminate|].
  destruct (unsupported self a xi xj x) as [[|]|e] eqn:Hu; simpl.
  - destruct (str_contains x s); [discriminate | apply IH].
  - apply IH.
  - apply unsupported_raises in Hu. congruence.
Qed.

Lemma revise_no_bound (self : CSP) (a : assignment) (xi xj : name) :
  revise self a xi xj <> Raise LoopBound.
Proof.
  unfold revise, lookup. destruct (dict_get xi a) as [[l|s]|]; simpl.
  - apply revise_list_no_bound. lia.
  - apply revise_str_no_bound.
  - discriminate.
Qed.

Lemma size_of_set_same (a : assignment) (x : name) (e : entry) :
  size_of (dict_set x e a) x = py_len e.
Proof. unfold size_of. now rewrite dict_get_set_same. Qed.

Lemma size_of_set_other (a : assignment) (x y : name) (e : entry) :
  y <> x -> size_of (dict_set x e a) y = size_of a y.
Proof. intros H. unfold size_of. now rewrite dict_get_set_other. Qed.

Lemma revise_effect (self : CSP) (a : assignment) (xi xj : name)
  (r : bool) (a1 : assignment) :
  revise self a xi xj = Ok (r, a1) ->
  dict_keys a1 = dict_keys a /\
  (forall y, y <> xi -> size_of a1 y = size_of a y) /\
  size_of a1 xi <= size_of a xi /\
  (r = true -> size_of a1 xi < size_of a xi) /\
  (r = false -> a1 = a) /\
  (exists e', dict_get xi a1 = Some e').
Proof.
  intros H. apply revise_spec in H.
  destruct H as (e & e' & Hget & -> & _ & Hr).
  assert (Hsz : size_of a xi = py_len e) by (unfold size_of; now rewrite Hget).
  split.
  { rewrite dict_keys_set. unfold dict_mem. now rewrite Hget. }
  split; [intros y Hy; now apply size_of_set_other|].
  rewrite size_of_set_same, Hsz.
  split; [destruct Hr as [[_ ->]|[_ Hlt]]; lia|].
  split; [intros ->; destruct Hr as [[? _]|[_ Hlt]]; [discriminate | exact Hlt]|].
  split.
  - intros ->. destruct Hr as [[_ ->]|[? _]]; [|discriminate].
    now apply dict_set_get.
  - exists e'. apply dict_get_set_same.
Qed.

Lemma shrunk_refl (a : assignment) : shrunk a a.
Proof.
  split; [reflexivity|]. split; [auto|].
  intros x e' H. exists e'. split; [exact H | apply incl_refl].
Qed.

Lemma shrunk_trans (a b c : assignment) :
  shrunk a b -> shrunk b c -> shrunk a c.
Proof.
  intros (Hk1 & Hs1 & Hv1) (Hk2 & Hs2 & Hv2).
  split; [congruence|]. split.
  - intros x. specialize (Hs1 x). specialize (Hs2 x). lia.
  - intros x e'' H. destruct (Hv2 x e'' H) as (e' & He' & Hi2).
    destruct (Hv1 x e' He') as (e & He & Hi1).
    exists e. split; [exact He | eapply incl_tran; eauto].
Qed.

Lemma revise_shrunk (self : CSP) (a : assignment) (xi xj : name)
  (r : bool) (a1 : assignment) :
  revise self a xi xj = Ok (r, a1) -> shrunk a a1.
Proof.
  intros Hrev.
  destruct (revise_effect _ _ _ _ _ _ Hrev) as (Hkeys & Hother & Hle & _).
  apply revise_spec in Hrev.
  destruct Hrev as (e & e' & Hget & -> & Hincl & _).
  split; [exact Hkeys|]. split.
  - intros x. destruct (String.eqb x xi) eqn:E.
    + apply String.eqb_eq in E. now subst x.
    + apply String.eqb_neq in E. rewrite (Hother x E). lia.
  - intros x ex. destruct (String.eqb x xi) eqn:E.
    + apply String.eqb_eq in E. subst x. rewrite dict_get_set_same.
      intros [= <-]. now exists e.
    + apply String.eqb_neq in E. rewrite dict_get_set_other by exact E.
      intros H. exists ex. split; [exact H | apply incl_refl].
Qed.

(** ** [inference]: termination, monotonicity, number of calls of [revise] *)

Lemma potential_drop (arcs : list arc) (a a' : assignment) (xi : name) :
  (forall y, y <> xi -> size_of a' y = size_of a y) ->
  size_of a' xi < size_of a xi ->
  list_sum (map (fun ij => size_of a' (fst ij)) arcs) + arcs_from xi arcs
  <= list_sum (map (fun ij => size_of a (fst ij)) arcs).
Proof.
  intros Hother Hlt. unfold arcs_from.
  induction arcs as [|[i j] arcs IH]; simpl; [lia|].
  destruct (String.eqb i xi) eqn:E; simpl.
  - apply String.eqb_eq in E. subst i. lia.
  - apply String.eqb_neq in E. rewrite (Hother i E). lia.
Qed.

Lemma arcs_from_constraints (xi : name)
  (c : dict (dict (list (value * value)))) (ci : dict (list (value * value))) :
  dict_get xi c = Some ci ->
  List.length ci <=
  arcs_from xi (flat_map (fun ic => map (fun jc => (fst ic, fst jc)) (snd ic)) c).
Proof.
  unfold arcs_from. induction c as [|[k ck] c IH]; simpl; [discriminate|].
  rewrite filter_app, length_app.
  destruct (String.eqb xi k) eqn:E.
  - apply String.eqb_eq in E. subst k. intros [= ->].
    assert (Hall : forall l : dict (list (value * value)),
               List.length (filter (fun ij : arc => String.eqb (fst ij) xi)
                                   (map (fun jc => (xi, fst jc)) l))
               = List.length l).
    { induction l as [|p l IHl]; simpl; [reflexivity|].
      rewrite String.eqb_refl. simpl. now rewrite IHl. }
    rewrite Hall. apply Nat.le_add_r.
  - intros H. etransitivity; [exact (IH H) | apply Nat.le_add_l].
Qed.

Lemma requeued_length (self : CSP) (xi xj : name) (more : list arc) :
  requeued self xi xj = Ok more ->
  List.length more <= arcs_from xi (get_all_arcs self).
Proof.
  unfold requeued, get_all_neighboring_arcs, lookup.
  destruct (dict_get xi (constraints self)) as [ci|] eqn:Hci; simpl; [|discriminate].
  intros [= <-]. rewrite length_map.
  etransitivity; [apply filter_length_le|].
  rewrite length_map. unfold dict_keys. rewrite length_map.
  now apply arcs_from_constraints.
Qed.

Lemma requeued_raises (self : CSP) (xi xj : name) (e : exn) :
  requeued self xi xj = Raise e -> e = KeyError.
Proof.
  unfold requeued, get_all_neighboring_arcs, lookup.
  destruct (dict_get xi (constraints self)); simpl; congruence.
Qed.

(** Every turn of the loop that goes on lowers [length queue + potential]:
    the arc it pops is gone, and when [revise] removed a value of [xi], each
    of the arcs re-entered is paid for by an arc that starts from [xi], whose
    tail domain is now smaller. *)
Lemma inference_loop_spec (self : CSP) (steps : nat) :
  forall (a : assignment) (queue : list arc),
    List.length queue + potential self a <= steps ->
    fst (inference_loop self steps a queue) <> Raise LoopBound /\
    snd (inference_loop self steps a queue)
      <= List.length queue + potential self a /\
    (forall b a', fst (inference_loop self steps a queue) = Ok (b, a') ->
                  shrunk a a').
Proof.
  induction steps as [|steps IH]; intros a queue Hsteps.
  - destruct queue as [|[xi xj] queue]; simpl in *; [|lia].
    split; [discriminate|]. split; [lia|].
    intros b a' [= <- <-]. apply shrunk_refl.
  - destruct queue as [|[xi xj] queue]; simpl in *.
    { split; [discriminate|]. split; [lia|].
      intros b a' [= <- <-]. apply shrunk_refl. }
    destruct (revise self a xi xj) as [[[|] a1]|e] eqn:Hrev; simpl.
    + (* revised *)
      pose proof (revise_shrunk _ _ _ _ _ _ Hrev) as Hshr.
      destruct (revise_effect _ _ _ _ _ _ Hrev)
        as (_ & Hother & _ & Hlt & _ & e' & He').
      specialize (Hlt eq_refl).
      unfold lookup. rewrite He'.
      destruct (negb (py_truthy e')); simpl.
      { split; [discriminate|]. split; [lia|]. now intros b a' [= <- <-]. }
      destruct (requeued self xi xj) as [more|e] eqn:Hmore; simpl.
      * pose proof (requeued_length _ _ _ _ Hmore) as Hlen.
        pose proof (potential_drop (get_all_arcs self) a a1 xi Hother Hlt) as Hdrop.
        fold (potential self a1) in Hdrop. fold (potential self a) in Hdrop.
        destruct (IH a1 (queue ++ more)) as (Hnb & Hcnt & Hres).
        { rewrite length_app. lia. }
        rewrite length_app in Hcnt.
        split; [exact Hnb|]. split; [lia|].
        intros b a' Hrun. eapply shrunk_trans; [exact Hshr | eauto].
      * apply requeued_raises in Hmore. subst e.
        split; [discriminate|]. split; [lia|]. discriminate.
    + (* nothing removed *)
      destruct (revise_effect _ _ _ _ _ _ Hrev) as (_ & _ & _ & _ & Hsame & _).
      specialize (Hsame eq_refl). subst a1.
      destruct (IH a queue) as (Hnb & Hcnt & Hres); [lia|].
      split; [exact Hnb|]. split; [lia|]. exact Hres.
    + split; [intros [= ->]; now apply (revise_no_bound self a xi xj)|].
      split; [lia|]. discriminate.
Qed.

(** A loop that was not stopped by its budget does the same on any larger
    budget. *)
Lemma inference_loop_more_steps (self : CSP) (steps : nat) :
  forall (a : assignment) (queue : list arc) (extra : nat),
    fst (inference_loop self steps a queue) <> Raise LoopBound ->
    inference_loop self (steps + extra) a queue
    = inference_loop self steps a queue.
Proof.
  induction steps as [|steps IH]; intros a queue extra Hnb.
  - destruct queue as [|[xi xj] queue]; simpl in *; [|congruence].
    now destruct extra.
  - destruct queue as [|[xi xj] queue]; simpl in *; [reflexivity|].
    destruct (revise self a xi xj) as [[[|] a1]|e]; simpl in *; [| |reflexivity].
    + destruct (lookup xi a1) as [di|e]; simpl in *; [|reflexivity].
      destruct (negb (py_truthy di)); simpl in *; [reflexivity|].
      destruct (requeued self xi xj) as [more|e]; simpl in *; [|reflexivity].
      now rewrite IH.
    + now rewrite IH.
Qed.

Lemma size_of_le_max (a : assignment) (x : name) :
  size_of a x <= max_domain_size a.
Proof.
  unfold size_of, max_domain_size.
  destruct (dict_get x a) as [e|] eqn:He; [|lia].
  apply dict_get_in in He.
  assert (Hall : Forall (fun k => k <= list_max (map py_len (dict_values a)))
                        (map py_len (dict_values a)))
    by now apply list_max_le.
  rewrite Forall_forall in Hall. apply Hall.
  apply in_map. unfold dict_values. change e with (snd (x, e)). now apply in_map.
Qed.

Lemma potential_le (self : CSP) (a : assignment) :
  potential self a <= max_domain_size a * arc_count self.
Proof.
  unfold potential, arc_count.
  induction (get_all_arcs self) as [|ij arcs IH]; simpl; [lia|].
  pose proof (size_of_le_max a (fst ij)). lia.
Qed.

Lemma inference_shrunk (self : CSP) (a : assignment) (queue : list arc)
  (b : bool) (a' : assignment) :
  inference self a queue = Ok (b, a') -> shrunk a a'.
Proof.
  unfold inference.
  now apply (inference_loop_spec self (inference_bound self a queue) a queue).
Qed.

Lemma inference_runs_shrunk (self : CSP) (queues : list (list arc)) :
  forall a a', inference_runs self a queues = Ok a' -> shrunk a a'.
Proof.
  induction queues as [|q queues IH]; intros a a'; simpl.
  - intros [= <-]. apply shrunk_refl.
  - destruct (inference self a q) as [[b a1]|e] eqn:Hrun; simpl; [|discriminate].
    intros Hruns. apply inference_shrunk in Hrun.
    eapply shrunk_trans; [exact Hrun | now apply IH].
Qed.

(** C8: [revise] only removes values; one run of [inference], and any
    sequence of runs, leaves every domain at most as large as it was and
    adds no value to it ([shrunk]); the work-list loop ends for every queue
    and every assignment (it is not stopped by the budget
    [length queue + potential], and a larger budget changes nothing); and it
    calls [revise] at most [length queue + d * e] times, [(d + 1) * e] times
    when the queue holds all arcs, for [d] the largest domain and [e] the
    number of arcs. *)
Theorem inference_terminates_and_shrinks (self : CSP) (a : assignment)
  (queue : list arc) :
  (forall xi xj r a1, revise self a xi xj = Ok (r, a1) -> shrunk a a1) /\
  (forall b a', inference self a queue = Ok (b, a') -> shrunk a a') /\
  (forall queues a', inference_runs self a queues = Ok a' -> shrunk a a') /\
  inference self a queue <> Raise LoopBound /\
  (forall extra,
     inference_loop self (inference_bound self a queue + extra) a queue
     = inference_loop self (inference_bound self a queue) a queue) /\
  revise_calls self a queue
    <= List.length queue + max_domain_size a * arc_count self /\
  revise_calls self a (get_all_arcs self)
    <= (max_domain_size a + 1) * arc_count self.
Proof.
  pose proof (inference_loop_spec self (inference_bound self a queue) a queue
                (Nat.le_refl _)) as (Hnb & Hcnt & _).
  split; [intros xi xj r a1; apply revise_shrunk|].
  split; [intros b a'; apply inference_shrunk|].
  split; [intros queues; apply inference_runs_shrunk|].
  split; [exact Hnb|].
  split; [intros extra; now apply inference_loop_more_steps|].
  split.
  { unfold revise_calls. pose proof (potential_le self a). lia. }
  pose proof (inference_loop_spec self
                (inference_bound self a (get_all_arcs self)) a (get_all_arcs self)
                (Nat.le_refl _)) as (_ & Hall & _).
  unfold revise_calls. pose proof (potential_le self a).
  fold (arc_count self) in Hall. lia.
Qed.

(** ** A run of [inference] on a consistent assignment *)

Lemma pair_in_true (p : value * value) (pairs : list (value * value)) :
  In p pairs -> pair_in p pairs = true.
Proof.
  intros H. apply existsb_exists. exists p. split; [exact H|].
  unfold pair_eqb. now rewrite !String.eqb_refl.
Qed.

Lemma count_in_positive (self : CSP) (xi xj : name)
  (ci : dict (list (value * value))) (cij : list (value * value))
  (arcs : list (value * value)) (p : value * value) :
  dict_get xi (constraints self) = Some ci ->
  dict_get xj ci = Some cij ->
  In p arcs -> In p cij ->
  exists n, count_in self xi xj arcs = Ok (S n).
Proof.
  intros Hci Hcij Hin Hp.
  assert (Htotal : forall l, exists n, count_in self xi xj l = Ok n).
  { induction l as [|q l [n IH]]; simpl; [now exists 0|].
    unfold lookup. rewrite Hci. simpl. rewrite Hcij. simpl. rewrite IH. simpl.
    eexists. reflexivity. }
  induction arcs as [|q arcs IH]; [contradiction|].
  simpl. unfold lookup. rewrite Hci. simpl. rewrite Hcij. simpl.
  destruct Hin as [->|Hin].
  - destruct (Htotal arcs) as [n ->]. simpl. rewrite (pair_in_true _ _ Hp).
    now exists n.
  - destruct (IH Hin) as [n ->]. simpl.
    destruct (pair_in q cij); eexists; reflexivity.
Qed.

Lemma supports_not_unsupported (self : CSP) (a : assignment) (xi xj : name)
  (x : value) :
  supports self a xi xj x -> unsupported self a xi xj x = Ok false.
Proof.
  intros (dj & ci & cij & b & Hdj & Hci & Hcij & Hb & Hp).
  unfold unsupported, lookup. rewrite Hdj. simpl.
  destruct (count_in_positive self xi xj ci cij
              (map (fun y => (x, y)) (py_iter dj) ++ []) (x, b) Hci Hcij)
    as [n ->]; [|exact Hp|reflexivity].
  apply in_or_app. left. now apply in_map.
Qed.

Lemma revise_list_supported (self : CSP) (xi xj : name) (l : list value)
  (a : assignment) (steps : nat) :
  (forall x, In x l -> supports self a xi xj x) ->
  forall i revised,
    List.length l <= steps + i ->
    revise_list self xi xj steps i revised l a = Ok (revised, a).
Proof.
  intros Hsup. induction steps as [|steps IH]; intros i revised Hlen; simpl.
  - destruct (nth_error l i) eqn:Hnth; [|reflexivity].
    assert (i < List.length l) by (apply nth_error_Some; congruence). lia.
  - destruct (nth_error l i) as [x|] eqn:Hnth; [|reflexivity].
    rewrite supports_not_unsupported by (apply Hsup; eapply nth_error_In; eauto).
    simpl. apply IH. lia.
Qed.

Lemma revise_str_supported (self : CSP) (xi xj : name) (s : value)
  (a : assignment) :
  forall todo revised,
    (forall x, In x todo -> supports self a xi xj x) ->
    revise_str self xi xj todo revised s a = Ok (revised, a).
Proof.
  induction todo as [|x todo IH]; intros revised Hsup; simpl; [reflexivity|].
  rewrite supports_not_unsupported by (apply Hsup; now left). simpl.
  apply IH. intros y Hy. apply Hsup. now right.
Qed.

Lemma revise_consistent (self : CSP) (a : assignment) (xi xj : name) :
  arc_consistent_on self a (xi, xj) -> revise self a xi xj = Ok (false, a).
Proof.
  intros (di & Hdi & Hsup). simpl in *.
  unfold revise, lookup. rewrite Hdi. simpl. destruct di as [l|s]; simpl in *.
  - apply revise_list_supported; [exact Hsup | lia].
  - now apply revise_str_supported.
Qed.

Lemma inference_loop_consistent (self : CSP) (a : assignment) :
  forall (queue : list arc) (steps : nat),
    arc_consistent self a queue ->
    List.length queue <= steps ->
    inference_loop self steps a queue = (Ok (true, a), List.length queue).
Proof.
  induction queue as [|[xi xj] queue IH]; intros steps Hac Hsteps.
  - now destruct steps.
  - destruct steps as [|steps]; simpl in Hsteps; [lia|]. simpl.
    inversion Hac as [|? ? Harc Hrest]; subst.
    rewrite (revise_consistent _ _ _ _ Harc).
    rewrite IH by (auto; lia). reflexivity.
Qed.

(** C6 (as the code has it): on an assignment in which every value of the
    tail of every queued arc has a legal partner in the head's domain,
    [inference] returns [True], removes nothing and calls [revise] once per
    arc; so does every further run.  (A run that returned [False] stopped at
    the first emptied domain; nothing is said here about what a second run
    does after it.) *)
Theorem inference_stable_when_consistent (self : CSP) (a : assignment)
  (queue : list arc) :
  arc_consistent self a queue ->
  inference self a queue = Ok (true, a) /\
  revise_calls self a queue = List.length queue /\
  (' (_, a1) <- inference self a queue ;; inference self a1 queue)
  = Ok (true, a).
Proof.
  intros Hac.
  assert (Hrun : inference_loop self (inference_bound self a queue) a queue
                 = (Ok (true, a), List.length queue)).
  { apply inference_loop_consistent; [exact Hac | unfold inference_bound; lia]. }
  unfold inference, revise_calls. rewrite Hrun. simpl.
  rewrite Hrun. auto.
Qed.

Lemma pair_in_iff (p : value * value) (pairs : list (value * value)) :
  pair_in p pairs = true <-> In p pairs.
Proof.
  split; [|apply pair_in_true].
  intros H. apply existsb_exists in H. destruct H as (q & Hq & Heq).
  unfold pair_eqb in Heq. apply andb_true_iff in Heq. destruct Heq as [H1 H2].
  apply String.eqb_eq in H1, H2. destruct p, q; simpl in *. now subst.
Qed.

Lemma supportsb_iff (self : CSP) (a : assignment) (xi xj : name) (x : value) :
  supportsb self a xi xj x = true <-> supports self a xi xj x.
Proof.
  unfold supportsb, supports. split.
  - destruct (dict_get xj a) as [dj|]; [|discriminate].
    destruct (dict_get xi (constraints self)) as [ci|]; [|discriminate].
    destruct (dict_get xj ci) as [cij|] eqn:Hcij; [|discriminate].
    intros H. apply existsb_exists in H. destruct H as (b & Hb & Hp).
    apply pair_in_iff in Hp. exists dj, ci, cij, b. repeat split; auto.
  - intros (dj & ci & cij & b & -> & -> & -> & Hb & Hp).
    apply existsb_exists. exists b. split; [exact Hb | now apply pair_in_iff].
Qed.

Lemma arc_consistentb_iff (self : CSP) (a : assignment) (arcs : list arc) :
  arc_consistentb self a arcs = true <-> arc_consistent self a arcs.
Proof.
  unfold arc_consistentb, arc_consistent.
  rewrite forallb_forall, Forall_forall.
  split; intros H ij Hij; specialize (H ij Hij);
    unfold arc_consistent_onb, arc_consistent_on in *.
  - destruct (dict_get (fst ij) a) as [di|]; [|discriminate].
    exists di. split; [reflexivity|]. intros x Hx.
    apply supportsb_iff. rewrite forallb_forall in H. now apply H.
  - destruct H as (di & -> & Hsup). apply forallb_forall.
    intros x Hx. apply supportsb_iff. now apply Hsup.
Qed.

(** ** No solution is lost *)

Lemma count_in_lookups (self : CSP) (xi xj : name)
  (arcs : list (value * value)) (n : nat) :
  arcs <> [] -> count_in self xi xj arcs = Ok n ->
  exists ci cij,
    dict_get xi (constraints self) = Some ci /\ dict_get xj ci = Some cij.
Proof.
  destruct arcs as [|p arcs]; [congruence|]. intros _. simpl. unfold lookup.
  destruct (dict_get xi (constraints self)) as [ci|]; simpl; [|discriminate].
  destruct (dict_get xj ci) as [cij|] eqn:Hcij; simpl; [|discriminate].
  intros _. now exists ci, cij.
Qed.

(** A value that [sol] gives [xi] is never found unsupported. *)
Lemma solution_value_supported (self : CSP) (a : assignment) (xi xj : name)
  (sol : name -> value) :
  satisfies_constraints self sol -> keeps a sol ->
  unsupported self a xi xj (sol xi) <> Ok true.
Proof.
  intros Hsat Hkeeps Hu.
  assert (Hsup : supports self a xi xj (sol xi)).
  { unfold unsupported, lookup in Hu.
    destruct (dict_get xj a) as [dj|] eqn:Hdj; simpl in Hu; [|discriminate].
    pose proof (Hkeeps xj dj Hdj) as Hin.
    destruct (count_in self xi xj _) as [n|] eqn:Hc in Hu; [|discriminate].
    apply count_in_lookups in Hc.
    - destruct Hc as (ci & cij & Hci & Hcij).
      exists dj, ci, cij, (sol xj). repeat split; auto. eapply Hsat; eauto.
    - simpl. destruct (py_iter dj); [contradiction | discriminate]. }
  rewrite (supports_not_unsupported _ _ _ _ _ Hsup) in Hu. discriminate.
Qed.

Lemma remove_first_keeps (x s : value) (l : list value) :
  s <> x -> In s l -> In s (remove_first x l).
Proof.
  intros Hne. induction l as [|y l IH]; simpl; [auto|].
  intros [->|Hin].
  - destruct (String.eqb x s) eqn:E; [|now left].
    apply String.eqb_eq in E. congruence.
  - destruct (String.eqb x y); [exact Hin | right; auto].
Qed.

Lemma keeps_set (a : assignment) (sol : name -> value) (xi : name) (e : entry) :
  keeps a sol -> In (sol xi) (py_iter e) -> keeps (dict_set xi e a) sol.
Proof.
  intros Hkeeps Hin x ex. destruct (String.eqb x xi) eqn:E.
  - apply String.eqb_eq in E. subst x. rewrite dict_get_set_same.
    now intros [= <-].
  - apply String.eqb_neq in E. rewrite dict_get_set_other by exact E.
    apply Hkeeps.
Qed.

Lemma revise_list_keeps (self : CSP) (xi xj : name) (sol : name -> value)
  (steps : nat) :
  satisfies_constraints self sol ->
  forall i revised l a r a',
    keeps a sol -> In (sol xi) l ->
    revise_list self xi xj steps i revised l a = Ok (r, a') ->
    keeps a' sol.
Proof.
  intros Hsat. induction steps as [|steps IH]; intros i revised l a r a' Hk Hin; simpl.
  - destruct (nth_error l i); [discriminate|]. now intros [= <- <-].
  - destruct (nth_error l i) as [x|] eqn:Hnth; [|now intros [= <- <-]].
    destruct (unsupported self a xi xj x) as [[|]|e] eqn:Hu; simpl; [| |discriminate].
    + pose proof (nth_error_contains _ _ _ Hnth) as Hc. simpl in Hc. rewrite Hc.
      assert (Hne : sol xi <> x).
      { intros <-. now apply (solution_value_supported self a xi xj sol). }
      apply IH.
      * apply keeps_set; [exact Hk|]. now apply remove_first_keeps.
      * now apply remove_first_keeps.
    + now apply IH.
Qed.

Lemma revise_keeps (self : CSP) (a : assignment) (xi xj : name)
  (sol : name -> value) (r : bool) (a' : assignment) :
  satisfies_constraints self sol -> keeps a sol ->
  revise self a xi xj = Ok (r, a') -> keeps a' sol.
Proof.
  intros Hsat Hk. unfold revise, lookup.
  destruct (dict_get xi a) as [[l|s]|] eqn:Hget; simpl; [| |discriminate].
  - apply revise_list_keeps; auto. exact (Hk xi (EList l) Hget).
  - intros Hrun. apply revise_str_spec in Hrun; [|apply chars_contains].
    now destruct Hrun as [-> _].
Qed.

Lemma inference_loop_keeps (self : CSP) (sol : name -> value) (steps : nat) :
  satisfies_constraints self sol ->
  forall a queue b a',
    keeps a sol ->
    fst (inference_loop self steps a queue) = Ok (b, a') ->
    b = true /\ keeps a' sol.
Proof.
  intros Hsat. induction steps as [|steps IH]; intros a queue b a' Hk.
  - destruct queue as [|[xi xj] queue]; simpl; [|discriminate].
    now intros [= <- <-].
  - destruct queue as [|[xi xj] queue]; simpl; [now intros [= <- <-]|].
    destruct (revise self a xi xj) as [[[|] a1]|e] eqn:Hrev; simpl;
      [| |discriminate].
    + pose proof (revise_keeps _ _ _ _ _ _ _ Hsat Hk Hrev) as Hk1.
      unfold lookup. destruct (dict_get xi a1) as [di|] eqn:Hdi; simpl;
        [|discriminate].
      pose proof (Hk1 xi di Hdi) as Hin.
      assert (Htruthy : py_truthy di = true).
      { unfold py_truthy. destruct di as [l|s]; simpl in *.
        - destruct l; [contradiction | reflexivity].
        - destruct s; [contradiction | reflexivity]. }
      rewrite Htruthy. simpl.
      destruct (requeued self xi xj) as [more|e]; simpl; [|discriminate].
      now apply IH.
    + pose proof (revise_keeps _ _ _ _ _ _ _ Hsat Hk Hrev) as Hk1.
      now apply IH.
Qed.

(** X3: pruning loses no solution: when [sol] satisfies every constraint and
    every domain of the assignment holds the value [sol] gives its variable,
    a run of [inference] that ends without an exception returns [True], and
    every domain still holds the value of [sol]. *)
Theorem inference_keeps_solutions (self : CSP) (a : assignment)
  (queue : list arc) (sol : name -> value) (b : bool) (a' : assignment) :
  satisfies_constraints self sol ->
  keeps a sol ->
  inference self a queue = Ok (b, a') ->
  b = true /\ keeps a' sol.
Proof.
  intros Hsat Hk. unfold inference. now apply inference_loop_keeps.
Qed.

Lemma inference_keeps_solutions_witness :
  let csp := Boards.equal_pair_csp in
  let sol := fun _ : name => "3" in
  let pruned := [("A", EList ["2"; "3"]); ("B", EList ["3"])] in
  satisfies_constraints csp sol /\
  keeps (initial_assignment csp) sol /\
  inference csp (initial_assignment csp) (get_all_arcs csp) = Ok (true, pruned) /\
  true = true /\ keeps pruned sol.
Proof.
  cbv zeta.
  assert (Hsat : satisfies_constraints Boards.equal_pair_csp (fun _ => "3")).
  { intros i j ci cij. simpl.
    destruct (String.eqb i "A").
    - intros [= <-]. simpl. destruct (String.eqb j "B"); [|discriminate].
      intros [= <-]. now left.
    - destruct (String.eqb i "B"); [|discriminate].
      intros [= <-]. simpl. destruct (String.eqb j "A"); [|discriminate].
      intros [= <-]. now left. }
  assert (Hk : keeps (initial_assignment Boards.equal_pair_csp) (fun _ => "3")).
  { intros x e. simpl.
    destruct (String.eqb x "A"); [intros [= <-]; simpl; auto|].
    destruct (String.eqb x "B"); [intros [= <-]; simpl; auto|]. discriminate. }
  split; [exact Hsat|]. split; [exact Hk|]. split; [reflexivity|].
  exact (inference_keeps_solutions Boards.equal_pair_csp
           (initial_assignment Boards.equal_pair_csp)
           (get_all_arcs Boards.equal_pair_csp) (fun _ => "3") true
           [("A", EList ["2"; "3"]); ("B", EList ["3"])]
           Hsat Hk eq_refl).
Defined.

Lemma initial_assignment_get (self : CSP) (x : name) (e : entry) :
  dict_get x (initial_assignment self) = Some e ->
  exists dom, dict_get x (domains self) = Some dom /\ e = EList dom.
Proof.
  unfold initial_assignment.
  induction (domains self) as [|[k dom] d IH]; simpl; [discriminate|].
  destruct (String.eqb x k).
  - intros [= <-]. now exists dom.
  - exact IH.
Qed.

(** X4: the first AC-3 pass of [backtracking_search] on a CSP that has a
    solution: when it ends without an exception it returns [True] and no
    value of the solution has been removed. *)
Theorem preprocessing_keeps_solutions (self : CSP) (sol : name -> value)
  (b : bool) (a' : assignment) :
  is_solution self sol ->
  inference self (initial_assignment self) (get_all_arcs self) = Ok (b, a') ->
  b = true /\ keeps a' sol.
Proof.
  intros [Hdom Hsat]. unfold inference. apply inference_loop_keeps; [exact Hsat|].
  intros x e He. apply initial_assignment_get in He.
  destruct He as (dom & Hd & ->). simpl. eauto.
Qed.

Lemma preprocessing_keeps_solutions_witness :
  let csp := Boards.two_free_csp in
  let sol := fun x : name => if String.eqb x "X" then "1" else "2" in
  is_solution csp sol /\
  inference csp (initial_assignment csp) (get_all_arcs csp)
  = Ok (true, initial_assignment csp) /\
  true = true /\ keeps (initial_assignment csp) sol.
Proof.
  cbv zeta.
  assert (Hsol : is_solution Boards.two_free_csp
                   (fun x => if String.eqb x "X" then "1" else "2")).
  { split.
    - intros x dom. simpl.
      destruct (String.eqb x "X"); [intros [= <-]; simpl; auto|].
      destruct (String.eqb x "Y"); [intros [= <-]; simpl; auto|]. discriminate.
    - intros i j ci cij. simpl.
      destruct (String.eqb i "X") eqn:Ei.
      + intros [= <-]. simpl. destruct (String.eqb j "Y") eqn:Ej; [|discriminate].
        apply String.eqb_eq in Ej. subst j. intros [= <-]. simpl. auto.
      + destruct (String.eqb i "Y"); [|discriminate].
        intros [= <-]. simpl. destruct (String.eqb j "X") eqn:Ej; [|discriminate].
        intros [= <-]. simpl. auto. }
  split; [exact Hsol|]. split; [reflexivity|].
  exact (preprocessing_keeps_solutions Boards.two_free_csp _ true
           (initial_assignment Boards.two_free_csp) Hsol eq_refl).
Defined.

(** ** The order of the keys of an assignment *)

(** X2: the first assignment has the keys of [self.domains], in their order;
    [add_variable] puts a new name last and leaves a name that is declared
    again where it was: the keys stand in the order of first declaration. *)
Theorem assignment_keys_in_declaration_order (self : CSP) (nm : name)
  (domain : list value) :
  dict_keys (initial_assignment self) = dict_keys (domains self) /\
  exists self',
    add_variable self nm domain = Ok self' /\
    dict_keys (domains self') =
    (if dict_mem nm (domains self) then dict_keys (domains self)
     else dict_keys (domains self) ++ [nm]).
Proof.
  split.
  - unfold initial_assignment, dict_keys. rewrite map_map. reflexivity.
  - eexists. split; [reflexivity|]. simpl. apply dict_keys_set.
Qed.

(** ** [backtrack] on a complete assignment *)

Lemma list_sum_all_ones (l : list nat) :
  (forall n, In n l -> n = 1) -> list_sum l = List.length l.
Proof.
  induction l as [|n l IH]; simpl; intros H; [reflexivity|].
  rewrite (H n) by now left. rewrite IH; [reflexivity|].
  intros m Hm. apply H. now right.
Qed.

(** X1: when every domain of the assignment holds exactly one value,
    [backtrack] returns the assignment at once and leaves both counters as
    they were. *)
Theorem backtrack_returns_complete_assignment (self : CSP) (a : assignment)
  (depth : nat) :
  (forall e, In e (dict_values a) -> py_len e = 1) ->
  backtrack (S depth) self a = Ok (Some a, self).
Proof.
  intros Hone. simpl.
  assert (Hc : complete a = true).
  { unfold complete. apply Nat.eqb_eq. rewrite list_sum_all_ones.
    - unfold dict_values. now rewrite !length_map.
    - intros n Hn. apply in_map_iff in Hn. destruct Hn as (e & <- & He). auto. }
  now rewrite Hc.
Qed.

Lemma backtrack_returns_complete_assignment_witness :
  let a := [("X", EStr "1"); ("Y", EList ["2"])] in
  (forall e, In e (dict_values a) -> py_len e = 1) /\
  backtrack 1 new_csp a = Ok (Some a, new_csp).
Proof.
  cbv zeta.
  assert (H : forall e, In e (dict_values [("X", EStr "1"); ("Y", EList ["2"])])
                        -> py_len e = 1).
  { simpl. intros e [<-|[<-|[]]]; reflexivity. }
  split; [exact H|].
  exact (backtrack_returns_complete_assignment new_csp _ 0 H).
Defined.

(** * The solver on concrete boards *)

(** The boards are what the calls of the builder return. *)
Lemma boards_built :
  Boards.two_givens = Ok Boards.two_givens_csp /\
  Boards.givens_and_free = Ok Boards.givens_and_free_csp /\
  Boards.free_and_givens = Ok Boards.free_and_givens_csp /\
  Boards.equal_pair = Ok Boards.equal_pair_csp /\
  Boards.one_free = Ok Boards.one_free_csp /\
  Boards.two_free = Ok Boards.two_free_csp.
Proof. repeat split; reflexivity. Qed.

(** ** C1: a value without support survives a run that returns [True] *)

(** C1 at the board [equal_pair] ([A] in 1..3, [B] = 3, [A = B] installed
    both ways): [revise(A, B)] removes ['1'], which moves ['2'] under the
    index of the iterator, so ['2'] is never looked at.  [inference] over all
    arcs returns [True] and leaves ['2'] in the domain of [A], where it has
    no legal partner in the domain of [B]. *)
Theorem inference_leaves_unsupported_value :
  let csp := Boards.equal_pair_csp in
  let pruned := [("A", EList ["2"; "3"]); ("B", EList ["3"])] in
  Boards.equal_pair = Ok csp /\
  revise csp (initial_assignment csp) "A" "B" = Ok (true, pruned) /\
  inference csp (initial_assignment csp) (get_all_arcs csp) = Ok (true, pruned) /\
  In ("A", "B") (get_all_arcs csp) /\
  In "2" (py_iter (EList ["2"; "3"])) /\
  ~ supports csp pruned "A" "B" "2" /\
  ~ arc_consistent csp pruned (get_all_arcs csp).
Proof.
  cbv zeta. split; [reflexivity|]. split; [reflexivity|].
  split; [reflexivity|]. split; [now left|]. split; [now left|]. split.
  - intros H. apply supportsb_iff in H. discriminate H.
  - intros H. apply arc_consistentb_iff in H. discriminate H.
Qed.

(** ** C2: the answer of the first [inference] is dropped *)

(** C2 at the board [two_givens] (two cells of one group, both given
    ['1']): the first run of AC-3 returns [False], and the search goes on
    into [backtrack] all the same.  With no call of [backtrack] allowed the
    search cannot answer; with one call allowed it answers [None], and the
    counter of failed backtracks, which only [backtrack] raises, is 1.  On
    the board [givens_and_free] the first run fails as well and the search
    answers with an assignment. *)
Theorem backtracking_search_ignores_failed_preprocessing :
  let csp := Boards.two_givens_csp in
  let pruned := [("A", EList []); ("B", EList ["1"])] in
  Boards.two_givens = Ok csp /\
  inference csp (initial_assignment csp) (get_all_arcs csp) = Ok (false, pruned) /\
  backtracking_search 0 csp = Raise RecursionError /\
  (forall depth,
     backtracking_search (S depth) csp
     = backtrack (S depth) (set_counters csp 1 0) pruned) /\
  (forall depth,
     backtracking_search (S depth) csp = Ok (None, set_counters csp 1 1)) /\
  (exists pruned',
     inference Boards.givens_and_free_csp
               (initial_assignment Boards.givens_and_free_csp)
               (get_all_arcs Boards.givens_and_free_csp) = Ok (false, pruned') /\
     forall depth,
       backtracking_search (S depth) Boards.givens_and_free_csp
       = Ok (Some pruned', set_counters Boards.givens_and_free_csp 1 0)).
Proof.
  cbv zeta. repeat split; try reflexivity.
  eexists. split; reflexivity.
Qed.

(** ** C3: the test for a complete assignment *)

(** C3 at the assignment the first AC-3 run leaves on the board
    [givens_and_free]: [A] has no value, [B] has one, [C] has two.  The
    lengths add up to the number of variables, so [backtrack] returns this
    assignment as the solution. *)
Theorem backtrack_returns_incomplete_assignment :
  let csp := Boards.givens_and_free_csp in
  let a := [("A", EList []); ("B", EList ["1"]); ("C", EList ["1"; "2"])] in
  inference csp (initial_assignment csp) (get_all_arcs csp) = Ok (false, a) /\
  size_of a "A" = 0 /\ size_of a "C" = 2 /\
  complete a = true /\
  forall depth, backtrack (S depth) csp a = Ok (Some a, csp).
Proof.
  cbv zeta. repeat split; reflexivity.
Qed.

(** ** C4: what the copy is given for the chosen variable *)

(** C4 at the board [one_free] (one variable [X] in 1..2, no constraint):
    the first candidate is ['1'], the copy binds [X] to the string ['1']
    itself, and that copy is what the search returns: [X] is bound to
    [EStr "1"], not to the one-element list [EList ["1"]]. *)
Theorem backtrack_binds_bare_value :
  let csp := Boards.one_free_csp in
  Boards.one_free = Ok csp /\
  select_unassigned_variable (initial_assignment csp) = Ok "X" /\
  (forall depth,
     backtracking_search (S (S depth)) csp
     = Ok (Some [("X", EStr "1")], set_counters csp 2 0)) /\
  EStr "1" <> EList ["1"].
Proof.
  cbv zeta. repeat split; try reflexivity. discriminate.
Qed.

(** ** C6: a second run after a run that failed *)

(** C6 (as the spec has it) fails on the board [two_givens]: the first run
    empties the domain of [A] and returns [False] at once; a second run on
    the same assignment goes on and empties the domain of [B] too. *)
Lemma inference_twice_prunes_more :
  let csp := Boards.two_givens_csp in
  let once := [("A", EList []); ("B", EList ["1"])] in
  let twice := [("A", EList []); ("B", EList [])] in
  inference csp (initial_assignment csp) (get_all_arcs csp) = Ok (false, once) /\
  inference csp once (get_all_arcs csp) = Ok (false, twice) /\
  size_of twice "B" < size_of once "B".
Proof.
  cbv zeta. repeat split; try reflexivity. vm_compute. lia.
Qed.

Lemma inference_stable_when_consistent_witness :
  let csp := Boards.two_free_csp in
  let a := initial_assignment csp in
  let queue := get_all_arcs csp in
  arc_consistent csp a queue /\
  inference csp a queue = Ok (true, a) /\
  revise_calls csp a queue = List.length queue /\
  (' (_, a1) <- inference csp a queue ;; inference csp a1 queue) = Ok (true, a).
Proof.
  cbv zeta.
  assert (H : arc_consistent Boards.two_free_csp
                (initial_assignment Boards.two_free_csp)
                (get_all_arcs Boards.two_free_csp)).
  { apply arc_consistentb_iff. reflexivity. }
  split; [exact H|].
  exact (inference_stable_when_consistent _ _ _ H).
Defined.

(** ** C9: a board without solution that is answered with an assignment *)

(** C9 at the board [givens_and_free] ([A] and [B] in one group, both given
    ['1'], and a free cell [C]): no solution exists, and the search returns
    an assignment, not [None]; the counter of failed backtracks stays 0. *)
Theorem backtracking_search_answers_unsolvable_board :
  let csp := Boards.givens_and_free_csp in
  Boards.givens_and_free = Ok csp /\
  (forall sol, ~ is_solution csp sol) /\
  (forall depth,
     backtracking_search (S depth) csp
     = Ok (Some [("A", EList []); ("B", EList ["1"]); ("C", EList ["1"; "2"])],
           set_counters csp 1 0)) /\
  failed_backtracking_number (set_counters csp 1 0) = 0.
Proof.
  cbv zeta. split; [reflexivity|]. split; [|split; reflexivity].
  intros sol [_ Hcon].
  exact (Hcon "A" "B" [("B", [])] [] eq_refl eq_refl).
Qed.

(** ** C10: [revise] on a domain that is a string *)

(** C10 at the board [free_and_givens] ([V] in 1..2 in one group with [A]
    and [B], both given ['1']): the first AC-3 run leaves [V] with ['2']
    and [A] empty; [backtrack] binds [V] to the string ['2'] and runs
    [inference]; [revise(V, A)] finds no partner for ['2'] and calls
    ['2'.remove], which a string does not have.  On the board [equal_pair],
    which has the solution [A = B = 3] and whose first AC-3 run returns
    [True], the search ends the same way. *)
Theorem revise_reaches_remove_on_a_string :
  let csp := Boards.free_and_givens_csp in
  let pruned := [("V", EList ["2"]); ("A", EList []); ("B", EList ["1"])] in
  let tried := [("V", EStr "2"); ("A", EList []); ("B", EList ["1"])] in
  Boards.free_and_givens = Ok csp /\
  inference csp (initial_assignment csp) (get_all_arcs csp) = Ok (false, pruned) /\
  select_unassigned_variable pruned = Ok "V" /\
  dict_set "V" (EStr "2") pruned = tried /\
  In ("V", "A") (get_all_arcs csp) /\
  revise csp tried "V" "A" = Raise AttributeError /\
  (forall depth, backtracking_search (S depth) csp = Raise AttributeError) /\
  is_solution Boards.equal_pair_csp (fun _ => "3") /\
  (forall depth,
     backtracking_search (S depth) Boards.equal_pair_csp = Raise AttributeError).
Proof.
  cbv zeta. repeat split; try reflexivity.
  - now left.
  - intros x dom. simpl.
    destruct (String.eqb x "A"); [intros [= <-]; simpl; auto|].
    destruct (String.eqb x "B"); [intros [= <-]; simpl; auto|]. discriminate.
  - intros i j ci cij. simpl.
    destruct (String.eqb i "A").
    + intros [= <-]. simpl. destruct (String.eqb j "B"); [|discriminate].
      intros [= <-]. now left.
    + destruct (String.eqb i "B"); [|discriminate].
      intros [= <-]. simpl. destruct (String.eqb j "A"); [|discriminate].
      intros [= <-]. now left.
Qed.

(** * The builder *)

(** ** [add_constraint_one_way] *)

Lemma dict_mem_keys {V : Type} (k : name) (d : dict V) :
  dict_mem k d = true <-> In k (dict_keys d).
Proof.
  unfold dict_mem. split.
  - destruct (dict_get k d) eqn:E; [|discriminate].
    intros _. eapply dict_get_keys; eauto.
  - intros H. destruct (dict_get_in_keys _ _ H) as [v ->]. reflexivity.
Qed.

Lemma dict_get_none_keys {V : Type} (k : name) (d : dict V) :
  dict_get k d = None <-> ~ In k (dict_keys d).
Proof.
  split.
  - intros H Hin. destruct (dict_get_in_keys _ _ Hin) as [v Hv]. congruence.
  - intros H. destruct (dict_get k d) eqn:E; [|reflexivity].
    exfalso. apply H. eapply dict_get_keys; eauto.
Qed.

(** The method in one step: look up the row of [i], find the pairs to
    filter, and bind [(i, j)] to those that pass. *)
Lemma add_constraint_one_way_unfold (self : CSP) (i j : name)
  (f : value -> value -> bool) :
  add_constraint_one_way self i j f =
  (ci <- lookup i (constraints self) ;;
   pairs <- pairs_to_filter self i j ;;
   Ok (set_constraints self
         (dict_set i
            (dict_set j (filter (fun p => f (fst p) (snd p)) pairs) ci)
            (constraints self)))).
Proof.
  unfold add_constraint_one_way, pairs_to_filter, constraint_of, lookup, dict_mem.
  destruct (dict_get i (constraints self)) as [ci|]; simpl; [|reflexivity].
  destruct (dict_get j ci) as [cij|] eqn:Hj; simpl.
  - rewrite Hj. reflexivity.
  - destruct (dict_get i (domains self)) as [di|]; simpl; [|reflexivity].
    destruct (dict_get j (domains self)) as [dj|]; simpl; [|reflexivity].
    rewrite dict_get_set_same. simpl. now rewrite dict_set_set.
Qed.

Lemma constraint_of_set_same (self : CSP) (i j : name)
  (ci : dict (list (value * value))) (pairs : list (value * value)) :
  constraint_of
    (set_constraints self (dict_set i (dict_set j pairs ci) (constraints self)))
    i j = Some pairs.
Proof.
  unfold constraint_of. simpl. now rewrite !dict_get_set_same.
Qed.

Lemma constraint_of_set_other (self : CSP) (i j i' j' : name)
  (ci : dict (list (value * value))) (pairs : list (value * value)) :
  dict_get i (constraints self) = Some ci ->
  (i', j') <> (i, j) ->
  constraint_of
    (set_constraints self (dict_set i (dict_set j pairs ci) (constraints self)))
    i' j' = constraint_of self i' j'.
Proof.
  intros Hci Hne. unfold constraint_of. simpl.
  destruct (String.eqb i' i) eqn:Ei.
  - apply String.eqb_eq in Ei. subst i'. rewrite dict_get_set_same, Hci.
    apply dict_get_set_other. congruence.
  - apply String.eqb_neq in Ei. now rewrite dict_get_set_other.
Qed.

Lemma in_get_all_possible_pairs {A B : Type} (a : list A) (b : list B) (x : A) (y : B) :
  In (x, y) (get_all_possible_pairs a b) <-> In x a /\ In y b.
Proof.
  unfold get_all_possible_pairs. rewrite in_flat_map. split.
  - intros (x' & Hx & Hy). apply in_map_iff in Hy.
    destruct Hy as (y' & [= <- <-] & Hy). auto.
  - intros [Hx Hy]. exists x. split; [exact Hx|]. now apply in_map.
Qed.

Lemma filter_twice {A : Type} (f g : A -> bool) (l : list A) :
  filter g (filter f l) = filter (fun x => f x && g x) l.
Proof.
  induction l as [|x l IH]; simpl; [reflexivity|].
  destruct (f x) eqn:Ef; simpl.
  - destruct (g x); simpl; now rewrite IH.
  - exact IH.
Qed.

(** X5: a constraint installed for a pair [(i, j)] that has none yet holds
    exactly the pairs of values of the two declared domains that pass the
    filter, in the order of [itertools.product]; every other constraint, the
    variables, the domains and the counters stay as they were. *)
Theorem add_constraint_one_way_installs (self : CSP) (i j : name)
  (f : value -> value -> bool) (ci : dict (list (value * value)))
  (di dj : list value) :
  dict_get i (constraints self) = Some ci ->
  dict_get j ci = None ->
  dict_get i (domains self) = Some di ->
  dict_get j (domains self) = Some dj ->
  exists self',
    add_constraint_one_way self i j f = Ok self' /\
    constraint_of self' i j
    = Some (filter (fun p => f (fst p) (snd p)) (get_all_possible_pairs di dj)) /\
    (forall a b pairs, constraint_of self' i j = Some pairs ->
       (In (a, b) pairs <-> In a di /\ In b dj /\ f a b = true)) /\
    (forall i' j', (i', j') <> (i, j) ->
       constraint_of self' i' j' = constraint_of self i' j') /\
    variables self' = variables self /\
    domains self' = domains self /\
    backtracking_number self' = backtracking_number self /\
    failed_backtracking_number self' = failed_backtracking_number self.
Proof.
  intros Hci Hj Hdi Hdj.
  rewrite add_constraint_one_way_unfold.
  unfold pairs_to_filter, constraint_of at 1, lookup.
  rewrite Hci, Hj, Hdi, Hdj. cbn [bind].
  eexists. split; [reflexivity|].
  split; [apply constraint_of_set_same|].
  split.
  - intros a b pairs. rewrite constraint_of_set_same. intros [= <-].
    rewrite filter_In, in_get_all_possible_pairs. simpl. tauto.
  - split; [|now repeat split].
    intros i' j' Hne. now apply constraint_of_set_other.
Qed.

Lemma add_constraint_one_way_installs_witness :
  exists self',
    add_constraint_one_way Boards.two_declared_csp "X" "Y"
      (fun x y => negb (String.eqb x y)) = Ok self' /\
    constraint_of self' "X" "Y" = Some [("1", "2"); ("2", "1")].
Proof.
  destruct (add_constraint_one_way_installs Boards.two_declared_csp "X" "Y"
              (fun x y => negb (String.eqb x y)) [] ["1"; "2"] ["1"; "2"]
              eq_refl eq_refl eq_refl eq_refl)
    as (self' & Hrun & Hc & _).
  exists self'. split; [exact Hrun | exact Hc].
Defined.

(** X6: [add_constraint_one_way] raises nothing but [KeyError], and raises
    it exactly when [i] was never declared, or when the pair has no
    constraint yet and [i] or [j] has no domain. *)
Theorem add_constraint_one_way_key_error (self : CSP) (i j : name)
  (f : value -> value -> bool) :
  (forall e, add_constraint_one_way self i j f = Raise e -> e = KeyError) /\
  (add_constraint_one_way self i j f = Raise KeyError <->
   dict_get i (constraints self) = None \/
   (constraint_of self i j = None /\
    (dict_get i (domains self) = None \/ dict_get j (domains self) = None))).
Proof.
  rewrite add_constraint_one_way_unfold.
  unfold pairs_to_filter, constraint_of, lookup.
  destruct (dict_get i (constraints self)) as [ci|]; simpl.
  2:{ split; [congruence | tauto]. }
  destruct (dict_get j ci) as [cij|]; simpl.
  { split; [discriminate|]. split; [discriminate|].
    intros [H|[H _]]; discriminate. }
  destruct (dict_get i (domains self)) as [di|]; simpl.
  2:{ split; [congruence | tauto]. }
  destruct (dict_get j (domains self)) as [dj|]; simpl.
  - split; [discriminate|]. split; [discriminate|].
    intros [H|[_ [H|H]]]; discriminate.
  - split; [congruence | tauto].
Qed.

(** X7: installing a filter [f] and then a filter [g] for the same pair
    [(i, j)] gives the CSP that installing "[f] and [g]" at once gives (and
    fails when that fails); installing the same filter twice changes
    nothing the second time. *)
Theorem add_constraint_one_way_twice (self : CSP) (i j : name)
  (f g : value -> value -> bool) :
  (self1 <- add_constraint_one_way self i j f ;;
   add_constraint_one_way self1 i j g)
  = add_constraint_one_way self i j (fun x y => f x y && g x y).
Proof.
  rewrite (add_constraint_one_way_unfold self).
  rewrite (add_constraint_one_way_unfold self i j (fun x y => f x y && g x y)).
  unfold lookup at 1 2.
  destruct (dict_get i (constraints self)) as [ci|] eqn:Hci; cbn [bind];
    [|reflexivity].
  destruct (pairs_to_filter self i j) as [pairs|e]; cbn [bind]; [|reflexivity].
  rewrite add_constraint_one_way_unfold.
  unfold pairs_to_filter. rewrite constraint_of_set_same.
  unfold lookup. cbn [constraints set_constraints].
  rewrite dict_get_set_same. cbn [bind].
  unfold set_constraints. cbn [variables domains constraints
                                backtracking_number failed_backtracking_number].
  now rewrite !dict_set_set, filter_twice.
Qed.

(** ** The builder keeps the CSP well formed *)

Lemma dict_mem_same_keys {V W : Type} (k : name) (d : dict V) (d' : dict W) :
  dict_keys d = dict_keys d' -> dict_mem k d = dict_mem k d'.
Proof.
  intros H. pose proof (dict_mem_keys k d) as H1.
  pose proof (dict_mem_keys k d') as H2. rewrite H in H1.
  destruct (dict_mem k d), (dict_mem k d'); try reflexivity.
  - symmetry. apply H2, H1. reflexivity.
  - apply H1, H2. reflexivity.
Qed.

Lemma NoDup_keys_set {V : Type} (k : name) (v : V) (d : dict V) :
  NoDup (dict_keys d) -> NoDup (dict_keys (dict_set k v d)).
Proof.
  intros H. rewrite dict_keys_set. destruct (dict_mem k d) eqn:E; [exact H|].
  apply NoDup_app; [exact H | repeat constructor; intros [] |].
  intros x Hx [<-|[]]. apply dict_mem_keys in Hx. congruence.
Qed.

Lemma in_keys_set {V : Type} (k x : name) (v : V) (d : dict V) :
  In x (dict_keys (dict_set k v d)) <-> x = k \/ In x (dict_keys d).
Proof.
  rewrite dict_keys_set. destruct (dict_mem k d) eqn:E.
  - split; [auto|]. intros [->|H]; [now apply dict_mem_keys | exact H].
  - rewrite in_app_iff. simpl. intuition.
Qed.

Lemma well_formed_new : well_formed new_csp.
Proof.
  repeat split; simpl; try tauto; try constructor; discriminate.
Qed.

Lemma add_variable_well_formed (self : CSP) (nm : name) (domain : list value)
  (self' : CSP) :
  well_formed self -> add_variable self nm domain = Ok self' ->
  well_formed self'.
Proof.
  intros (Hkeys & Hnd & Hvars & Hrows) [= <-]. unfold well_formed. simpl.
  split.
  { rewrite !dict_keys_set, (dict_mem_same_keys nm _ _ Hkeys), Hkeys. reflexivity. }
  split; [now apply NoDup_keys_set|].
  split.
  { intros x. rewrite in_app_iff, in_keys_set, Hvars. simpl. intuition. }
  intros i ci. destruct (String.eqb i nm) eqn:E.
  - apply String.eqb_eq in E. subst i. rewrite dict_get_set_same.
    intros [= <-]. split; [constructor | intros j []].
  - apply String.eqb_neq in E. rewrite dict_get_set_other by exact E.
    intros Hci. destruct (Hrows i ci Hci) as [Hn Hd]. split; [exact Hn|].
    intros j Hj. apply in_keys_set. right. auto.
Qed.

Lemma pairs_to_filter_declared (self : CSP) (i j : name)
  (ci : dict (list (value * value))) (pairs : list (value * value)) :
  dict_get i (constraints self) = Some ci ->
  pairs_to_filter self i j = Ok pairs ->
  In j (dict_keys ci) \/ In j (dict_keys (domains self)).
Proof.
  intros Hci. unfold pairs_to_filter, constraint_of, lookup. rewrite Hci.
  destruct (dict_get j ci) eqn:Hj.
  - intros _. left. eapply dict_get_keys; eauto.
  - destruct (dict_get i (domains self)); simpl; [|discriminate].
    destruct (dict_get j (domains self)) eqn:Hdj; simpl; [|discriminate].
    intros _. right. eapply dict_get_keys; eauto.
Qed.

Lemma add_constraint_one_way_well_formed (self : CSP) (i j : name)
  (f : value -> value -> bool) (self' : CSP) :
  well_formed self -> add_constraint_one_way self i j f = Ok self' ->
  well_formed self'.
Proof.
  intros (Hkeys & Hnd & Hvars & Hrows). rewrite add_constraint_one_way_unfold.
  unfold lookup at 1.
  destruct (dict_get i (constraints self)) as [ci|] eqn:Hci; cbn [bind];
    [|discriminate].
  destruct (pairs_to_filter self i j) as [pairs|e] eqn:Hp; cbn [bind];
    [|discriminate].
  intros [= <-]. unfold well_formed. cbn [set_constraints variables domains constraints].
  assert (Hmem : dict_mem i (constraints self) = true).
  { unfold dict_mem. now rewrite Hci. }
  split; [rewrite dict_keys_set, Hmem; exact Hkeys|].
  split; [exact Hnd|]. split; [exact Hvars|].
  destruct (Hrows i ci Hci) as [Hnci Hdci].
  intros i' ci'. destruct (String.eqb i' i) eqn:E.
  - apply String.eqb_eq in E. subst i'. rewrite dict_get_set_same.
    intros [= <-]. split; [now apply NoDup_keys_set|].
    intros j' Hj'. apply in_keys_set in Hj'. destruct Hj' as [->|Hj']; [|auto].
    destruct (pairs_to_filter_declared _ _ _ _ _ Hci Hp); auto.
  - apply String.eqb_neq in E. rewrite dict_get_set_other by exact E.
    apply Hrows.
Qed.

Lemma add_constraints_over_well_formed (pairs : list (name * name)) :
  forall self self',
    well_formed self -> add_constraints_over self pairs = Ok self' ->
    well_formed self'.
Proof.
  induction pairs as [|[i j] pairs IH]; intros self self' Hwf; simpl.
  - now intros [= <-].
  - destruct (String.eqb i j); [now apply IH|].
    destruct (add_constraint_one_way self i j _) as [self1|e] eqn:H1; simpl;
      [|discriminate].
    apply IH. eapply add_constraint_one_way_well_formed; eauto.
Qed.

(** X8: a CSP made by [CSP()] is well formed, and [add_variable],
    [add_constraint_one_way] and [add_all_different_constraint] turn a well
    formed CSP into a well formed one whenever they return: [domains] and
    [constraints] keep the same keys in the same order without repeats, the
    names in [variables] are those keys, and every variable a constraint
    leads to has a domain. *)
Theorem builder_keeps_well_formed :
  well_formed new_csp /\
  (forall self nm domain self',
     well_formed self -> add_variable self nm domain = Ok self' ->
     well_formed self') /\
  (forall self i j f self',
     well_formed self -> add_constraint_one_way self i j f = Ok self' ->
     well_formed self') /\
  (forall self vars self',
     well_formed self -> add_all_different_constraint self vars = Ok self' ->
     well_formed self').
Proof.
  split; [exact well_formed_new|].
  split; [exact add_variable_well_formed|].
  split; [exact add_constraint_one_way_well_formed|].
  intros self vars self'. apply add_constraints_over_well_formed.
Qed.

(** ** [add_all_different_constraint] *)

Lemma arc_eq_dec (p q : name * name) : {p = q} + {p <> q}.
Proof. decide equality; apply string_dec. Defined.

Lemma pairs_to_filter_same (self self1 : CSP) (i j : name) :
  constraint_of self1 i j = constraint_of self i j ->
  domains self1 = domains self ->
  pairs_to_filter self1 i j = pairs_to_filter self i j.
Proof.
  intros Hc Hd. unfold pairs_to_filter. now rewrite Hc, Hd.
Qed.

Lemma pairs_to_filter_ok (self : CSP) (i j : name) :
  In i (dict_keys (domains self)) -> In j (dict_keys (domains self)) ->
  exists base, pairs_to_filter self i j = Ok base.
Proof.
  intros Hi Hj. unfold pairs_to_filter, lookup.
  destruct (constraint_of self i j); [eauto|].
  destruct (dict_get_in_keys _ _ Hi) as [di ->].
  destruct (dict_get_in_keys _ _ Hj) as [dj ->]. simpl. eauto.
Qed.

(** One call of line 87 on declared variables. *)
Lemma add_constraint_one_way_effect (self : CSP) (i j : name)
  (f : value -> value -> bool) :
  well_formed self ->
  In i (dict_keys (domains self)) -> In j (dict_keys (domains self)) ->
  exists self' base,
    add_constraint_one_way self i j f = Ok self' /\
    pairs_to_filter self i j = Ok base /\
    constraint_of self' i j = Some (filter (fun p => f (fst p) (snd p)) base) /\
    (forall i' j', (i', j') <> (i, j) ->
       constraint_of self' i' j' = constraint_of self i' j') /\
    variables self' = variables self /\
    domains self' = domains self /\
    backtracking_number self' = backtracking_number self /\
    failed_backtracking_number self' = failed_backtracking_number self.
Proof.
  intros (Hkeys & _) Hi Hj. rewrite add_constraint_one_way_unfold.
  rewrite <- Hkeys in Hi. destruct (dict_get_in_keys _ _ Hi) as [ci Hci].
  rewrite Hkeys in Hi.
  destruct (pairs_to_filter_ok self i j Hi Hj) as [base Hbase].
  unfold lookup. rewrite Hci, Hbase. cbn [bind].
  eexists. exists base. split; [reflexivity|]. split; [reflexivity|].
  split; [apply constraint_of_set_same|].
  split; [|now repeat split].
  intros i' j' Hne. now apply constraint_of_set_other.
Qed.

Lemma add_constraints_over_effect (pairs : list (name * name)) :
  forall self,
    well_formed self ->
    (forall i j, In (i, j) pairs ->
       In i (dict_keys (domains self)) /\ In j (dict_keys (domains self))) ->
    exists self',
      add_constraints_over self pairs = Ok self' /\
      (forall i j, In (i, j) pairs -> i <> j ->
         exists base, pairs_to_filter self i j = Ok base /\
                      constraint_of self' i j = Some (filter differ base)) /\
      (forall i j, ~ In (i, j) pairs \/ i = j ->
         constraint_of self' i j = constraint_of self i j) /\
      variables self' = variables self /\
      domains self' = domains self /\
      backtracking_number self' = backtracking_number self /\
      failed_backtracking_number self' = failed_backtracking_number self.
Proof.
  induction pairs as [|[i0 j0] pairs IH]; intros self Hwf Hdecl.
  - exists self. simpl. repeat split; auto. intros i j [].
  - simpl. destruct (String.eqb i0 j0) eqn:E0.
    + apply String.eqb_eq in E0. subst j0.
      destruct (IH self Hwf) as (self' & Hrun & Hin & Hout & Hframe).
      { intros i j Hij. apply Hdecl. now right. }
      exists self'. split; [exact Hrun|]. split; [|split; [|exact Hframe]].
      * intros i j [[= <- <-]|Hij] Hne; [congruence | auto].
      * intros i j [Hnot|Heq]; [|auto]. apply Hout. left. intros H. apply Hnot. now right.
    + apply String.eqb_neq in E0.
      destruct (Hdecl i0 j0 (or_introl eq_refl)) as [Hi0 Hj0].
      destruct (add_constraint_one_way_effect self i0 j0
                  (fun x y => negb (String.eqb x y)) Hwf Hi0 Hj0)
        as (self1 & base0 & Hrun1 & Hbase0 & Hc1 & Hother1 & Hv1 & Hd1 & Hb1 & Hf1).
      fold differ in Hc1.
      rewrite Hrun1. cbn [bind].
      assert (Hwf1 : well_formed self1)
        by (eapply add_constraint_one_way_well_formed; eauto).
      destruct (IH self1 Hwf1) as (self' & Hrun & Hin & Hout & Hv & Hd & Hb & Hf).
      { intros i j Hij. rewrite Hd1. apply Hdecl. now right. }
      exists self'. split; [exact Hrun|].
      split; [|split; [|repeat split; congruence]].
      * intros i j Hij Hne.
        destruct (arc_eq_dec (i, j) (i0, j0)) as [[= -> ->]|Hdiff].
        -- exists base0. split; [exact Hbase0|].
           destruct (in_dec arc_eq_dec (i0, j0) pairs) as [Hrest|Hrest].
           ++ destruct (Hin i0 j0 Hrest Hne) as (base1 & Hb1' & Hc').
              unfold pairs_to_filter in Hb1'. rewrite Hc1 in Hb1'.
              injection Hb1' as <-. rewrite Hc'. f_equal.
              rewrite filter_twice. apply filter_ext. intros p.
              now destruct (differ p).
           ++ rewrite Hout by now left. exact Hc1.
        -- destruct Hij as [Heq|Hrest]; [congruence|].
           destruct (Hin i j Hrest Hne) as (base1 & Hb1' & Hc').
           exists base1. split; [|exact Hc'].
           rewrite <- Hb1'. symmetry. apply pairs_to_filter_same; auto.
      * intros i j Hcase.
        assert (Hdiff : (i, j) <> (i0, j0)).
        { intros [= -> ->]. destruct Hcase as [Hnot|Heq]; [|congruence].
          apply Hnot. now left. }
        rewrite Hout, Hother1; auto.
        destruct Hcase as [Hnot|Heq]; [|auto]. left. intros H. apply Hnot. now right.
Qed.

Lemma differ_spec (a b : value) : differ (a, b) = true <-> a <> b.
Proof.
  unfold differ. simpl. rewrite negb_true_iff. apply String.eqb_neq.
Qed.

(** X9: on a well formed CSP and declared variables,
    [add_all_different_constraint] returns; for every two different
    variables of the list it leaves a constraint whose pairs all have two
    different values: the pairs of the two domains with different values
    when the pair of variables had no constraint, the pairs of the earlier
    constraint with different values when it had one.  Every other
    constraint, the variables, the domains and the counters stay as they
    were. *)
Theorem add_all_different_constraint_installs (self : CSP) (vars : list name) :
  well_formed self ->
  (forall x, In x vars -> In x (dict_keys (domains self))) ->
  exists self',
    add_all_different_constraint self vars = Ok self' /\
    (forall i j, In i vars -> In j vars -> i <> j ->
       exists pairs,
         constraint_of self' i j = Some pairs /\
         (forall a b, In (a, b) pairs -> a <> b) /\
         (forall di dj,
            constraint_of self i j = None ->
            dict_get i (domains self) = Some di ->
            dict_get j (domains self) = Some dj ->
            forall a b, In (a, b) pairs <-> In a di /\ In b dj /\ a <> b) /\
         (forall old,
            constraint_of self i j = Some old ->
            forall a b, In (a, b) pairs <-> In (a, b) old /\ a <> b)) /\
    (forall i j, ~ (In i vars /\ In j vars /\ i <> j) ->
       constraint_of self' i j = constraint_of self i j) /\
    variables self' = variables self /\
    domains self' = domains self /\
    backtracking_number self' = backtracking_number self /\
    failed_backtracking_number self' = failed_backtracking_number self.
Proof.
  intros Hwf Hdecl. unfold add_all_different_constraint.
  destruct (add_constraints_over_effect (get_all_possible_pairs vars vars) self Hwf)
    as (self' & Hrun & Hin & Hout & Hframe).
  { intros i j Hij. apply in_get_all_possible_pairs in Hij.
    destruct Hij. split; auto. }
  exists self'. split; [exact Hrun|]. split; [|split; [|exact Hframe]].
  - intros i j Hi Hj Hne.
    destruct (Hin i j) as (base & Hbase & Hc); auto.
    { apply in_get_all_possible_pairs. auto. }
    exists (filter differ base). split; [exact Hc|]. split.
    { intros a b Hab. apply filter_In in Hab. now apply differ_spec. }
    split.
    + intros di dj Hnone Hdi Hdj a b.
      unfold pairs_to_filter, lookup in Hbase.
      rewrite Hnone, Hdi, Hdj in Hbase. simpl in Hbase. injection Hbase as <-.
      rewrite filter_In, in_get_all_possible_pairs, differ_spec. tauto.
    + intros old Hold a b. unfold pairs_to_filter in Hbase.
      rewrite Hold in Hbase. injection Hbase as <-.
      rewrite filter_In, differ_spec. tauto.
  - intros i j Hnot. apply Hout.
    destruct (string_dec i j) as [->|Hne]; [now right|]. left.
    intros Hij. apply in_get_all_possible_pairs in Hij. tauto.
Qed.

Lemma add_all_different_constraint_installs_witness :
  exists self',
    add_all_different_constraint Boards.two_declared_csp ["X"; "Y"] = Ok self' /\
    domains self' = domains Boards.two_declared_csp.
Proof.
  assert (Hwf : well_formed Boards.two_declared_csp).
  { unfold well_formed. simpl. split; [reflexivity|].
    split; [repeat constructor; simpl; intuition discriminate|].
    split; [tauto|].
    intros i ci. destruct (String.eqb i "X"); [intros [= <-]; split; [constructor | intros j []]|].
    destruct (String.eqb i "Y"); [intros [= <-]; split; [constructor | intros j []]|].
    discriminate. }
  destruct (add_all_different_constraint_installs Boards.two_declared_csp
              ["X"; "Y"] Hwf) as (self' & Hrun & _ & _ & _ & Hd & _).
  { simpl. tauto. }
  exists self'. split; [exact Hrun | exact Hd].
Defined.

(** ** Constraints that go both ways *)

Lemma add_variable_two_way (self : CSP) (nm : name) (domain : list value)
  (self' : CSP) :
  well_formed self -> two_way self ->
  ~ In nm (dict_keys (domains self)) ->
  add_variable self nm domain = Ok self' -> two_way self'.
Proof.
  intros (Hkeys & _) Htwo Hnew [= <-].
  assert (Hrow : dict_get nm (constraints self) = None).
  { apply dict_get_none_keys. now rewrite Hkeys. }
  assert (Hsame : forall i j, i <> nm ->
            constraint_of (mkCSP (variables self ++ [nm])
                             (dict_set nm domain (domains self))
                             (dict_set nm [] (constraints self))
                             (backtracking_number self)
                             (failed_backtracking_number self)) i j
            = constraint_of self i j).
  { intros i j Hi. unfold constraint_of. simpl. now rewrite dict_get_set_other. }
  intros i j Hij.
  assert (Hi : i <> nm).
  { intros ->. apply Hij. unfold constraint_of. simpl.
    now rewrite dict_get_set_same. }
  rewrite Hsame in Hij by exact Hi.
  assert (Hj : j <> nm).
  { intros ->. apply (Htwo i nm Hij). unfold constraint_of. now rewrite Hrow. }
  rewrite Hsame by exact Hj. now apply Htwo.
Qed.

Lemma add_all_different_constraint_two_way (self : CSP) (vars : list name)
  (self' : CSP) :
  well_formed self -> two_way self ->
  (forall x, In x vars -> In x (dict_keys (domains self))) ->
  add_all_different_constraint self vars = Ok self' -> two_way self'.
Proof.
  intros Hwf Htwo Hdecl Hrun. unfold add_all_different_constraint in Hrun.
  destruct (add_constraints_over_effect (get_all_possible_pairs vars vars) self Hwf)
    as (self2 & Hrun2 & Hin & Hout & _).
  { intros i j Hij. apply in_get_all_possible_pairs in Hij.
    destruct Hij. split; auto. }
  rewrite Hrun in Hrun2. injection Hrun2 as <-.
  assert (Hdec : forall i j, {In (i, j) (get_all_possible_pairs vars vars) /\ i <> j}
                             + {~ In (i, j) (get_all_possible_pairs vars vars) \/ i = j}).
  { intros i j. destruct (string_dec i j); [right; now right|].
    destruct (in_dec arc_eq_dec (i, j) (get_all_possible_pairs vars vars));
      [left; tauto | right; now left]. }
  intros i j Hij. destruct (Hdec i j) as [[Hp Hne]|Hnot].
  - destruct (Hin j i) as (base & _ & ->); [|auto|discriminate].
    apply in_get_all_possible_pairs in Hp. apply in_get_all_possible_pairs. tauto.
  - rewrite Hout in Hij by exact Hnot. rewrite Hout; [now apply Htwo|].
    destruct Hnot as [Hnot | ->]; [left | now right].
    intros Hp. apply Hnot. apply in_get_all_possible_pairs in Hp.
    apply in_get_all_possible_pairs. tauto.
Qed.

(** X10: the constraints of a CSP go both ways as long as the builder only
    declares names that are new and constrains with
    [add_all_different_constraint]: [CSP()] has no constraint, declaring a
    new name adds none, and an all-different group gets both directions
    for each of its pairs. *)
Theorem builder_keeps_two_way :
  two_way new_csp /\
  (forall self nm domain self',
     well_formed self -> two_way self ->
     ~ In nm (dict_keys (domains self)) ->
     add_variable self nm domain = Ok self' -> two_way self') /\
  (forall self vars self',
     well_formed self -> two_way self ->
     (forall x, In x vars -> In x (dict_keys (domains self))) ->
     add_all_different_constraint self vars = Ok self' -> two_way self').
Proof.
  split; [intros i j H; now apply H|].
  split; [exact add_variable_two_way | exact add_all_different_constraint_two_way].
Qed.

(** The boards [one_free], [two_declared] and [two_free] as the builder
    makes them, one call after the other. *)
Lemma small_boards_good :
  (well_formed Boards.one_free_csp /\ two_way Boards.one_free_csp) /\
  (well_formed Boards.two_declared_csp /\ two_way Boards.two_declared_csp) /\
  (well_formed Boards.two_free_csp /\ two_way Boards.two_free_csp).
Proof.
  assert (H0 : two_way new_csp) by (intros i j H; now apply H).
  assert (H1 : well_formed Boards.one_free_csp /\ two_way Boards.one_free_csp).
  { split.
    - eapply add_variable_well_formed; [apply well_formed_new | reflexivity].
    - eapply (add_variable_two_way new_csp "X");
        [apply well_formed_new | exact H0 | intros [] | reflexivity]. }
  assert (H2 : well_formed Boards.two_declared_csp /\ two_way Boards.two_declared_csp).
  { destruct H1 as [Hwf Htwo]. split.
    - eapply (add_variable_well_formed Boards.one_free_csp "Y");
        [exact Hwf | reflexivity].
    - eapply (add_variable_two_way Boards.one_free_csp "Y");
        [exact Hwf | exact Htwo | simpl; intuition discriminate | reflexivity]. }
  split; [exact H1|]. split; [exact H2|].
  destruct H2 as [Hwf Htwo]. split.
  - eapply (add_constraints_over_well_formed
              (get_all_possible_pairs ["X"; "Y"] ["X"; "Y"])
              Boards.two_declared_csp);
      [exact Hwf | reflexivity].
  - eapply (add_all_different_constraint_two_way Boards.two_declared_csp ["X"; "Y"]);
      [exact Hwf | exact Htwo | simpl; tauto | reflexivity].
Qed.

(** ** The arcs of the graph *)

Lemma dict_get_of_in {V : Type} (k : name) (v : V) (d : dict V) :
  NoDup (dict_keys d) -> In (k, v) d -> dict_get k d = Some v.
Proof.
  induction d as [|[k' v'] d IH]; simpl; [contradiction|].
  intros Hnd [[= -> ->]|Hin].
  - now rewrite String.eqb_refl.
  - inversion Hnd as [|? ? Hnot Hnd']; subst.
    destruct (String.eqb k k') eqn:E.
    + apply String.eqb_eq in E. subst k'. exfalso. apply Hnot.
      change k with (fst (k, v)). now apply in_map.
    + auto.
Qed.

Lemma in_get_all_arcs (self : CSP) (i j : name) :
  In (i, j) (get_all_arcs self) <->
  exists ci, In (i, ci) (constraints self) /\ In j (dict_keys ci).
Proof.
  unfold get_all_arcs. rewrite in_flat_map. split.
  - intros ([i' ci] & Hin & Hj). simpl in Hj. apply in_map_iff in Hj.
    destruct Hj as ([j' cij] & [= <- <-] & Hj).
    exists ci. split; [exact Hin|]. change j' with (fst (j', cij)). now apply in_map.
  - intros (ci & Hin & Hj). exists (i, ci). split; [exact Hin|]. simpl.
    unfold dict_keys in Hj. apply in_map_iff in Hj.
    destruct Hj as ([j' cij] & <- & Hj). apply in_map_iff. now exists (j', cij).
Qed.

Lemma constraint_of_some (self : CSP) (i j : name) :
  constraint_of self i j <> None <->
  exists ci, dict_get i (constraints self) = Some ci /\ In j (dict_keys ci).
Proof.
  unfold constraint_of. split.
  - destruct (dict_get i (constraints self)) as [ci|]; [|congruence].
    intros H. exists ci. split; [reflexivity|].
    destruct (dict_get j ci) eqn:E; [|congruence]. eapply dict_get_keys; eauto.
  - intros (ci & -> & Hj). destruct (dict_get_in_keys _ _ Hj) as [v ->]. discriminate.
Qed.

Lemma in_get_all_arcs_constrained (self : CSP) :
  well_formed self ->
  forall i j, In (i, j) (get_all_arcs self) <-> constraint_of self i j <> None.
Proof.
  intros (Hkeys & Hnd & _ & Hrows) i j.
  rewrite in_get_all_arcs, constraint_of_some. split.
  - intros (ci & Hin & Hj). exists ci. split; [|exact Hj].
    apply dict_get_of_in; [now rewrite Hkeys | exact Hin].
  - intros (ci & Hget & Hj). exists ci. split; [|exact Hj].
    now apply dict_get_in.
Qed.

(** X11: on a well formed CSP [get_all_arcs] lists exactly the ordered
    pairs of variables that have a constraint, as many as the rows of
    [constraints] have entries; [get_all_neighboring_arcs] raises [KeyError]
    exactly for a name that was never declared, and when the constraints go
    both ways every arc it returns is an arc of the graph that ends in
    [var]. *)
Theorem arcs_of_the_graph (self : CSP) :
  well_formed self ->
  (forall i j, In (i, j) (get_all_arcs self) <-> constraint_of self i j <> None) /\
  List.length (get_all_arcs self)
  = list_sum (map (fun ic => List.length (snd ic)) (constraints self)) /\
  (forall var, get_all_neighboring_arcs self var = Raise KeyError <->
               ~ In var (dict_keys (domains self))) /\
  (forall var arcs, two_way self ->
     get_all_neighboring_arcs self var = Ok arcs ->
     forall i j, In (i, j) arcs -> j = var /\ In (i, var) (get_all_arcs self)).
Proof.
  intros Hwf. pose proof Hwf as (Hkeys & Hnd & _ & Hrows).
  assert (Hmem : forall i j, In (i, j) (get_all_arcs self) <->
                             constraint_of self i j <> None)
    by now apply in_get_all_arcs_constrained.
  split; [exact Hmem|]. split.
  { unfold get_all_arcs. clear. induction (constraints self) as [|[k ck] c IH];
      [reflexivity|].
    cbn [flat_map map snd]. rewrite length_app, length_map.
    unfold list_sum in *. cbn [fold_right]. apply f_equal. exact IH. }
  split.
  - intros var. unfold get_all_neighboring_arcs, lookup. rewrite <- Hkeys.
    rewrite <- dict_get_none_keys.
    destruct (dict_get var (constraints self)); simpl; split; intros H;
      try discriminate H; reflexivity.
  - intros var arcs Htwo. unfold get_all_neighboring_arcs, lookup.
    destruct (dict_get var (constraints self)) as [ci|] eqn:Hci; simpl;
      [|discriminate].
    intros [= <-] i j Hin. apply in_map_iff in Hin.
    destruct Hin as (k & [= <- <-] & Hk). split; [reflexivity|].
    apply Hmem, Htwo, constraint_of_some. eauto.
Qed.

Lemma arcs_of_the_graph_witness :
  well_formed Boards.two_free_csp /\
  In ("X", "Y") (get_all_arcs Boards.two_free_csp) /\
  List.length (get_all_arcs Boards.two_free_csp) = 2.
Proof.
  destruct small_boards_good as (_ & _ & Hwf & _).
  destruct (arcs_of_the_graph Boards.two_free_csp Hwf) as (Hmem & Hlen & _).
  split; [exact Hwf|]. split; [apply Hmem; discriminate | exact Hlen].
Defined.

(** ** [inference] raises nothing on a graph whose constraints go both ways *)

Lemma count_in_ok (self : CSP) (xi xj : name) (arcs : list (value * value)) :
  constraint_of self xi xj <> None ->
  exists n, count_in self xi xj arcs = Ok n.
Proof.
  intros Hc. apply constraint_of_some in Hc. destruct Hc as (ci & Hci & Hj).
  destruct (dict_get_in_keys _ _ Hj) as [cij Hcij].
  induction arcs as [|p arcs [n IH]]; simpl; [now exists 0|].
  unfold lookup. rewrite Hci. simpl. rewrite Hcij. simpl. rewrite IH. simpl.
  eexists. reflexivity.
Qed.

Lemma unsupported_ok (self : CSP) (a : assignment) (xi xj : name) (x : value) :
  constraint_of self xi xj <> None ->
  dict_get xj a <> None ->
  exists u, unsupported self a xi xj x = Ok u.
Proof.
  intros Hc Hj. unfold unsupported, lookup.
  destruct (dict_get xj a) as [dj|]; [|congruence]. cbn [bind].
  destruct (count_in_ok self xi xj (get_all_possible_pairs [x] (py_iter dj)) Hc)
    as [n ->]. cbn [bind]. eauto.
Qed.

Lemma revise_list_ok (self : CSP) (xi xj : name) (steps : nat) :
  constraint_of self xi xj <> None ->
  forall i revised l a,
    List.length l <= steps + i ->
    dict_get xj a <> None ->
    exists r a', revise_list self xi xj steps i revised l a = Ok (r, a').
Proof.
  intros Hc. induction steps as [|steps IH]; intros i revised l a Hlen Hj; simpl.
  - destruct (nth_error l i) eqn:Hnth; [|eauto].
    assert (i < List.length l) by (apply nth_error_Some; congruence). lia.
  - destruct (nth_error l i) as [x|] eqn:Hnth; [|eauto].
    destruct (unsupported_ok self a xi xj x Hc Hj) as [u ->]. simpl.
    destruct u.
    + pose proof (nth_error_contains _ _ _ Hnth) as Hin. simpl in Hin. rewrite Hin.
      apply IH.
      * pose proof (remove_first_length x l Hin). lia.
      * destruct (String.eqb xj xi) eqn:E.
        -- apply String.eqb_eq in E. subst xj. rewrite dict_get_set_same. discriminate.
        -- apply String.eqb_neq in E. now rewrite dict_get_set_other.
    + apply IH; [lia | exact Hj].
Qed.

Lemma constraint_declared (self : CSP) (i j : name) :
  well_formed self -> constraint_of self i j <> None ->
  In i (dict_keys (domains self)) /\ In j (dict_keys (domains self)).
Proof.
  intros (Hkeys & _ & _ & Hrows) Hc. apply constraint_of_some in Hc.
  destruct Hc as (ci & Hci & Hj). split.
  - rewrite <- Hkeys. eapply dict_get_keys; eauto.
  - destruct (Hrows i ci Hci) as [_ Hd]. auto.
Qed.

Lemma revise_ok (self : CSP) (a : assignment) (xi xj : name) :
  well_formed self -> list_valued self a ->
  constraint_of self xi xj <> None ->
  exists r a', revise self a xi xj = Ok (r, a') /\ list_valued self a'.
Proof.
  intros Hwf Hlv Hc.
  destruct (constraint_declared self xi xj Hwf Hc) as [Hi Hj].
  destruct (Hlv xi Hi) as [l Hl]. destruct (Hlv xj Hj) as [lj Hlj].
  unfold revise, lookup. rewrite Hl. simpl.
  destruct (revise_list_ok self xi xj (List.length l) Hc 0 false l a)
    as (r & a' & Hrun); [lia | congruence |].
  exists r, a'. split; [exact Hrun|].
  apply revise_list_spec in Hrun; [|exact Hl].
  destruct Hrun as (l' & -> & _).
  intros x Hx. destruct (String.eqb x xi) eqn:E.
  - apply String.eqb_eq in E. subst x. rewrite dict_get_set_same. eauto.
  - apply String.eqb_neq in E. rewrite dict_get_set_other by exact E. auto.
Qed.

Lemma requeued_ok (self : CSP) (xi xj : name) :
  two_way self -> constraint_of self xi xj <> None ->
  exists more, requeued self xi xj = Ok more /\
               forall i j, In (i, j) more -> constraint_of self i j <> None.
Proof.
  intros Htwo Hc. pose proof Hc as Hc'. apply constraint_of_some in Hc'.
  destruct Hc' as (ci & Hci & _).
  unfold requeued, get_all_neighboring_arcs, lookup. rewrite Hci. simpl.
  eexists. split; [reflexivity|].
  intros i j Hin. apply in_map_iff in Hin. destruct Hin as ([k v] & [= <- <-] & Hk).
  apply filter_In in Hk. destruct Hk as [Hk _]. apply in_map_iff in Hk.
  destruct Hk as (k' & [= <- <-] & Hk'). simpl.
  apply Htwo, constraint_of_some. eauto.
Qed.

Lemma inference_loop_raises_nothing (self : CSP) (steps : nat) :
  well_formed self -> two_way self ->
  forall a queue,
    list_valued self a ->
    (forall i j, In (i, j) queue -> constraint_of self i j <> None) ->
    (forall e, fst (inference_loop self steps a queue) = Raise e -> e = LoopBound) /\
    (forall b a', fst (inference_loop self steps a queue) = Ok (b, a') ->
                  list_valued self a').
Proof.
  intros Hwf Htwo. induction steps as [|steps IH]; intros a queue Hlv Hq.
  - destruct queue as [|[xi xj] queue]; simpl.
    + split; [discriminate | now intros b a' [= <- <-]].
    + split; [now intros e [= <-] | discriminate].
  - destruct queue as [|[xi xj] queue]; simpl.
    { split; [discriminate | now intros b a' [= <- <-]]. }
    assert (Hc : constraint_of self xi xj <> None) by (apply Hq; now left).
    destruct (revise_ok self a xi xj Hwf Hlv Hc) as (r & a1 & Hrev & Hlv1).
    rewrite Hrev. destruct r; simpl.
    + destruct (constraint_declared self xi xj Hwf Hc) as [Hi _].
      destruct (Hlv1 xi Hi) as [l1 Hl1]. unfold lookup. rewrite Hl1.
      destruct (negb (py_truthy (EList l1))); simpl.
      { split; [discriminate | now intros b a' [= <- <-]]. }
      destruct (requeued_ok self xi xj Htwo Hc) as (more & -> & Hmore). simpl.
      apply IH; [exact Hlv1|].
      intros i j Hin. apply in_app_or in Hin. destruct Hin as [Hin|Hin].
      * apply Hq. now right.
      * now apply Hmore.
    + apply IH; [exact Hlv1|]. intros i j Hin. apply Hq. now right.
Qed.

Lemma initial_assignment_list_valued (self : CSP) :
  list_valued self (initial_assignment self).
Proof.
  intros x Hx. unfold initial_assignment.
  induction (domains self) as [|[k dom] d IH]; simpl in *; [contradiction|].
  destruct (String.eqb x k) eqn:E; [eauto|].
  apply String.eqb_neq in E. destruct Hx as [->|Hx]; [congruence | auto].
Qed.

Lemma inference_ok (self : CSP) (a : assignment) (queue : list arc) :
  well_formed self -> two_way self ->
  list_valued self a ->
  (forall i j, In (i, j) queue -> constraint_of self i j <> None) ->
  exists b a', inference self a queue = Ok (b, a') /\ list_valued self a'.
Proof.
  intros Hwf Htwo Hlv Hq. unfold inference.
  destruct (inference_loop_raises_nothing self (inference_bound self a queue)
              Hwf Htwo a queue Hlv Hq) as [Hraise Hok].
  destruct (inference_loop_spec self (inference_bound self a queue) a queue
              (Nat.le_refl _)) as (Hnb & _).
  destruct (fst (inference_loop self (inference_bound self a queue) a queue))
    as [[b a']|e].
  - exists b, a'. split; [reflexivity | exact (Hok b a' eq_refl)].
  - exfalso. apply Hnb. f_equal. now apply Hraise.
Qed.

Lemma first_pass_ok (self : CSP) :
  well_formed self -> two_way self ->
  exists b pruned,
    inference self (initial_assignment self) (get_all_arcs self)
    = Ok (b, pruned) /\
    forall depth, backtracking_search depth self
                  = backtrack depth (set_counters self 1 0) pruned.
Proof.
  intros Hwf Htwo.
  destruct (inference_ok self (initial_assignment self) (get_all_arcs self)
              Hwf Htwo) as (b & pruned & Hrun & _).
  - apply initial_assignment_list_valued.
  - intros i j Hin. now apply (in_get_all_arcs_constrained self Hwf).
  - exists b, pruned. split; [exact Hrun|].
    intros depth. unfold backtracking_search. cbv zeta. now rewrite Hrun.
Qed.

(** X12: on a well formed CSP whose constraints go both ways, [inference]
    on an assignment that binds every variable to a list, with a queue of
    arcs of the graph, raises no exception: it returns [True] or [False],
    and the assignment still binds every variable to a list.  So the first
    AC-3 pass of [backtracking_search] always returns, and the search
    goes on into [backtrack] with what that pass has left. *)
Theorem inference_raises_nothing (self : CSP) (a : assignment)
  (queue : list arc) :
  well_formed self -> two_way self ->
  list_valued self a ->
  (forall i j, In (i, j) queue -> constraint_of self i j <> None) ->
  (exists b a', inference self a queue = Ok (b, a') /\ list_valued self a') /\
  (exists b pruned,
     inference self (initial_assignment self) (get_all_arcs self)
     = Ok (b, pruned) /\
     forall depth, backtracking_search depth self
                   = backtrack depth (set_counters self 1 0) pruned).
Proof.
  intros Hwf Htwo Hlv Hq.
  split; [now apply inference_ok | now apply first_pass_ok].
Qed.

Lemma inference_raises_nothing_witness :
  let csp := Boards.two_free_csp in
  well_formed csp /\ two_way csp /\
  list_valued csp (initial_assignment csp) /\
  exists b a', inference csp (initial_assignment csp) (get_all_arcs csp)
               = Ok (b, a').
Proof.
  cbv zeta. destruct small_boards_good as (_ & _ & Hwf & Htwo).
  pose proof (initial_assignment_list_valued Boards.two_free_csp) as Hlv.
  destruct (inference_raises_nothing Boards.two_free_csp
              (initial_assignment Boards.two_free_csp)
              (get_all_arcs Boards.two_free_csp) Hwf Htwo Hlv)
    as [(b & a' & Hrun & _) _].
  { intros i j Hin. now apply (in_get_all_arcs_constrained _ Hwf). }
  split; [exact Hwf|]. split; [exact Htwo|]. split; [exact Hlv|].
  exists b, a'. exact Hrun.
Defined.

(** * The Sudoku board *)

(** ** Declaring the cells *)

Lemma dict_set_fresh {V : Type} (k : name) (v : V) (d : dict V) :
  ~ In k (dict_keys d) -> dict_set k v d = d ++ [(k, v)].
Proof.
  induction d as [|[k' v'] d IH]; simpl; [reflexivity|].
  intros Hnot. destruct (String.eqb k k') eqn:E.
  - apply String.eqb_eq in E. subst k'. exfalso. apply Hnot. now left.
  - rewrite IH; [reflexivity|]. intros H. apply Hnot. now right.
Qed.

Lemma board_at_never_raised (board : list string) (r c : nat) (e : exn) :
  board_at board r c <> Raised e.
Proof.
  unfold board_at. destruct (nth_error board r) as [line|]; [|discriminate].
  destruct (String.get c line); discriminate.
Qed.

Lemma shown_returned (board : list string) (r c : nat) (v : value) :
  board_at board r c = Returned v -> shown board r c = v.
Proof. unfold shown. now intros ->. Qed.

(** Declaring cells with new names appends them, in order, to the three
    fields of the CSP. *)
Lemma declare_cells_spec (board : list string) (cells : list (nat * nat)) :
  forall csp,
    (forall r c, In (r, c) cells -> exists v, board_at board r c = Returned v) ->
    NoDup (map (fun rc => cell_name (fst rc) (snd rc)) cells) ->
    (forall rc, In rc cells ->
       ~ In (cell_name (fst rc) (snd rc)) (dict_keys (domains csp))) ->
    dict_keys (constraints csp) = dict_keys (domains csp) ->
    declare_cells board cells csp
    = Returned
        (mkCSP
           (variables csp ++ map (fun rc => cell_name (fst rc) (snd rc)) cells)
           (domains csp ++
            map (fun rc => (cell_name (fst rc) (snd rc),
                            cell_domain (shown board (fst rc) (snd rc)))) cells)
           (constraints csp ++
            map (fun rc => (cell_name (fst rc) (snd rc), [])) cells)
           (backtracking_number csp) (failed_backtracking_number csp)).
Proof.
  induction cells as [|[r c] cells IH]; intros csp Hboard Hnd Hfresh Hkeys.
  - simpl. rewrite !app_nil_r. now destruct csp.
  - simpl. destruct (Hboard r c (or_introl eq_refl)) as [v Hv].
    rewrite Hv, (shown_returned _ _ _ _ Hv). unfold add_variable.
    assert (Hnew : ~ In (cell_name r c) (dict_keys (domains csp)))
      by exact (Hfresh (r, c) (or_introl eq_refl)).
    rewrite (dict_set_fresh _ _ (domains csp)) by exact Hnew.
    rewrite (dict_set_fresh _ _ (constraints csp)) by now rewrite Hkeys.
    inversion Hnd as [|? ? Hhead Hnd']; subst.
    rewrite IH; simpl.
    + now rewrite <- !app_assoc.
    + intros r' c' Hin. apply Hboard. now right.
    + exact Hnd'.
    + intros rc Hin. unfold dict_keys. rewrite map_app, in_app_iff. simpl.
      intros [H|[H|[]]].
      * apply (Hfresh rc); [now right | exact H].
      * apply Hhead. rewrite H.
        apply (in_map (fun rc => cell_name (fst rc) (snd rc))) in Hin. exact Hin.
    + unfold dict_keys in *. rewrite !map_app, Hkeys. reflexivity.
Qed.

(** The first cell the board does not have stops the declaration with
    [IndexError]. *)
Lemma declare_cells_index_error (board : list string) (cells : list (nat * nat)) :
  forall csp,
    (exists r c, In (r, c) cells /\ board_at board r c = IndexError) ->
    declare_cells board cells csp = IndexError.
Proof.
  induction cells as [|[r c] cells IH]; intros csp (r0 & c0 & Hin & Hbad).
  - contradiction.
  - simpl. destruct (board_at board r c) as [v| |e] eqn:Hv.
    + simpl. apply IH. exists r0, c0. split; [|exact Hbad].
      destruct Hin as [[= -> ->]|Hin]; [congruence | exact Hin].
    + reflexivity.
    + now apply board_at_never_raised in Hv.
Qed.

(** ** Constraining the groups *)

Lemma existsb_eqb_in (x : name) (g : list name) :
  existsb (String.eqb x) g = true <-> In x g.
Proof.
  rewrite existsb_exists. split.
  - intros (y & Hy & E). apply String.eqb_eq in E. now subst.
  - intros H. exists x. split; [exact H | apply String.eqb_refl].
Qed.

Lemma linked_cons (g : list name) (groups : list (list name)) (x y : name) :
  linked (g :: groups) x y
  = (negb (String.eqb x y) && existsb (String.eqb x) g && existsb (String.eqb y) g)
    || linked groups x y.
Proof.
  unfold linked. simpl.
  destruct (String.eqb x y), (existsb (String.eqb x) g),
    (existsb (String.eqb y) g); reflexivity.
Qed.

Lemma constrain_groups_app (g1 g2 : list (list name)) :
  forall csp,
    constrain_groups (g1 ++ g2) csp
    = (csp1 <- constrain_groups g1 csp ;; constrain_groups g2 csp1).
Proof.
  induction g1 as [|g g1 IH]; intros csp; simpl; [reflexivity|].
  destruct (add_all_different_constraint csp g); simpl; [apply IH | reflexivity].
Qed.

Lemma filter_differ_twice (l : list (value * value)) :
  filter differ (filter differ l) = filter differ l.
Proof.
  rewrite filter_twice. apply filter_ext. intros p. now destruct (differ p).
Qed.

(** After a run of all-different groups over declared names, two names
    that share a group hold the pairs of different values among the pairs
    they started from; every other pair of names is as it was. *)
Lemma constrain_groups_effect (groups : list (list name)) :
  forall csp,
    well_formed csp ->
    (forall g x, In g groups -> In x g -> In x (dict_keys (domains csp))) ->
    exists csp',
      constrain_groups groups csp = Ok csp' /\
      well_formed csp' /\
      variables csp' = variables csp /\
      domains csp' = domains csp /\
      backtracking_number csp' = backtracking_number csp /\
      failed_backtracking_number csp' = failed_backtracking_number csp /\
      forall x y,
        (linked groups x y = true ->
         exists base, pairs_to_filter csp x y = Ok base /\
                      constraint_of csp' x y = Some (filter differ base)) /\
        (linked groups x y = false ->
         constraint_of csp' x y = constraint_of csp x y).
Proof.
  induction groups as [|g groups IH]; intros csp Hwf Hdecl.
  - exists csp. simpl. split; [reflexivity|]. split; [exact Hwf|].
    do 4 (split; [reflexivity|]). intros x y. split; [|reflexivity].
    unfold linked. simpl. rewrite andb_false_r. discriminate.
  - simpl. unfold add_all_different_constraint.
    destruct (add_constraints_over_effect (get_all_possible_pairs g g) csp Hwf)
      as (csp1 & Hrun1 & Hin1 & Hout1 & Hv1 & Hd1 & Hb1 & Hf1).
    { intros i j Hij. apply in_get_all_possible_pairs in Hij.
      destruct Hij. split; apply (Hdecl g); auto; now left. }
    rewrite Hrun1. cbn [bind].
    assert (Hwf1 : well_formed csp1)
      by (eapply add_constraints_over_well_formed; eauto).
    destruct (IH csp1 Hwf1) as (csp' & Hrun & Hwf' & Hv & Hd & Hb & Hf & Heff).
    { intros g' x Hg' Hx. rewrite Hd1. apply (Hdecl g'); auto. now right. }
    exists csp'. split; [exact Hrun|]. split; [exact Hwf'|].
    split; [congruence|]. split; [congruence|]. split; [congruence|].
    split; [congruence|].
    intros x y. rewrite linked_cons. destruct (Heff x y) as [Hlink Hfree].
    destruct (negb (String.eqb x y) && existsb (String.eqb x) g
              && existsb (String.eqb y) g) eqn:Hg.
    + (* [x] and [y] are two names of [g] *)
      apply andb_true_iff in Hg. destruct Hg as [Hg Hy].
      apply andb_true_iff in Hg. destruct Hg as [Hne Hx].
      apply negb_true_iff, String.eqb_neq in Hne.
      apply existsb_eqb_in in Hx, Hy.
      destruct (Hin1 x y) as (base0 & Hbase0 & Hc1); auto.
      { apply in_get_all_possible_pairs. auto. }
      simpl. split; [|discriminate]. intros _. exists base0. split; [exact Hbase0|].
      destruct (linked groups x y).
      * destruct (Hlink eq_refl) as (base1 & Hb1' & ->).
        unfold pairs_to_filter in Hb1'. rewrite Hc1 in Hb1'. injection Hb1' as <-.
        now rewrite filter_differ_twice.
      * now rewrite Hfree.
    + (* they are not *)
      assert (Hsame : constraint_of csp1 x y = constraint_of csp x y).
      { apply Hout1. destruct (string_dec x y) as [->|Hne]; [now right|]. left.
        intros Hp. apply in_get_all_possible_pairs in Hp. destruct Hp as [Hx Hy].
        apply existsb_eqb_in in Hx, Hy. apply String.eqb_neq in Hne.
        rewrite Hne, Hx, Hy in Hg. discriminate. }
      simpl. split.
      * intros Hl. destruct (Hlink Hl) as (base1 & Hb1' & Hc').
        exists base1. split; [|exact Hc'].
        rewrite <- Hb1'. symmetry. now apply pairs_to_filter_same.
      * intros Hl. now rewrite Hfree.
Qed.

(** ** The grid, checked cell by cell *)

Lemma nodupb_sound (l : list name) : nodupb l = true -> NoDup l.
Proof.
  induction l as [|x l IH]; simpl; [constructor|].
  intros H. apply andb_true_iff in H. destruct H as [Hx Hl].
  constructor; [|auto]. intros Hin. apply existsb_eqb_in in Hin.
  rewrite Hin in Hx. discriminate.
Qed.

Lemma in_all_cells (r c : nat) : In (r, c) all_cells <-> r < 9 /\ c < 9.
Proof.
  unfold all_cells, range. rewrite in_get_all_possible_pairs, !in_seq. lia.
Qed.

Lemma cell_names_nodup : NoDup cell_names.
Proof. apply nodupb_sound. vm_compute. reflexivity. Qed.

Lemma groups_hold_cells (g : list name) (x : name) :
  In g sudoku_groups -> In x g -> In x cell_names.
Proof.
  assert (H : forallb (fun g => forallb (fun x => existsb (String.eqb x) cell_names) g)
                      sudoku_groups = true) by (vm_compute; reflexivity).
  rewrite forallb_forall in H. intros Hg Hx. specialize (H g Hg).
  rewrite forallb_forall in H. apply existsb_eqb_in. auto.
Qed.

Lemma linked_is_peers (r c r' c' : nat) :
  r < 9 -> c < 9 -> r' < 9 -> c' < 9 ->
  linked sudoku_groups (cell_name r c) (cell_name r' c') = peers r c r' c'.
Proof.
  assert (H : forallb (fun p =>
                forallb (fun q =>
                  Bool.eqb (linked sudoku_groups (cell_name (fst p) (snd p))
                                                 (cell_name (fst q) (snd q)))
                           (peers (fst p) (snd p) (fst q) (snd q)))
                  all_cells) all_cells = true) by (vm_compute; reflexivity).
  rewrite forallb_forall in H. intros Hr Hc Hr' Hc'.
  specialize (H (r, c) (proj2 (in_all_cells r c) (conj Hr Hc))).
  rewrite forallb_forall in H.
  specialize (H (r', c') (proj2 (in_all_cells r' c') (conj Hr' Hc'))).
  now apply Bool.eqb_prop in H.
Qed.

Lemma twenty_peers (x : name) :
  In x cell_names ->
  List.length (filter (linked sudoku_groups x) cell_names) = 20.
Proof.
  assert (H : forallb (fun x => Nat.eqb (List.length
                                 (filter (linked sudoku_groups x) cell_names)) 20)
                      cell_names = true) by (vm_compute; reflexivity).
  rewrite forallb_forall in H. intros Hx. now apply Nat.eqb_eq, H.
Qed.

Lemma linked_sym (groups : list (list name)) (x y : name) :
  linked groups x y = linked groups y x.
Proof.
  unfold linked. rewrite (String.eqb_sym x y). f_equal.
  induction groups as [|g groups IH]; simpl; [reflexivity|].
  rewrite IH. f_equal. apply andb_comm.
Qed.

Lemma linked_in (groups : list (list name)) (x y : name) :
  linked groups x y = true ->
  exists g, In g groups /\ In x g /\ In y g.
Proof.
  unfold linked. intros H. apply andb_true_iff in H. destruct H as [_ H].
  apply existsb_exists in H. destruct H as (g & Hg & H).
  apply andb_true_iff in H. destruct H as [Hx Hy].
  apply existsb_eqb_in in Hx, Hy. eauto.
Qed.

(** ** [create_sudoku_csp] *)

Lemma length_get_all_arcs (self : CSP) :
  List.length (get_all_arcs self)
  = list_sum (map (fun ic => List.length (snd ic)) (constraints self)).
Proof.
  unfold get_all_arcs. induction (constraints self) as [|[k ck] c IH];
    [reflexivity|].
  cbn [flat_map map snd]. rewrite length_app, length_map.
  unfold list_sum in *. cbn [fold_right]. apply f_equal. exact IH.
Qed.

Lemma declared_board_keys (board : list string) :
  dict_keys (domains (declared_board board)) = cell_names /\
  dict_keys (constraints (declared_board board)) = cell_names.
Proof.
  unfold dict_keys, cell_names, declared_board. cbn [domains constraints].
  now rewrite !map_map.
Qed.

Lemma declared_board_rows (board : list string) (i : name)
  (ci : dict (list (value * value))) :
  dict_get i (constraints (declared_board board)) = Some ci -> ci = [].
Proof.
  intros H. apply dict_get_in in H. unfold declared_board in H.
  cbn [constraints] in H. apply in_map_iff in H.
  now destruct H as (rc & [= _ <-] & _).
Qed.

Lemma declared_board_well_formed (board : list string) :
  well_formed (declared_board board).
Proof.
  destruct (declared_board_keys board) as [Hd Hc].
  unfold well_formed. rewrite Hd, Hc.
  split; [reflexivity|]. split; [exact cell_names_nodup|].
  split; [unfold declared_board; cbn [variables]; tauto|].
  intros i ci Hci. apply declared_board_rows in Hci. subst ci.
  split; [constructor | intros j []].
Qed.

Lemma declared_board_unconstrained (board : list string) (x y : name) :
  constraint_of (declared_board board) x y = None.
Proof.
  unfold constraint_of.
  destruct (dict_get x (constraints (declared_board board))) as [ci|] eqn:Hci;
    [|reflexivity].
  apply declared_board_rows in Hci. now subst ci.
Qed.

Lemma declared_board_domain (board : list string) (r c : nat) :
  r < 9 -> c < 9 ->
  dict_get (cell_name r c) (domains (declared_board board))
  = Some (cell_domain (shown board r c)).
Proof.
  intros Hr Hc. apply dict_get_of_in.
  - destruct (declared_board_keys board) as [-> _]. exact cell_names_nodup.
  - unfold declared_board. cbn [domains]. apply in_map_iff.
    exists (r, c). split; [reflexivity|]. now apply in_all_cells.
Qed.

Lemma declare_all_cells (board : list string) :
  nine_by_nine board ->
  declare_cells board all_cells new_csp = Returned (declared_board board).
Proof.
  intros Hboard. rewrite declare_cells_spec; [reflexivity| | |auto|reflexivity].
  - intros r c Hin. apply in_all_cells in Hin. now apply Hboard.
  - exact cell_names_nodup.
Qed.

Lemma in_cell_names (x : name) :
  In x cell_names <-> exists r c, r < 9 /\ c < 9 /\ x = cell_name r c.
Proof.
  unfold cell_names. rewrite in_map_iff. split.
  - intros ([r c] & <- & Hin). apply in_all_cells in Hin. exists r, c. tauto.
  - intros (r & c & Hr & Hc & ->). exists (r, c). split; [reflexivity|].
    now apply in_all_cells.
Qed.

(** The groups of the grid on the declared board. *)
Lemma constrain_sudoku_groups (board : list string) :
  exists csp,
    constrain_groups sudoku_groups (declared_board board) = Ok csp /\
    well_formed csp /\
    variables csp = cell_names /\
    domains csp = domains (declared_board board) /\
    backtracking_number csp = 0 /\
    failed_backtracking_number csp = 0 /\
    forall x y,
      constraint_of csp x y =
      if linked sudoku_groups x y
      then match dict_get x (domains csp), dict_get y (domains csp) with
           | Some dx, Some dy =>
               Some (filter differ (get_all_possible_pairs dx dy))
           | _, _ => None
           end
      else None.
Proof.
  destruct (constrain_groups_effect sudoku_groups (declared_board board)
              (declared_board_well_formed board))
    as (csp & Hrun & Hwf & Hv & Hd & Hb & Hf & Heff).
  { intros g x Hg Hx. destruct (declared_board_keys board) as [-> _].
    eapply groups_hold_cells; eauto. }
  exists csp. repeat (split; [assumption|]). intros x y.
  destruct (Heff x y) as [Hlink Hfree].
  destruct (linked sudoku_groups x y) eqn:Hl.
  - destruct (Hlink eq_refl) as (base & Hbase & ->).
    unfold pairs_to_filter, lookup in Hbase.
    rewrite declared_board_unconstrained in Hbase. rewrite Hd.
    destruct (dict_get x (domains (declared_board board))); cbn [bind] in Hbase;
      [|discriminate].
    destruct (dict_get y (domains (declared_board board))); cbn [bind] in Hbase;
      [|discriminate].
    now injection Hbase as <-.
  - rewrite Hfree by reflexivity. apply declared_board_unconstrained.
Qed.

Lemma constrain_groups_app3 (g1 g2 g3 : list (list name)) (csp : CSP) :
  constrain_groups (g1 ++ g2 ++ g3) csp
  = (c1 <- constrain_groups g1 csp ;;
     c2 <- constrain_groups g2 c1 ;;
     constrain_groups g3 c2).
Proof.
  rewrite constrain_groups_app.
  destruct (constrain_groups g1 csp) as [c1|e]; cbn [bind]; [|reflexivity].
  apply constrain_groups_app.
Qed.

Lemma list_sum_const {A : Type} (f : A -> nat) (n : nat) (l : list A) :
  (forall x, In x l -> f x = n) -> list_sum (map f l) = n * List.length l.
Proof.
  induction l as [|x l IH]; intros H; simpl; [lia|].
  rewrite (H x) by now left. rewrite IH by (intros y Hy; apply H; now right). lia.
Qed.

(** On a CSP whose constraints are those of the grid, a cell is constrained
    with its twenty peers and with no other variable. *)
Lemma grid_rows (csp : CSP) :
  well_formed csp ->
  dict_keys (domains csp) = cell_names ->
  (forall x y, constraint_of csp x y <> None <-> linked sudoku_groups x y = true) ->
  forall x, In x cell_names ->
            exists ci, dict_get x (constraints csp) = Some ci /\ List.length ci = 20.
Proof.
  intros Hwf Hnames Hlinked x Hx.
  destruct Hwf as (Hkeys & Hnd & _ & Hrows).
  assert (Hin : In x (dict_keys (constraints csp))) by now rewrite Hkeys, Hnames.
  destruct (dict_get_in_keys _ _ Hin) as [ci Hci].
  exists ci. split; [exact Hci|].
  destruct (Hrows x ci Hci) as [Hndci _].
  rewrite <- (twenty_peers x Hx).
  transitivity (List.length (dict_keys ci)); [unfold dict_keys; now rewrite length_map|].
  apply Permutation_length, NoDup_Permutation.
  - exact Hndci.
  - apply NoDup_filter, cell_names_nodup.
  - intros y. rewrite filter_In. split.
    + intros Hy.
      assert (Hl : linked sudoku_groups x y = true).
      { apply Hlinked, constraint_of_some. eauto. }
      split; [|exact Hl].
      destruct (linked_in _ _ _ Hl) as (g & Hg & _ & Hyg).
      eapply groups_hold_cells; eauto.
    + intros [_ Hl]. apply Hlinked, constraint_of_some in Hl.
      destruct Hl as (ci' & Hci' & Hy). congruence.
Qed.

Lemma cell_names_length : List.length cell_names = 81.
Proof. vm_compute. reflexivity. Qed.

(** The CSP of a board of nine by nine, whatever the board shows. *)
Lemma sudoku_csp_spec (board : list string) :
  nine_by_nine board ->
  exists csp,
    create_sudoku_csp board = Returned csp /\
    variables csp = cell_names /\
    domains csp = domains (declared_board board) /\
    well_formed csp /\ two_way csp /\
    backtracking_number csp = 0 /\ failed_backtracking_number csp = 0 /\
    (forall x y, constraint_of csp x y <> None <-> linked sudoku_groups x y = true) /\
    (forall x y,
       constraint_of csp x y =
       if linked sudoku_groups x y
       then match dict_get x (domains csp), dict_get y (domains csp) with
            | Some dx, Some dy =>
                Some (filter differ (get_all_possible_pairs dx dy))
            | _, _ => None
            end
       else None).
Proof.
  intros Hboard.
  destruct (constrain_sudoku_groups board)
    as (csp & Hrun & Hwf & Hv & Hd & Hb & Hf & Hc).
  assert (Hnames : dict_keys (domains csp) = cell_names).
  { rewrite Hd. apply declared_board_keys. }
  assert (Hdeclared : forall x, In x cell_names -> dict_get x (domains csp) <> None).
  { intros x Hx. rewrite <- Hnames in Hx.
    destruct (dict_get_in_keys _ _ Hx) as [d ->]. discriminate. }
  assert (Hlinked : forall x y, constraint_of csp x y <> None <->
                                linked sudoku_groups x y = true).
  { intros x y. rewrite Hc. destruct (linked sudoku_groups x y) eqn:Hl.
    - destruct (linked_in _ _ _ Hl) as (g & Hg & Hx & Hy).
      pose proof (Hdeclared x (groups_hold_cells g x Hg Hx)).
      pose proof (Hdeclared y (groups_hold_cells g y Hg Hy)).
      destruct (dict_get x (domains csp)); [|congruence].
      destruct (dict_get y (domains csp)); [|congruence].
      split; [reflexivity | discriminate].
    - split; [congruence | discriminate]. }
  exists csp. split.
  { unfold create_sudoku_csp. fold all_cells. rewrite (declare_all_cells board Hboard).
    unfold sudoku_groups in Hrun. rewrite constrain_groups_app3 in Hrun.
    now rewrite Hrun. }
  split; [exact Hv|]. split; [exact Hd|]. split; [exact Hwf|].
  split.
  { intros x y Hxy. apply Hlinked. rewrite linked_sym. now apply Hlinked. }
  split; [exact Hb|]. split; [exact Hf|]. split; [exact Hlinked | exact Hc].
Qed.

(** X13: for every board of nine lines of nine characters or more,
    [create_sudoku_csp] returns a CSP with the 81 variables ['0-0'] to
    ['8-8'] in reading order and both counters at 0.  A cell that shows
    ['0'] has the domain ['1'] .. ['9'], any other cell the one character it
    shows.  Two cells are constrained exactly when they are different and
    share a row, a column or a box, and their legal pairs are the pairs of
    different values of their domains; so every cell has 20 constrained
    neighbours and the graph has 1620 arcs.  The CSP is well formed and its
    constraints go both ways. *)
Theorem create_sudoku_csp_builds (board : list string) :
  nine_by_nine board ->
  exists csp,
    create_sudoku_csp board = Returned csp /\
    variables csp = cell_names /\
    dict_keys (domains csp) = cell_names /\
    well_formed csp /\ two_way csp /\
    backtracking_number csp = 0 /\ failed_backtracking_number csp = 0 /\
    arc_count csp = 1620 /\
    forall r c, r < 9 -> c < 9 ->
      dict_get (cell_name r c) (domains csp)
      = Some (cell_domain (shown board r c)) /\
      (exists ci, dict_get (cell_name r c) (constraints csp) = Some ci /\
                  List.length ci = 20) /\
      forall r' c', r' < 9 -> c' < 9 ->
        constraint_of csp (cell_name r c) (cell_name r' c') =
        if peers r c r' c'
        then Some (filter differ
                     (get_all_possible_pairs (cell_domain (shown board r c))
                                             (cell_domain (shown board r' c'))))
        else None.
Proof.
  intros Hboard.
  destruct (sudoku_csp_spec board Hboard)
    as (csp & Hrun & Hv & Hd & Hwf & Htwo & Hb & Hf & Hlinked & Hc).
  assert (Hnames : dict_keys (domains csp) = cell_names).
  { rewrite Hd. apply declared_board_keys. }
  exists csp. repeat (split; [assumption|]).
  split.
  { unfold arc_count. rewrite length_get_all_arcs.
    rewrite (list_sum_const _ 20).
    - destruct Hwf as (Hkeys & _).
      assert (Hlen : List.length (constraints csp) = 81).
      { rewrite <- cell_names_length, <- Hnames, <- Hkeys.
        unfold dict_keys. symmetry. apply length_map. }
      transitivity (20 * 81); [apply f_equal; exact Hlen | reflexivity].
    - intros [k ck] Hin. simpl.
      assert (Hk : In k cell_names).
      { destruct Hwf as (Hkeys & _). rewrite <- Hnames, <- Hkeys.
        change k with (fst (k, ck)). now apply in_map. }
      destruct (grid_rows csp Hwf Hnames Hlinked k Hk) as (ci & Hci & Hlen).
      assert (Hget : dict_get k (constraints csp) = Some ck).
      { apply dict_get_of_in; [|exact Hin].
        destruct Hwf as (Hkeys & Hnd & _). now rewrite Hkeys. }
      congruence. }
  intros r c Hr Hc0.
  assert (Hdom : forall r0 c0, r0 < 9 -> c0 < 9 ->
            dict_get (cell_name r0 c0) (domains csp)
            = Some (cell_domain (shown board r0 c0))).
  { intros r0 c0 Hr0 Hc00. rewrite Hd. now apply declared_board_domain. }
  split; [now apply Hdom|]. split.
  { apply (grid_rows csp Hwf Hnames Hlinked). apply in_cell_names. eauto. }
  intros r' c' Hr' Hc'. rewrite Hc, linked_is_peers by assumption.
  now rewrite !Hdom by assumption.
Qed.

Lemma nine_by_nine_checked (board : list string) :
  forallb (has_cell board) all_cells = true <-> nine_by_nine board.
Proof.
  rewrite forallb_forall. unfold nine_by_nine, has_cell. split.
  - intros H r c Hr Hc. specialize (H (r, c) (proj2 (in_all_cells r c) (conj Hr Hc))).
    simpl in H. destruct (board_at board r c); [eauto | discriminate..].
  - intros H [r c] Hin. apply in_all_cells in Hin. simpl.
    destruct (H r c) as [v ->]; tauto.
Qed.

Lemma create_sudoku_csp_builds_witness :
  nine_by_nine Boards.sample_board /\
  exists csp,
    create_sudoku_csp Boards.sample_board = Returned csp /\
    arc_count csp = 1620 /\
    dict_get (cell_name 0 2) (domains csp)
    = Some (cell_domain (shown Boards.sample_board 0 2)).
Proof.
  assert (H : nine_by_nine Boards.sample_board).
  { apply nine_by_nine_checked. vm_compute. reflexivity. }
  split; [exact H|].
  destruct (create_sudoku_csp_builds Boards.sample_board H)
    as (csp & Hrun & _ & _ & _ & _ & _ & _ & Harcs & Hcells).
  exists csp. split; [exact Hrun|]. split; [exact Harcs|].
  apply (Hcells 0 2); lia.
Defined.

Lemma string_get_none (line : string) (c : nat) :
  String.get c line = None <-> String.length line <= c.
Proof.
  revert c. induction line as [|ch line IH]; intros c; simpl.
  - split; [lia | reflexivity].
  - destruct c as [|c]; [split; [discriminate | lia]|].
    rewrite IH. lia.
Qed.

Lemma board_at_index_error (board : list string) (r c : nat) :
  board_at board r c = IndexError <->
  nth_error board r = None \/
  exists line, nth_error board r = Some line /\ String.length line <= c.
Proof.
  unfold board_at. destruct (nth_error board r) as [line|].
  - destruct (String.get c line) eqn:Hget.
    + split; [discriminate|]. intros [H|(l & [= <-] & Hlen)]; [discriminate|].
      apply string_get_none in Hlen. congruence.
    + split; [|reflexivity]. intros _. right. exists line. split; [reflexivity|].
      now apply string_get_none.
  - split; [auto | reflexivity].
Qed.

Lemma forallb_false {A : Type} (f : A -> bool) (l : list A) :
  forallb f l = false -> exists x, In x l /\ f x = false.
Proof.
  induction l as [|x l IH]; simpl; [discriminate|].
  destruct (f x) eqn:E; simpl.
  - intros H. destruct (IH H) as (y & Hy & Hfy). eauto.
  - intros _. eauto.
Qed.

(** X14: [create_sudoku_csp] raises nothing but [IndexError], and raises
    it exactly when the board has fewer than nine lines or one of its first
    nine lines has fewer than nine characters. *)
Theorem create_sudoku_csp_index_error (board : list string) :
  (forall e, create_sudoku_csp board <> Raised e) /\
  (create_sudoku_csp board = IndexError <->
   exists r, r < 9 /\
     (nth_error board r = None \/
      exists line, nth_error board r = Some line /\ String.length line < 9)).
Proof.
  destruct (forallb (has_cell board) all_cells) eqn:Hcheck.
  - apply nine_by_nine_checked in Hcheck.
    destruct (sudoku_csp_spec board Hcheck) as (csp & -> & _).
    split; [discriminate|]. split; [discriminate|].
    intros (r & Hr & [Hnone|(line & Hline & Hlen)]).
    + destruct (Hcheck r 0 Hr) as [v Hv]; [lia|].
      unfold board_at in Hv. rewrite Hnone in Hv. discriminate.
    + destruct (Hcheck r (String.length line) Hr Hlen) as [v Hv].
      assert (Hbad : board_at board r (String.length line) = IndexError).
      { apply board_at_index_error. right. exists line. split; [exact Hline | lia]. }
      congruence.
  - apply forallb_false in Hcheck. destruct Hcheck as ([r c] & Hin & Hbad).
    apply in_all_cells in Hin. destruct Hin as [Hr Hc].
    assert (Herr : board_at board r c = IndexError).
    { unfold has_cell in Hbad. simpl in Hbad.
      destruct (board_at board r c) as [v| |e] eqn:Hv;
        [discriminate | reflexivity | now apply board_at_never_raised in Hv]. }
    assert (Hrun : create_sudoku_csp board = IndexError).
    { unfold create_sudoku_csp. fold all_cells.
      rewrite (declare_cells_index_error board all_cells new_csp); [reflexivity|].
      exists r, c. split; [now apply in_all_cells | exact Herr]. }
    rewrite Hrun. split; [discriminate|]. split; [|reflexivity]. intros _.
    exists r. split; [exact Hr|].
    apply board_at_index_error in Herr.
    destruct Herr as [Hnone|(line & Hline & Hlen)]; [now left|].
    right. exists line. split; [exact Hline | lia].
Qed.

(** X15: for every board of nine by nine, the first AC-3 pass of
    [backtracking_search] on the CSP [create_sudoku_csp] returns raises no
    exception, and the search goes on into [backtrack] with the counters at
    1 and 0 and the assignment that pass has left. *)
Theorem sudoku_first_pass_raises_nothing (board : list string) :
  nine_by_nine board ->
  exists csp b pruned,
    create_sudoku_csp board = Returned csp /\
    inference csp (initial_assignment csp) (get_all_arcs csp) = Ok (b, pruned) /\
    forall depth, backtracking_search depth csp
                  = backtrack depth (set_counters csp 1 0) pruned.
Proof.
  intros Hboard.
  destruct (sudoku_csp_spec board Hboard) as (csp & Hrun & _ & _ & Hwf & Htwo & _).
  destruct (first_pass_ok csp Hwf Htwo) as (b & pruned & Hinf & Hsearch).
  exists csp, b, pruned. auto.
Qed.

Lemma sudoku_first_pass_raises_nothing_witness :
  nine_by_nine Boards.sample_board /\
  exists csp b pruned,
    create_sudoku_csp Boards.sample_board = Returned csp /\
    inference csp (initial_assignment csp) (get_all_arcs csp) = Ok (b, pruned).
Proof.
  assert (H : nine_by_nine Boards.sample_board).
  { apply nine_by_nine_checked. vm_compute. reflexivity. }
  split; [exact H|].
  destruct (sudoku_first_pass_raises_nothing Boards.sample_board H)
    as (csp & b & pruned & Hrun & Hinf & _).
  exists csp, b, pruned. auto.
Defined.

(** ** [print_sudoku_solution] *)











(** * The search *)

(** ** [backtrack], one call at a time *)

Lemma backtrack_unfold (depth : nat) (self : CSP) (a : assignment) :
  backtrack (S depth) self a =
  if complete a then Ok (Some a, self)
  else
    variable <- select_unassigned_variable a ;;
    d <- lookup variable a ;;
    try_values (backtrack depth) a variable self (py_iter d).
Proof.
  simpl. destruct (complete a); [reflexivity|].
  destruct (select_unassigned_variable a) as [variable|e]; simpl; [|reflexivity].
  destruct (lookup variable a) as [d|e]; simpl; [|reflexivity].
  generalize self. induction (py_iter d) as [|v todo IH]; intros self0; simpl;
    [reflexivity|].
  destruct (inference self0 (dict_set variable (EStr v) a) (get_all_arcs self0))
    as [[[|] pruned]|e]; simpl; [| apply IH | reflexivity].
  destruct (backtrack depth (count_backtrack self0) pruned) as [[result self1]|e];
    simpl; [|reflexivity].
  destruct (result_truthy result); [reflexivity | apply IH].
Qed.

Lemma counted_refl (self : CSP) : counted self self.
Proof. unfold counted. auto. Qed.

Lemma counted_trans (s1 s2 s3 : CSP) :
  counted s1 s2 -> counted s2 s3 -> counted s1 s3.
Proof.
  unfold counted. intros (? & ? & ? & ? & ?) (? & ? & ? & ? & ?).
  repeat split; try congruence; lia.
Qed.

(** ** What the search changes and what it returns *)

Lemma try_values_counts (rec : CSP -> assignment -> res (option assignment * CSP))
  (a : assignment) (variable : name) :
  In variable (dict_keys a) ->
  (forall s p r s', rec s p = Ok (r, s') ->
     counted s s' /\
     forall a', r = Some a' -> complete a' = true /\ dict_keys a' = dict_keys p) ->
  forall todo self r self',
    try_values rec a variable self todo = Ok (r, self') ->
    counted self self' /\
    (r = None ->
     failed_backtracking_number self < failed_backtracking_number self') /\
    (forall a', r = Some a' -> complete a' = true /\ dict_keys a' = dict_keys a).
Proof.
  intros Hvar Hrec. induction todo as [|v todo IH]; intros self r self'; simpl.
  - intros [= <- <-]. split; [|split; [simpl; lia | discriminate]].
    unfold counted. simpl. repeat split; auto.
  - destruct (inference self (dict_set variable (EStr v) a) (get_all_arcs self))
      as [[[|] pruned]|e] eqn:Hinf; simpl; [| apply IH | discriminate].
    destruct (rec (count_backtrack self) pruned) as [[result self1]|e] eqn:Hr;
      simpl; [|discriminate].
    destruct (Hrec _ _ _ _ Hr) as [Hc1 Hres].
    assert (Hc0 : counted self self1).
    { eapply counted_trans; [|exact Hc1]. unfold counted. simpl.
      repeat split; auto. }
    destruct (result_truthy result) eqn:Ht.
    + intros [= <- <-]. split; [exact Hc0|]. split.
      * intros ->. discriminate.
      * intros a' ->. destruct (Hres a' eq_refl) as [Hcomp Hkeys].
        split; [exact Hcomp|]. rewrite Hkeys.
        apply inference_shrunk in Hinf. destruct Hinf as [-> _].
        rewrite dict_keys_set. now rewrite (proj2 (dict_mem_keys variable a) Hvar).
    + intros Hrun. destruct (IH _ _ _ Hrun) as (Hc & Hnone & Hsome).
      split; [eapply counted_trans; eauto|]. split; [|exact Hsome].
      intros Hr0. specialize (Hnone Hr0). destruct Hc0 as (_ & _ & _ & _ & Hf). lia.
Qed.

Lemma select_returns_key (a : assignment) (v : name) :
  select_unassigned_variable a = Ok v -> In v (dict_keys a).
Proof.
  unfold select_unassigned_variable.
  destruct (dict_keys a) as [|k ks] eqn:Hks; [discriminate|].
  destruct (badness_of a k) as [kb|]; simpl; [|discriminate].
  assert (Hgen : forall rest best kbest,
             min_from a best kbest rest = Ok v -> v = best \/ In v rest).
  { induction rest as [|y rest IH]; intros best kbest; simpl.
    - intros [= <-]. now left.
    - destruct (badness_of a y) as [ky|]; simpl; [|discriminate].
      destruct (badness_lt ky kbest); intros H; apply IH in H;
        destruct H as [->|H]; auto. }
  intros H. apply Hgen in H. destruct H as [->|H]; [now left | now right].
Qed.

Lemma backtrack_counts (depth : nat) :
  forall self a r self',
    backtrack depth self a = Ok (r, self') ->
    counted self self' /\
    (r = None ->
     failed_backtracking_number self < failed_backtracking_number self') /\
    (forall a', r = Some a' -> complete a' = true /\ dict_keys a' = dict_keys a).
Proof.
  induction depth as [|depth IH]; intros self a r self'; [discriminate|].
  rewrite backtrack_unfold. destruct (complete a) eqn:Hcomp.
  - intros [= <- <-]. split; [apply counted_refl|].
    split; [discriminate|]. now intros a' [= <-].
  - destruct (select_unassigned_variable a) as [variable|e] eqn:Hsel; simpl;
      [|discriminate].
    destruct (lookup variable a) as [d|e]; simpl; [|discriminate].
    apply try_values_counts; [now apply select_returns_key|].
    intros s p r0 s' Hr. destruct (IH _ _ _ _ Hr) as (Hc & _ & Hs). auto.
Qed.

(** X17: [backtrack] and [backtracking_search] change nothing of the CSP
    but the two counters, and [backtrack] only raises them.  A call of
    [backtrack] that returns [None] has raised the counter of failed
    backtracks by one at least; a call that returns an assignment returns
    one that passes the test of line 131 and has the variables it was
    given, in the same order.  After [backtracking_search] the counter of
    backtracks is 1 at least, and 1 at least for the failed ones when it
    returned [None]. *)
Theorem search_counts_and_keeps (depth : nat) (self : CSP) (a : assignment)
  (r : option assignment) (self' : CSP) :
  (backtrack depth self a = Ok (r, self') ->
   counted self self' /\
   (r = None ->
    failed_backtracking_number self < failed_backtracking_number self') /\
   (forall a', r = Some a' -> complete a' = true /\ dict_keys a' = dict_keys a)) /\
  (backtracking_search depth self = Ok (r, self') ->
   variables self' = variables self /\
   domains self' = domains self /\
   constraints self' = constraints self /\
   1 <= backtracking_number self' /\
   (r = None -> 1 <= failed_backtracking_number self') /\
   (forall a', r = Some a' ->
      complete a' = true /\ dict_keys a' = dict_keys (domains self))).
Proof.
  split; [apply backtrack_counts|].
  unfold backtracking_search. cbv zeta.
  destruct (inference self (initial_assignment self) (get_all_arcs self))
    as [[b pruned]|e] eqn:Hinf; simpl; [|discriminate].
  intros Hrun. apply backtrack_counts in Hrun.
  destruct Hrun as ((Hv & Hd & Hc & Hb & Hf) & Hnone & Hsome). simpl in *.
  split; [exact Hv|]. split; [exact Hd|]. split; [exact Hc|].
  split; [exact Hb|]. split.
  - intros Hr. specialize (Hnone Hr). lia.
  - intros a' Ha'. destruct (Hsome a' Ha') as [Hcomp ->].
    split; [exact Hcomp|].
    apply inference_shrunk in Hinf. destruct Hinf as [-> _].
    unfold initial_assignment, dict_keys. now rewrite map_map.
Qed.

(** ** The depth of the recursion *)

Lemma chars_length (s : string) : List.length (chars s) = String.length s.
Proof. induction s as [|c s IH]; simpl; [reflexivity | now rewrite IH]. Qed.

Lemma chars_single (v : value) : String.length v = 1 -> chars v = [v].
Proof.
  destruct v as [|c [|c' v]]; simpl; try discriminate. reflexivity.
Qed.

Lemma py_iter_length (e : entry) : List.length (py_iter e) = py_len e.
Proof. destruct e; simpl; [reflexivity | apply chars_length]. Qed.

Lemma size_of_get (a : assignment) (x : name) (e : entry) :
  dict_get x a = Some e -> size_of a x = py_len e.
Proof. unfold size_of. now intros ->. Qed.

(** Binding a variable to one of its values, a single character, prunes
    the assignment. *)
Lemma bind_value_shrunk (a : assignment) (variable : name) (d : entry)
  (v : value) :
  dict_get variable a = Some d -> In v (py_iter d) -> String.length v = 1 ->
  shrunk a (dict_set variable (EStr v) a) /\
  size_of (dict_set variable (EStr v) a) variable = 1.
Proof.
  intros Hd Hv Hlen.
  assert (Hpos : 1 <= py_len d).
  { rewrite <- py_iter_length. destruct (py_iter d); [contradiction | simpl; lia]. }
  split; [|rewrite size_of_set_same; exact Hlen].
  split; [|split].
  - rewrite dict_keys_set. unfold dict_mem. now rewrite Hd.
  - intros x. destruct (String.eqb x variable) eqn:E.
    + apply String.eqb_eq in E. subst x.
      rewrite size_of_set_same, (size_of_get _ _ _ Hd). simpl. lia.
    + apply String.eqb_neq in E. now rewrite size_of_set_other.
  - intros x e'. destruct (String.eqb x variable) eqn:E.
    + apply String.eqb_eq in E. subst x. rewrite dict_get_set_same.
      intros [= <-]. exists d. split; [exact Hd|]. simpl.
      rewrite (chars_single v Hlen). intros y [<-|[]]. exact Hv.
    + apply String.eqb_neq in E. rewrite dict_get_set_other by exact E.
      intros H. exists e'. split; [exact H | apply incl_refl].
Qed.

Lemma shrunk_single_chars (a a' : assignment) :
  shrunk a a' -> single_chars a -> single_chars a'.
Proof.
  intros (_ & _ & Hv) Hs x e' v He' Hin.
  destruct (Hv x e' He') as (e & He & Hincl). eapply Hs; eauto.
Qed.

Lemma filter_length_mono {A : Type} (f g : A -> bool) (l : list A) :
  (forall x, In x l -> f x = true -> g x = true) ->
  List.length (filter f l) <= List.length (filter g l).
Proof.
  induction l as [|x l IH]; intros H; simpl; [lia|].
  assert (IH' : List.length (filter f l) <= List.length (filter g l)).
  { apply IH. intros y Hy. apply H. now right. }
  destruct (f x) eqn:Ef.
  - rewrite (H x (or_introl eq_refl) Ef). simpl. lia.
  - destruct (g x); simpl; lia.
Qed.

Lemma filter_length_strict {A : Type} (f g : A -> bool) (l : list A) (x : A) :
  (forall y, In y l -> f y = true -> g y = true) ->
  In x l -> f x = false -> g x = true ->
  List.length (filter f l) < List.length (filter g l).
Proof.
  induction l as [|y l IH]; intros H Hin Hf Hg; [contradiction|]. simpl.
  assert (Hmono : List.length (filter f l) <= List.length (filter g l)).
  { apply filter_length_mono. intros z Hz. apply H. now right. }
  destruct Hin as [->|Hin].
  - rewrite Hf, Hg. simpl. lia.
  - assert (IH' : List.length (filter f l) < List.length (filter g l)).
    { apply IH; auto. intros z Hz. apply H. now right. }
    destruct (f y) eqn:Efy.
    + rewrite (H y (or_introl eq_refl) Efy). simpl. lia.
    + destruct (g y); simpl; lia.
Qed.

Lemma shrunk_undecided (a a' : assignment) :
  shrunk a a' -> undecided a' <= undecided a.
Proof.
  intros (Hk & Hs & _). unfold undecided. rewrite Hk.
  apply filter_length_mono. intros x _ H. apply Nat.leb_le in H.
  apply Nat.leb_le. specialize (Hs x). lia.
Qed.

Lemma bind_value_undecided (a : assignment) (variable : name) (d : entry)
  (v : value) :
  dict_get variable a = Some d -> In v (py_iter d) -> String.length v = 1 ->
  2 <= size_of a variable ->
  undecided (dict_set variable (EStr v) a) < undecided a.
Proof.
  intros Hd Hv Hlen Hbig.
  destruct (bind_value_shrunk a variable d v Hd Hv Hlen) as [(Hk & Hs & _) Hone].
  unfold undecided. rewrite Hk.
  apply (filter_length_strict _ _ _ variable).
  - intros x _ H. apply Nat.leb_le in H. apply Nat.leb_le. specialize (Hs x). lia.
  - eapply dict_get_keys; eauto.
  - rewrite Hone. reflexivity.
  - now apply Nat.leb_le.
Qed.

(** With no empty domain and no variable twice, an assignment that fails
    the test of line 131 has a variable with two values or more. *)
Lemma incomplete_has_undecided (a : assignment) :
  NoDup (dict_keys a) -> all_nonempty a -> complete a = false ->
  exists x, 2 <= size_of a x.
Proof.
  intros Hnd Hne Hcomp.
  destruct (existsb (fun x => Nat.leb 2 (size_of a x)) (dict_keys a)) eqn:Hex.
  - apply existsb_exists in Hex. destruct Hex as (x & _ & Hx).
    exists x. now apply Nat.leb_le.
  - exfalso. unfold complete in Hcomp. apply Nat.eqb_neq in Hcomp. apply Hcomp.
    unfold dict_values. rewrite map_map.
    rewrite (list_sum_const _ 1); [lia|].
    intros [k e] Hin. simpl.
    assert (Hget : dict_get k a = Some e) by now apply dict_get_of_in.
    assert (Hk : In k (dict_keys a)) by (eapply dict_get_keys; eauto).
    pose proof (Hne k Hk) as H1. rewrite (size_of_get _ _ _ Hget) in H1.
    assert (H2 : Nat.leb 2 (size_of a k) = false).
    { destruct (Nat.leb 2 (size_of a k)) eqn:E; [|reflexivity].
      assert (Hcontra : existsb (fun x => Nat.leb 2 (size_of a x)) (dict_keys a) = true)
        by (apply existsb_exists; eauto).
      congruence. }
    apply Nat.leb_gt in H2. rewrite (size_of_get _ _ _ Hget) in H2. lia.
Qed.

(** [select_unassigned_variable] returns a variable with two values or
    more when there is one. *)
Lemma select_picks_undecided (a : assignment) :
  (exists x, 2 <= size_of a x) ->
  exists v, select_unassigned_variable a = Ok v /\ 2 <= size_of a v.
Proof.
  intros [x Hx].
  assert (Hxin : In x (dict_keys a)).
  { unfold size_of in Hx. destruct (dict_get x a) as [e|] eqn:He; [|lia].
    eapply dict_get_keys; eauto. }
  unfold select_unassigned_variable.
  destruct (dict_keys a) as [|k ks] eqn:Hks; [contradiction|].
  rewrite badness_of_key by (rewrite Hks; now left). simpl.
  destruct (min_from_spec a ks k [] []) as (v & b' & a' & Hv & Hsplit & Hb & Ha).
  { intros y Hy. rewrite Hks. now right. }
  { intros y []. }
  { intros y []. }
  exists v. split; [exact Hv|]. simpl in Hsplit.
  assert (Hle : badness_lt (bkey a x) (bkey a v) = false).
  { rewrite Hsplit in Hxin. apply in_app_or in Hxin.
    destruct Hxin as [Hy|[<-|Hy]].
    - specialize (Hb x Hy). destruct (bkey a v), (bkey a x); simpl in *;
        try congruence. rewrite Nat.ltb_lt in Hb. apply Nat.ltb_ge. lia.
    - destruct (bkey a v); simpl; [apply Nat.ltb_irrefl | reflexivity].
    - auto. }
  unfold bkey in Hle.
  destruct (Nat.ltb (size_of a x) 2) eqn:E1; [apply Nat.ltb_lt in E1; lia|].
  destruct (Nat.ltb (size_of a v) 2) eqn:E2; [discriminate|].
  now apply Nat.ltb_ge in E2.
Qed.

(** ** The exceptions of [inference] *)

Lemma revise_list_raises (self : CSP) (xi xj : name) (steps : nat) (e : exn) :
  forall i revised l a,
    revise_list self xi xj steps i revised l a = Raise e ->
    e = KeyError \/ e = LoopBound.
Proof.
  induction steps as [|steps IH]; intros i revised l a; simpl.
  - destruct (nth_error l i); [intros [= <-]; now right | discriminate].
  - destruct (nth_error l i) as [x|]; [|discriminate].
    destruct (unsupported self a xi xj x) as [[|]|e'] eqn:Hu; simpl.
    + destruct (existsb (String.eqb x) l); apply IH.
    + apply IH.
    + intros [= <-]. left. eapply unsupported_raises; eauto.
Qed.

Lemma revise_str_raises (self : CSP) (xi xj : name) (s : value) (a : assignment)
  (e : exn) :
  forall todo revised,
    revise_str self xi xj todo revised s a = Raise e ->
    e = KeyError \/ e = AttributeError.
Proof.
  induction todo as [|x todo IH]; intros revised; simpl; [discriminate|].
  destruct (unsupported self a xi xj x) as [[|]|e'] eqn:Hu; simpl.
  - destruct (str_contains x s); [intros [= <-]; now right | apply IH].
  - apply IH.
  - intros [= <-]. left. eapply unsupported_raises; eauto.
Qed.

Lemma revise_raises (self : CSP) (a : assignment) (xi xj : name) (e : exn) :
  revise self a xi xj = Raise e ->
  e = KeyError \/
  (e = AttributeError /\ exists s, dict_get xi a = Some (EStr s)).
Proof.
  intros Hrun. pose proof (revise_no_bound self a xi xj) as Hnb.
  unfold revise, lookup in *.
  destruct (dict_get xi a) as [[l|s]|]; simpl in *.
  - apply revise_list_raises in Hrun as Hcase.
    destruct Hcase as [->| ->]; [now left | congruence].
  - apply revise_str_raises in Hrun. destruct Hrun as [->| ->]; [now left|].
    right. eauto.
  - injection Hrun as <-. now left.
Qed.

Lemma revise_keeps_strings (self : CSP) (a : assignment) (xi xj : name)
  (r : bool) (a1 : assignment) :
  revise self a xi xj = Ok (r, a1) ->
  forall x s, dict_get x a1 = Some (EStr s) -> dict_get x a = Some (EStr s).
Proof.
  unfold revise, lookup.
  destruct (dict_get xi a) as [[l|s0]|] eqn:Hget; simpl; [| |discriminate].
  - intros Hrun. apply revise_list_spec in Hrun; [|exact Hget].
    destruct Hrun as (l' & -> & _). intros x s.
    destruct (String.eqb x xi) eqn:E.
    + apply String.eqb_eq in E. subst x. rewrite dict_get_set_same. discriminate.
    + apply String.eqb_neq in E. now rewrite dict_get_set_other.
  - intros Hrun. apply revise_str_spec in Hrun; [|apply chars_contains].
    now destruct Hrun as [-> _].
Qed.

Lemma inference_loop_raises (self : CSP) (steps : nat) (e : exn) :
  forall a queue,
    fst (inference_loop self steps a queue) = Raise e ->
    e = LoopBound \/ e = KeyError \/
    (e = AttributeError /\ exists x s, dict_get x a = Some (EStr s)).
Proof.
  induction steps as [|steps IH]; intros a queue.
  - destruct queue as [|[xi xj] queue]; simpl; [discriminate|].
    intros [= <-]. now left.
  - destruct queue as [|[xi xj] queue]; simpl; [discriminate|].
    destruct (revise self a xi xj) as [[r a1]|e'] eqn:Hrev.
    + assert (Hnext : forall q, fst (inference_loop self steps a1 q) = Raise e ->
                e = LoopBound \/ e = KeyError \/
                (e = AttributeError /\ exists x s, dict_get x a = Some (EStr s))).
      { intros q Hq. apply IH in Hq.
        destruct Hq as [H|[H|(H & x & s & Hx)]]; auto.
        right. right. split; [exact H|]. exists x, s.
        eapply revise_keeps_strings; eauto. }
      destruct r; simpl.
      * unfold lookup. destruct (dict_get xi a1) as [di|]; simpl.
        -- destruct (negb (py_truthy di)); simpl; [discriminate|].
           destruct (requeued self xi xj) as [more|e''] eqn:Hreq; simpl.
           ++ apply Hnext.
           ++ intros [= <-]. right. left. eapply requeued_raises; eauto.
        -- intros [= <-]. now (right; left).
      * apply Hnext.
    + simpl. intros [= <-]. apply revise_raises in Hrev.
      destruct Hrev as [->|(-> & s & Hs)]; [now (right; left)|].
      right. right. split; [reflexivity|]. eauto.
Qed.

(** X18: [revise] and [inference] raise nothing but [KeyError] and
    [AttributeError], and [AttributeError] only when the assignment binds
    some variable to a string: on an assignment of lists the only exception
    is [KeyError]. *)
Theorem inference_raises_only (self : CSP) (a : assignment) (queue : list arc)
  (xi xj : name) (e : exn) :
  (revise self a xi xj = Raise e ->
   e = KeyError \/
   (e = AttributeError /\ exists s, dict_get xi a = Some (EStr s))) /\
  (inference self a queue = Raise e ->
   e = KeyError \/
   (e = AttributeError /\ exists x s, dict_get x a = Some (EStr s))).
Proof.
  split; [apply revise_raises|].
  unfold inference. intros Hrun.
  destruct (inference_loop_spec self (inference_bound self a queue) a queue
              (Nat.le_refl _)) as (Hnb & _).
  apply inference_loop_raises in Hrun as Hcase.
  destruct Hcase as [->|Hcase]; [contradiction | exact Hcase].
Qed.

Lemma inference_not_recursion_error (self : CSP) (a : assignment)
  (queue : list arc) :
  inference self a queue <> Raise RecursionError.
Proof.
  unfold inference. intros Hrun. apply inference_loop_raises in Hrun.
  destruct Hrun as [H|[H|[H _]]]; discriminate.
Qed.

(** A run that returns [True] has emptied no domain. *)
Lemma inference_loop_true_nonempty (self : CSP) (steps : nat) :
  forall a queue a',
    all_nonempty a ->
    fst (inference_loop self steps a queue) = Ok (true, a') ->
    all_nonempty a'.
Proof.
  induction steps as [|steps IH]; intros a queue a' Hne.
  - destruct queue as [|[xi xj] queue]; simpl; [|discriminate].
    now intros [= <-].
  - destruct queue as [|[xi xj] queue]; simpl; [now intros [= <-]|].
    destruct (revise self a xi xj) as [[[|] a1]|e] eqn:Hrev; simpl;
      [| |discriminate].
    + destruct (revise_effect _ _ _ _ _ _ Hrev) as (Hkeys & Hother & _).
      unfold lookup. destruct (dict_get xi a1) as [di|] eqn:Hdi; simpl;
        [|discriminate].
      destruct (py_truthy di) eqn:Ht; simpl; [|discriminate].
      destruct (requeued self xi xj); simpl; [|discriminate].
      apply IH. intros x Hx. destruct (String.eqb x xi) eqn:E.
      * apply String.eqb_eq in E. subst x. rewrite (size_of_get _ _ _ Hdi).
        unfold py_truthy in Ht. destruct (py_len di); [discriminate | lia].
      * apply String.eqb_neq in E. rewrite (Hother x E). apply Hne.
        now rewrite <- Hkeys.
    + destruct (revise_effect _ _ _ _ _ _ Hrev) as (_ & _ & _ & _ & Hsame & _).
      rewrite (Hsame eq_refl). now apply IH.
Qed.

Lemma inference_true_nonempty (self : CSP) (a : assignment) (queue : list arc)
  (a' : assignment) :
  all_nonempty a -> inference self a queue = Ok (true, a') -> all_nonempty a'.
Proof. unfold inference. intros Hne. now apply inference_loop_true_nonempty. Qed.

Lemma bind_value_nonempty (a : assignment) (variable : name) (v : value) :
  all_nonempty a -> String.length v = 1 ->
  all_nonempty (dict_set variable (EStr v) a).
Proof.
  intros Hne Hlen x Hx. destruct (String.eqb x variable) eqn:E.
  - apply String.eqb_eq in E. subst x. rewrite size_of_set_same. simpl. lia.
  - apply String.eqb_neq in E. rewrite size_of_set_other by exact E.
    apply Hne. rewrite dict_keys_set in Hx.
    destruct (dict_mem variable a); [exact Hx|].
    apply in_app_or in Hx. destruct Hx as [Hx|[Hx|[]]]; [exact Hx | congruence].
Qed.

Lemma try_values_no_recursion_error
  (rec : CSP -> assignment -> res (option assignment * CSP))
  (a : assignment) (variable : name) (todo : list value) :
  (forall self v pruned,
     In v todo ->
     inference self (dict_set variable (EStr v) a) (get_all_arcs self)
       = Ok (true, pruned) ->
     rec (count_backtrack self) pruned <> Raise RecursionError) ->
  forall self, try_values rec a variable self todo <> Raise RecursionError.
Proof.
  induction todo as [|v todo IH]; intros Hrec self; simpl; [discriminate|].
  assert (IH' : forall self0,
             try_values rec a variable self0 todo <> Raise RecursionError).
  { apply IH. intros self0 v0 pruned Hin. apply Hrec. now right. }
  destruct (inference self (dict_set variable (EStr v) a) (get_all_arcs self))
    as [[[|] pruned]|e] eqn:Hinf; simpl.
  - pose proof (Hrec self v pruned (or_introl eq_refl) Hinf) as Hcall.
    destruct (rec (count_backtrack self) pruned) as [[result self1]|e]; simpl.
    + destruct (result_truthy result); [discriminate | apply IH'].
    + congruence.
  - apply IH'.
  - intros [= ->]. now apply (inference_not_recursion_error _ _ _ Hinf).
Qed.

Lemma backtrack_within_depth (depth : nat) :
  forall self a,
    NoDup (dict_keys a) -> all_nonempty a -> single_chars a ->
    undecided a < depth ->
    backtrack depth self a <> Raise RecursionError.
Proof.
  induction depth as [|depth IH]; intros self a Hnd Hne Hsc Hlt; [lia|].
  rewrite backtrack_unfold.
  destruct (complete a) eqn:Hcomp; [discriminate|].
  destruct (select_picks_undecided a (incomplete_has_undecided a Hnd Hne Hcomp))
    as (variable & -> & Hbig).
  cbn [bind]. unfold lookup.
  destruct (dict_get variable a) as [d|] eqn:Hd;
    [|unfold size_of in Hbig; rewrite Hd in Hbig; lia].
  cbn [bind]. apply try_values_no_recursion_error.
  intros self0 v pruned Hv Hinf.
  assert (Hlen : String.length v = 1) by (eapply Hsc; eauto).
  destruct (bind_value_shrunk a variable d v Hd Hv Hlen) as [Hsh _].
  pose proof (inference_shrunk _ _ _ _ _ Hinf) as Hsh'.
  apply IH.
  - destruct Hsh' as [-> _]. destruct Hsh as [-> _]. exact Hnd.
  - eapply inference_true_nonempty; [|exact Hinf].
    now apply bind_value_nonempty.
  - eapply shrunk_single_chars; [exact Hsh'|].
    eapply shrunk_single_chars; [exact Hsh | exact Hsc].
  - pose proof (shrunk_undecided _ _ Hsh') as H1.
    pose proof (bind_value_undecided a variable d v Hd Hv Hlen Hbig) as H2. lia.
Qed.

(** * Puzzles of different values *)

(** ** What [revise] finds *)

Lemma count_in_found (self : CSP) (xi xj : name) (arcs : list (value * value)) :
  forall n,
    count_in self xi xj arcs = Ok (S n) ->
    exists p ci cij,
      In p arcs /\ dict_get xi (constraints self) = Some ci /\
      dict_get xj ci = Some cij /\ In p cij.
Proof.
  induction arcs as [|q arcs IH]; intros n; simpl; [discriminate|].
  unfold lookup. destruct (dict_get xi (constraints self)) as [ci|] eqn:Hci;
    simpl; [|discriminate].
  destruct (dict_get xj ci) as [cij|] eqn:Hcij; simpl; [|discriminate].
  destruct (count_in self xi xj arcs) as [m|] eqn:Hm; simpl; [|discriminate].
  destruct (pair_in q cij) eqn:Hq.
  - intros _. exists q, ci, cij. repeat split; auto. now apply pair_in_iff.
  - simpl. intros [= ->]. destruct (IH n eq_refl) as (p & ci' & cij' & Hp & H).
    exists p, ci', cij'. split; [now right | exact H].
Qed.

Lemma unsupported_false (self : CSP) (a : assignment) (xi xj : name) (x : value) :
  unsupported self a xi xj x = Ok false -> supports self a xi xj x.
Proof.
  unfold unsupported, lookup.
  destruct (dict_get xj a) as [dj|] eqn:Hdj; simpl; [|discriminate].
  destruct (count_in self xi xj _) as [[|n]|] eqn:Hc; simpl; try discriminate.
  intros _. apply count_in_found in Hc.
  destruct Hc as ([x' b] & ci & cij & Hp & Hci & Hcij & Hin).
  apply in_app_or in Hp. destruct Hp as [Hp|[]].
  apply in_map_iff in Hp. destruct Hp as (b' & [= <- <-] & Hb).
  now exists dj, ci, cij, b'.
Qed.

Lemma unsupported_true (self : CSP) (a : assignment) (xi xj : name) (x : value) :
  unsupported self a xi xj x = Ok true -> ~ supports self a xi xj x.
Proof.
  intros Hu Hs. apply supports_not_unsupported in Hs. congruence.
Qed.

(** A call of [unsupported] that returns has found the other variable in
    the assignment and, when that variable has a value, the constraint. *)
Lemma unsupported_returns (self : CSP) (a : assignment) (xi xj : name)
  (x : value) (u : bool) :
  unsupported self a xi xj x = Ok u ->
  exists dj, dict_get xj a = Some dj /\
             (py_iter dj <> [] -> constraint_of self xi xj <> None).
Proof.
  unfold unsupported, lookup.
  destruct (dict_get xj a) as [dj|] eqn:Hdj; simpl; [|discriminate].
  destruct (count_in self xi xj _) as [n|] eqn:Hc; simpl; [|discriminate].
  intros _. exists dj. split; [reflexivity|]. intros Hne.
  apply count_in_lookups in Hc.
  - destruct Hc as (ci & cij & Hci & Hcij). unfold constraint_of.
    rewrite Hci, Hcij. discriminate.
  - unfold get_all_possible_pairs. simpl. destruct (py_iter dj); [congruence|].
    discriminate.
Qed.

Lemma supports_set_other (self : CSP) (a : assignment) (xi i j : name)
  (e : entry) (x : value) :
  j <> xi -> supports self (dict_set xi e a) i j x <-> supports self a i j x.
Proof.
  intros Hne. unfold supports. now rewrite dict_get_set_other.
Qed.

Lemma remove_first_nodup (x : value) (l : list value) :
  NoDup l -> NoDup (remove_first x l) /\ ~ In x (remove_first x l).
Proof.
  induction l as [|y l IH]; simpl; intros Hnd; [split; [constructor | auto]|].
  inversion Hnd as [|? ? Hnot Hnd']; subst.
  destruct (String.eqb x y) eqn:E.
  - apply String.eqb_eq in E. subst y. auto.
  - apply String.eqb_neq in E. destruct (IH Hnd') as [IH1 IH2]. split.
    + constructor; [|exact IH1]. intros Hin. apply Hnot.
      eapply remove_first_incl; eauto.
    + intros [->|Hin]; [congruence | auto].
Qed.

(** The loop over a list in which one value at most has no partner: that
    value goes, and the values the iterator steps over are the ones that
    have a partner. *)
Lemma revise_list_lone (self : CSP) (xi xj : name) (steps : nat) :
  xi <> xj ->
  forall i revised l a r a',
    dict_get xi a = Some (EList l) ->
    NoDup l ->
    (forall x y, In x l -> In y l ->
       ~ supports self a xi xj x -> ~ supports self a xi xj y -> x = y) ->
    (forall p x, p < i -> nth_error l p = Some x -> supports self a xi xj x) ->
    revise_list self xi xj steps i revised l a = Ok (r, a') ->
    exists l',
      a' = dict_set xi (EList l') a /\ incl l' l /\ NoDup l' /\
      (forall x, In x l' -> supports self a xi xj x) /\
      (forall x, In x l -> ~ In x l' -> ~ supports self a xi xj x).
Proof.
  intros Hne.
  assert (Hdone : forall i l a,
             dict_get xi a = Some (EList l) -> NoDup l ->
             (forall p x, p < i -> nth_error l p = Some x ->
                          supports self a xi xj x) ->
             nth_error l i = None ->
             exists l',
               a = dict_set xi (EList l') a /\ incl l' l /\ NoDup l' /\
               (forall x, In x l' -> supports self a xi xj x) /\
               (forall x, In x l -> ~ In x l' -> ~ supports self a xi xj x)).
  { intros i l a Hget Hnd Hseen Hnth. exists l.
    split; [symmetry; now apply dict_set_get|]. split; [apply incl_refl|].
    split; [exact Hnd|]. split; [|intros x Hx Hnx; contradiction].
    intros x Hx. apply In_nth_error in Hx. destruct Hx as [p Hp].
    apply (Hseen p); [|exact Hp].
    apply nth_error_None in Hnth.
    assert (p < List.length l) by (apply nth_error_Some; congruence). lia. }
  induction steps as [|steps IH]; intros i revised l a r a' Hget Hnd Hlone Hseen;
    simpl.
  - destruct (nth_error l i) eqn:Hnth; [discriminate|].
    intros [= <- <-]. eapply Hdone; eauto.
  - destruct (nth_error l i) as [x|] eqn:Hnth.
    2:{ intros [= <- <-]. eapply Hdone; eauto. }
    destruct (unsupported self a xi xj x) as [[|]|e] eqn:Hu; simpl;
      [| |discriminate].
    + pose proof (nth_error_contains _ _ _ Hnth) as Hc. simpl in Hc. rewrite Hc.
      apply unsupported_true in Hu.
      assert (Hx : In x l) by (eapply nth_error_In; eauto).
      destruct (remove_first_nodup x l Hnd) as [Hnd1 Hgone].
      assert (Hall : forall y, In y (remove_first x l) ->
                               supports self a xi xj y).
      { intros y Hy. destruct (supportsb self a xi xj y) eqn:Eb;
          [now apply supportsb_iff|].
        exfalso. apply Hgone.
        assert (Hny : ~ supports self a xi xj y).
        { intros Hs. apply supportsb_iff in Hs. congruence. }
        pose proof (Hlone x y Hx (remove_first_incl _ _ _ Hy) Hu Hny) as Hxy.
        subst y. exact Hy. }
      intros Hrun. apply IH in Hrun.
      * destruct Hrun as (l' & -> & Hincl & Hnd' & Hsup & Hrem).
        exists l'. rewrite dict_set_set. split; [reflexivity|].
        split; [eapply incl_tran; [exact Hincl | apply remove_first_incl]|].
        split; [exact Hnd'|]. split.
        -- intros y Hy. apply Hall. now apply Hincl.
        -- intros y Hy Hny.
           destruct (String.eqb y x) eqn:E.
           ++ apply String.eqb_eq in E. now subst y.
           ++ apply String.eqb_neq in E. intros Hs.
              apply (Hrem y); [now apply remove_first_keeps | exact Hny|].
              now apply supports_set_other.
      * apply dict_get_set_same.
      * exact Hnd1.
      * intros y z Hy Hz Hny. exfalso. apply Hny.
        apply supports_set_other; [auto | now apply Hall].
      * intros p y _ Hp. apply supports_set_other; [auto|].
        apply Hall. eapply nth_error_In; eauto.
    + apply unsupported_false in Hu. apply IH; auto.
      intros p y Hp Hy. destruct (Nat.eq_dec p i) as [->|Hpi].
      * rewrite Hnth in Hy. now injection Hy as <-.
      * apply (Hseen p); [lia | exact Hy].
Qed.

Lemma revise_str_all_supported (self : CSP) (xi xj : name) (s : value)
  (a : assignment) :
  forall todo revised r a',
    (forall x, In x todo -> str_contains x s = true) ->
    revise_str self xi xj todo revised s a = Ok (r, a') ->
    forall x, In x todo -> supports self a xi xj x.
Proof.
  induction todo as [|y todo IH]; intros revised r a' Hin; simpl;
    [intros _ x []|].
  destruct (unsupported self a xi xj y) as [[|]|e] eqn:Hu; simpl;
    [| |discriminate].
  - rewrite Hin by now left. discriminate.
  - intros Hrun x [<-|Hx]; [now apply unsupported_false|].
    eapply IH; eauto. intros z Hz. apply Hin. now right.
Qed.

(** ** One call of [revise] on a puzzle of different values *)

Lemma constraint_of_lookups (self : CSP) (i j : name)
  (pairs : list (value * value)) :
  constraint_of self i j = Some pairs ->
  exists ci, dict_get i (constraints self) = Some ci /\ dict_get j ci = Some pairs.
Proof.
  unfold constraint_of. destruct (dict_get i (constraints self)) as [ci|];
    [|discriminate].
  intros H. now exists ci.
Qed.

(** A value without a partner is the one value the other domain holds. *)
Lemma lone_value (self : CSP) (a : assignment) (i j : name)
  (dj : entry) (x : value) :
  all_different self -> tidy self a ->
  constraint_of self i j <> None ->
  dict_get j a = Some dj -> declared self i x ->
  ~ supports self a i j x ->
  forall b, In b (py_iter dj) -> b = x.
Proof.
  intros Hdiff (_ & _ & _ & _ & Hin) Hc Hdj Hx Hns b Hb.
  destruct (string_dec b x) as [E|E]; [exact E|]. exfalso. apply Hns.
  destruct (constraint_of self i j) as [pairs|] eqn:Hp; [|congruence].
  destruct (constraint_of_lookups _ _ _ _ Hp) as (ci & Hci & Hcij).
  exists dj, ci, pairs, b. repeat split; auto.
  apply (Hdiff i j pairs Hp). repeat split; auto.
  eapply Hin; eauto.
Qed.

(** Rebinding a variable to some of its values keeps the assignment tidy. *)
Lemma tidy_set (self : CSP) (a : assignment) (xi : name) (e e' : entry) :
  tidy self a -> dict_get xi a = Some e ->
  incl (py_iter e') (py_iter e) -> NoDup (py_iter e') -> 1 <= py_len e' ->
  tidy self (dict_set xi e' a).
Proof.
  intros (Hnd & Hne & Hsc & Hnv & Hin) Hget Hincl Hnd' Hlen.
  assert (Hkeys : dict_keys (dict_set xi e' a) = dict_keys a).
  { rewrite dict_keys_set. unfold dict_mem. now rewrite Hget. }
  assert (Hcase : forall i e0, dict_get i (dict_set xi e' a) = Some e0 ->
                    (i = xi /\ e0 = e') \/ (i <> xi /\ dict_get i a = Some e0)).
  { intros i e0. destruct (String.eqb i xi) eqn:E.
    - apply String.eqb_eq in E. subst i. rewrite dict_get_set_same.
      intros [= <-]. now left.
    - apply String.eqb_neq in E. rewrite dict_get_set_other by exact E.
      intros H. now right. }
  split; [now rewrite Hkeys|]. split.
  { intros x Hx. rewrite Hkeys in Hx. destruct (String.eqb x xi) eqn:E.
    - apply String.eqb_eq in E. subst x. now rewrite size_of_set_same.
    - apply String.eqb_neq in E. rewrite size_of_set_other by exact E. auto. }
  split.
  { intros i e0 v H0 Hv. destruct (Hcase i e0 H0) as [[-> ->]|[_ H1]].
    - eapply Hsc; eauto.
    - eapply Hsc; eauto. }
  split.
  { intros i e0 H0. destruct (Hcase i e0 H0) as [[-> ->]|[_ H1]]; eauto. }
  intros i e0 x H0 Hx. destruct (Hcase i e0 H0) as [[-> ->]|[_ H1]]; eauto.
Qed.

Lemma nonempty_iter (a : assignment) (x : name) (e : entry) :
  all_nonempty a -> dict_get x a = Some e -> py_iter e <> [].
Proof.
  intros Hne Hget Hnil.
  assert (Hk : In x (dict_keys a)) by (eapply dict_get_keys; eauto).
  specialize (Hne x Hk). rewrite (size_of_get _ _ _ Hget) in Hne.
  rewrite <- py_iter_length, Hnil in Hne. simpl in Hne. lia.
Qed.

(** A call of [revise] that returns has looked at the first value. *)
Lemma revise_returns (self : CSP) (a : assignment) (xi xj : name)
  (r : bool) (a1 : assignment) :
  all_nonempty a ->
  revise self a xi xj = Ok (r, a1) ->
  exists dj, dict_get xj a = Some dj /\ constraint_of self xi xj <> None.
Proof.
  intros Hne. unfold revise, lookup.
  destruct (dict_get xi a) as [e|] eqn:Hget; simpl; [|discriminate].
  pose proof (nonempty_iter a xi e Hne Hget) as Hnil.
  assert (Hfirst : forall x u, unsupported self a xi xj x = Ok u ->
            exists dj, dict_get xj a = Some dj /\
                       constraint_of self xi xj <> None).
  { intros x u Hu. apply unsupported_returns in Hu.
    destruct Hu as (dj & Hdj & Hc). exists dj. split; [exact Hdj|].
    apply Hc. eapply nonempty_iter; eauto. }
  destruct e as [l|s]; simpl in Hnil.
  - destruct l as [|x l]; [congruence|]. simpl.
    destruct (unsupported self a xi xj x) as [u|] eqn:Hu; simpl; [|discriminate].
    intros _. eapply Hfirst; eauto.
  - destruct (chars s) as [|x todo]; [congruence|]. simpl.
    destruct (unsupported self a xi xj x) as [u|] eqn:Hu; simpl; [|discriminate].
    intros _. eapply Hfirst; eauto.
Qed.

(** What one call of [revise] does on a tidy assignment of a puzzle of
    different values: the values it leaves all have a partner, and the
    values it takes had none. *)
Lemma revise_lone (self : CSP) (a : assignment) (xi xj : name)
  (r : bool) (a1 : assignment) :
  all_different self -> tidy self a ->
  revise self a xi xj = Ok (r, a1) ->
  exists e e' dj,
    dict_get xi a = Some e /\ dict_get xj a = Some dj /\ xi <> xj /\
    constraint_of self xi xj <> None /\
    a1 = dict_set xi e' a /\
    incl (py_iter e') (py_iter e) /\ NoDup (py_iter e') /\
    (forall x, In x (py_iter e') -> supports self a xi xj x) /\
    (forall x, In x (py_iter e) -> ~ In x (py_iter e') ->
               ~ supports self a xi xj x).
Proof.
  intros Hdiff Htidy Hrun.
  pose proof Htidy as (Hnd & Hne & Hsc & Hnv & Hin).
  destruct (revise_returns _ _ _ _ _ _ Hne Hrun) as (dj & Hdj & Hc).
  assert (Hij : xi <> xj).
  { destruct (constraint_of self xi xj) as [pairs|] eqn:Hp; [|congruence].
    exact (proj1 (Hdiff _ _ _ Hp)). }
  unfold revise, lookup in Hrun.
  destruct (dict_get xi a) as [e|] eqn:Hget; simpl in Hrun; [|discriminate].
  destruct (py_iter dj) as [|b0 rest] eqn:Hiter;
    [exfalso; eapply nonempty_iter; eauto|].
  assert (Hlone : forall x y, In x (py_iter e) -> In y (py_iter e) ->
            ~ supports self a xi xj x -> ~ supports self a xi xj y -> x = y).
  { intros x y Hx Hy Hnx Hny.
    assert (Hb : In b0 (py_iter dj)) by (rewrite Hiter; now left).
    rewrite <- (lone_value self a xi xj dj x Hdiff Htidy Hc Hdj
                  (Hin _ _ _ Hget Hx) Hnx b0 Hb).
    apply (lone_value self a xi xj dj y Hdiff Htidy Hc Hdj
             (Hin _ _ _ Hget Hy) Hny b0 Hb). }
  destruct e as [l|s].
  - apply revise_list_lone in Hrun; auto.
    + destruct Hrun as (l' & -> & Hincl & Hnd' & Hsup & Hrem).
      exists (EList l), (EList l'), dj. repeat split; auto.
    + apply (Hnv _ _ Hget).
    + intros p x Hp. lia.
  - pose proof (revise_str_all_supported _ _ _ _ _ _ _ _ _
                  (chars_contains s) Hrun) as Hsup.
    apply revise_str_spec in Hrun; [|apply chars_contains].
    destruct Hrun as [-> ->].
    exists (EStr s), (EStr s), dj.
    split; [reflexivity|]. split; [exact Hdj|]. split; [exact Hij|].
    split; [exact Hc|]. split; [symmetry; now apply dict_set_get|].
    split; [apply incl_refl|]. split; [apply (Hnv _ _ Hget)|].
    split; [exact Hsup|]. intros x Hx Hnx. contradiction.
Qed.

Lemma requeued_covers (self : CSP) (xi xj : name) (more : list arc) :
  requeued self xi xj = Ok more ->
  forall k, constraint_of self xi k <> None -> k <> xj -> In (k, xi) more.
Proof.
  unfold requeued, get_all_neighboring_arcs, lookup.
  intros Hrun k Hc Hk. apply constraint_of_some in Hc.
  destruct Hc as (ci & Hci & Hin). rewrite Hci in Hrun. simpl in Hrun.
  injection Hrun as <-.
  apply in_map_iff. exists (k, xi). split; [reflexivity|].
  apply filter_In. split.
  - apply in_map_iff. now exists k.
  - simpl. apply negb_true_iff. now apply String.eqb_neq.
Qed.

(** What one call of [revise] does to the consistency of the arcs: the
    arc revised is consistent afterwards, and an arc that was consistent
    stays so unless it leads to [xi] from a variable other than [xj]. *)
Lemma revise_arcs (self : CSP) (a : assignment) (xi xj : name)
  (r : bool) (a1 : assignment) :
  all_different self -> tidy self a ->
  revise self a xi xj = Ok (r, a1) ->
  1 <= size_of a1 xi ->
  tidy self a1 /\
  arc_consistent_on self a1 (xi, xj) /\
  forall i j,
    constraint_of self i j <> None ->
    arc_consistent_on self a (i, j) ->
    arc_consistent_on self a1 (i, j) \/ (j = xi /\ i <> xj /\ r = true).
Proof.
  intros Hdiff Htidy Hrun Hsize.
  pose proof (revise_effect _ _ _ _ _ _ Hrun) as (_ & _ & _ & _ & Hsame & _).
  destruct (revise_lone _ _ _ _ _ _ Hdiff Htidy Hrun)
    as (e & e' & dj & Hget & Hdj & Hij & Hc & -> & Hincl & Hnd' & Hsup & Hrem).
  rewrite size_of_set_same in Hsize.
  pose proof (tidy_set self a xi e e' Htidy Hget Hincl Hnd' Hsize) as Htidy1.
  pose proof Htidy as (_ & _ & _ & _ & Hin).
  split; [exact Htidy1|]. split.
  { exists e'. simpl. split; [apply dict_get_set_same|].
    intros x Hx. apply supports_set_other; auto. }
  intros i j Hcij (di & Hdi & Hall). simpl in Hdi, Hall.
  destruct r; [|left; rewrite (Hsame eq_refl); now exists di].
  destruct (string_dec j xi) as [->|Hj].
  - destruct (string_dec i xj) as [->|Hi]; [|now right].
    left. exists di. simpl.
    split; [rewrite dict_get_set_other; auto|].
    intros y Hy. destruct (Hall y Hy) as (d & ci & cij & b & Hd & Hci & Hcb & Hb & Hp).
    rewrite Hget in Hd. injection Hd as <-.
    destruct (in_dec string_dec b (py_iter e')) as [Hbe|Hbe].
    + exists e', ci, cij, b. rewrite dict_get_set_same. repeat split; auto.
    + exfalso.
      assert (Hyb : y = b).
      { rewrite Hdj in Hdi. injection Hdi as <-.
        apply (lone_value self a xi xj dj b Hdiff Htidy Hc Hdj
                 (Hin _ _ _ Hget Hb) (Hrem b Hb Hbe) y Hy). }
      assert (Hpairs : constraint_of self xj xi = Some cij)
        by (unfold constraint_of; now rewrite Hci).
      apply (Hdiff _ _ _ Hpairs) in Hp. destruct Hp as (_ & _ & Hneq). auto.
  - left. destruct (string_dec i xi) as [->|Hi].
    + exists e'. simpl. split; [apply dict_get_set_same|].
      rewrite Hget in Hdi. injection Hdi as <-.
      intros x Hx. apply supports_set_other; auto.
    + exists di. simpl. split; [rewrite dict_get_set_other; auto|].
      intros x Hx. apply supports_set_other; auto.
Qed.

(** ** A run of [inference] that returns [True] *)

Lemma inference_loop_sound (self : CSP) (steps : nat) :
  all_different self -> two_way self ->
  forall a queue a',
    tidy self a -> pending self a queue ->
    fst (inference_loop self steps a queue) = Ok (true, a') ->
    tidy self a' /\ pending self a' [].
Proof.
  intros Hdiff Htwo.
  induction steps as [|steps IH]; intros a queue a' Htidy Hpend.
  - destruct queue as [|[xi xj] queue]; simpl; [|discriminate].
    intros [= <-]. auto.
  - destruct queue as [|[xi xj] queue]; simpl; [intros [= <-]; auto|].
    destruct (revise self a xi xj) as [[r a1]|e] eqn:Hrev; [|discriminate].
    assert (Hstep : forall more,
              1 <= size_of a1 xi ->
              (r = true -> forall k, constraint_of self xi k <> None ->
                                     k <> xj -> In (k, xi) more) ->
              tidy self a1 /\ pending self a1 (queue ++ more)).
    { intros more Hsize Hmore.
      destruct (revise_arcs _ _ _ _ _ _ Hdiff Htidy Hrev Hsize)
        as (Htidy1 & Hhead & Hrest).
      split; [exact Htidy1|]. intros i j Hc.
      destruct (Hpend i j Hc) as [[[= <- <-]|Hq]|Hcons].
      - now right.
      - left. apply in_or_app. now left.
      - destruct (Hrest i j Hc Hcons) as [H|(-> & Hi & ->)]; [now right|].
        left. apply in_or_app. right. apply Hmore; auto. }
    destruct r; simpl.
    + unfold lookup. destruct (dict_get xi a1) as [di|] eqn:Hdi; simpl;
        [|discriminate].
      destruct (py_truthy di) eqn:Ht; simpl; [|discriminate].
      destruct (requeued self xi xj) as [more|] eqn:Hreq; simpl; [|discriminate].
      intros Hrun.
      destruct (Hstep more) as [Htidy1 Hpend1].
      * rewrite (size_of_get _ _ _ Hdi). unfold py_truthy in Ht.
        destruct (py_len di); [discriminate | lia].
      * intros _. now apply requeued_covers.
      * eapply IH; eauto.
    + intros Hrun.
      pose proof (revise_effect _ _ _ _ _ _ Hrev) as (_ & _ & _ & _ & Hsame & _).
      destruct (Hstep []) as [Htidy1 Hpend1].
      * rewrite (Hsame eq_refl).
        destruct (revise_lone _ _ _ _ _ _ Hdiff Htidy Hrev)
          as (e & _ & _ & Hget & _).
        destruct Htidy as (_ & Hne & _). apply Hne. eapply dict_get_keys; eauto.
      * discriminate.
      * rewrite app_nil_r in Hpend1. eapply IH; eauto.
Qed.

Lemma pending_all (self : CSP) (a : assignment) :
  pending self a (get_all_arcs self).
Proof.
  intros i j Hc. left. apply constraint_of_some in Hc.
  destruct Hc as (ci & Hci & Hj). apply in_get_all_arcs.
  exists ci. split; [now apply dict_get_in | exact Hj].
Qed.

Lemma inference_sound (self : CSP) (a a' : assignment) :
  all_different self -> two_way self -> tidy self a ->
  inference self a (get_all_arcs self) = Ok (true, a') ->
  tidy self a' /\ pending self a' [].
Proof.
  intros Hdiff Htwo Htidy. unfold inference.
  apply inference_loop_sound; auto. apply pending_all.
Qed.

(** ** The search on a puzzle of different values *)

(** The predicates of a puzzle look at [domains] and [constraints] only. *)
Lemma same_puzzle (s s' : CSP) :
  domains s' = domains s -> constraints s' = constraints s ->
  (all_different s <-> all_different s') /\
  (two_way s <-> two_way s') /\
  (forall a, tidy s a <-> tidy s' a) /\
  (forall a queue, pending s a queue <-> pending s' a queue).
Proof.
  intros Hd Hc.
  unfold all_different, two_way, tidy, pending, arc_consistent_on, supports,
    constraint_of, declared.
  rewrite Hd, Hc.
  split; [reflexivity|]. split; [reflexivity|].
  split; intros; reflexivity.
Qed.

Lemma counted_same_puzzle (s s' : CSP) :
  counted s s' ->
  (all_different s <-> all_different s') /\
  (two_way s <-> two_way s') /\
  (forall a, tidy s a <-> tidy s' a) /\
  (forall a queue, pending s a queue <-> pending s' a queue).
Proof. intros (_ & Hd & Hc & _). now apply same_puzzle. Qed.

Lemma bind_value_tidy (self : CSP) (a : assignment) (variable : name)
  (d : entry) (v : value) :
  tidy self a -> dict_get variable a = Some d -> In v (py_iter d) ->
  tidy self (dict_set variable (EStr v) a).
Proof.
  intros Htidy Hd Hv.
  assert (Hlen : String.length v = 1).
  { destruct Htidy as (_ & _ & Hsc & _). eapply Hsc; eauto. }
  apply (tidy_set self a variable d); auto; simpl.
  - rewrite (chars_single v Hlen). intros x [<-|[]]. exact Hv.
  - rewrite (chars_single v Hlen). constructor; [intros [] | constructor].
  - lia.
Qed.

Lemma try_values_sound
  (rec : CSP -> assignment -> res (option assignment * CSP))
  (a : assignment) (variable : name) (d : entry) :
  dict_get variable a = Some d ->
  (forall s p r s',
     all_different s -> two_way s -> tidy s p -> pending s p [] ->
     rec s p = Ok (r, s') ->
     counted s s' /\
     forall a', r = Some a' -> tidy s a' /\ pending s a' [] /\ shrunk p a') ->
  forall todo self a' self',
    incl todo (py_iter d) ->
    all_different self -> two_way self -> tidy self a ->
    try_values rec a variable self todo = Ok (Some a', self') ->
    tidy self a' /\ pending self a' [] /\ shrunk a a'.
Proof.
  intros Hd Hrec.
  induction todo as [|v todo IH]; intros self a' self' Hincl Hdiff Htwo Htidy;
    simpl; [discriminate|].
  assert (Hv : In v (py_iter d)) by (apply Hincl; now left).
  assert (Hrest : incl todo (py_iter d)) by (intros x Hx; apply Hincl; now right).
  pose proof (bind_value_tidy self a variable d v Htidy Hd Hv) as Hcp.
  destruct (inference self (dict_set variable (EStr v) a) (get_all_arcs self))
    as [[[|] pruned]|e] eqn:Hinf; simpl; [| now apply IH | discriminate].
  destruct (inference_sound _ _ _ Hdiff Htwo Hcp Hinf) as [Htp Hpp].
  assert (Hcb : counted self (count_backtrack self)).
  { unfold counted. simpl. repeat split; auto. }
  destruct (counted_same_puzzle _ _ Hcb) as (Hd1 & Ht1 & Hty1 & Hp1).
  destruct (rec (count_backtrack self) pruned) as [[result self1]|e] eqn:Hr;
    simpl; [|discriminate].
  destruct (Hrec _ _ _ _ (proj1 Hd1 Hdiff) (proj1 Ht1 Htwo)
              (proj1 (Hty1 _) Htp) (proj1 (Hp1 _ _) Hpp) Hr) as [Hc1 Hres].
  destruct (counted_same_puzzle _ _ Hc1) as (Hd2 & Ht2 & Hty2 & Hp2).
  destruct (result_truthy result) eqn:Ht.
  - intros [= -> <-]. destruct (Hres a' eq_refl) as (Hta & Hpa & Hsa).
    split; [now apply Hty1|]. split; [now apply Hp1|].
    assert (Hlen : String.length v = 1).
    { destruct Htidy as (_ & _ & Hsc & _). eapply Hsc; eauto. }
    eapply shrunk_trans; [apply (bind_value_shrunk a variable d v Hd Hv Hlen)|].
    eapply shrunk_trans; [eapply inference_shrunk; eauto | exact Hsa].
  - intros Hrun.
    apply IH in Hrun; auto.
    + destruct Hrun as (Hta & Hpa & Hsa).
      split; [apply Hty1, Hty2, Hta|]. split; [apply Hp1, Hp2, Hpa | exact Hsa].
    + apply Hd2, Hd1, Hdiff.
    + apply Ht2, Ht1, Htwo.
    + apply Hty2, Hty1, Htidy.
Qed.

Lemma backtrack_sound (depth : nat) :
  forall self a r self',
    all_different self -> two_way self -> tidy self a -> pending self a [] ->
    backtrack depth self a = Ok (r, self') ->
    counted self self' /\
    forall a', r = Some a' ->
      tidy self a' /\ pending self a' [] /\ shrunk a a'.
Proof.
  induction depth as [|depth IH]; intros self a r self' Hdiff Htwo Htidy Hpend Hrun;
    [discriminate|].
  split; [now apply (backtrack_counts _ _ _ _ _ Hrun)|].
  intros a' ->. rewrite backtrack_unfold in Hrun.
  destruct (complete a).
  - injection Hrun as <- <-. split; [exact Htidy|].
    split; [exact Hpend | apply shrunk_refl].
  - destruct (select_unassigned_variable a) as [variable|]; simpl in Hrun;
      [|discriminate].
    unfold lookup in Hrun.
    destruct (dict_get variable a) as [d|] eqn:Hd; simpl in Hrun; [|discriminate].
    eapply try_values_sound; eauto. apply incl_refl.
Qed.

(** ** The answer *)

Lemma list_sum_at_least (l : list nat) :
  (forall n, In n l -> 1 <= n) -> List.length l <= list_sum l.
Proof.
  induction l as [|n l IH]; simpl; intros H; [lia|].
  specialize (H n (or_introl eq_refl)) as Hn.
  assert (List.length l <= list_sum l) by (apply IH; intros m Hm; apply H; now right).
  lia.
Qed.

Lemma list_sum_ones (l : list nat) :
  (forall n, In n l -> 1 <= n) -> list_sum l = List.length l ->
  forall n, In n l -> n = 1.
Proof.
  induction l as [|m l IH]; simpl; intros H Hsum n; [intros []|].
  assert (Hl : List.length l <= list_sum l)
    by (apply list_sum_at_least; intros k Hk; apply H; now right).
  pose proof (H m (or_introl eq_refl)) as Hm.
  intros [<-|Hn]; [lia|].
  apply IH; auto. lia.
Qed.

(** Past the test of line 131, a tidy assignment has one value a variable. *)
Lemma complete_single (self : CSP) (a : assignment) :
  tidy self a -> complete a = true ->
  forall x e, dict_get x a = Some e -> exists v, py_iter e = [v].
Proof.
  intros (Hnd & Hne & _) Hcomp x e Hget.
  unfold complete in Hcomp. apply Nat.eqb_eq in Hcomp.
  assert (Hlen : py_len e = 1).
  { apply (list_sum_ones (map py_len (dict_values a))).
    - intros n Hn. apply in_map_iff in Hn. destruct Hn as (e0 & <- & He0).
      unfold dict_values in He0. apply in_map_iff in He0.
      destruct He0 as ([k e1] & <- & Hin). simpl.
      assert (Hk : dict_get k a = Some e1) by now apply dict_get_of_in.
      rewrite <- (size_of_get _ _ _ Hk). apply Hne. eapply dict_get_keys; eauto.
    - rewrite Hcomp. unfold dict_values. now rewrite !length_map.
    - apply in_map. unfold dict_values. apply in_map_iff. exists (x, e).
      split; [reflexivity | now apply dict_get_in]. }
  rewrite <- py_iter_length in Hlen.
  destruct (py_iter e) as [|v [|w l]]; try discriminate. now exists v.
Qed.

Lemma answer_single (a : assignment) (x : name) (e : entry) (v : value) :
  dict_get x a = Some e -> py_iter e = [v] -> answer a x = v.
Proof. unfold answer. now intros -> ->. Qed.

Lemma consistent_pending (self : CSP) (a : assignment) :
  arc_consistent self a (get_all_arcs self) -> pending self a [].
Proof.
  intros Hac i j Hc. right.
  unfold arc_consistent in Hac. rewrite Forall_forall in Hac. apply Hac.
  destruct (pending_all self a i j Hc) as [H|H]; [exact H|].
  apply constraint_of_some in Hc. destruct Hc as (ci & Hci & Hj).
  apply in_get_all_arcs. exists ci. split; [now apply dict_get_in | exact Hj].
Qed.

(** A tidy, complete assignment in which every arc is consistent gives
    every constrained pair of variables a legal pair of values. *)
Lemma complete_consistent_satisfies (self : CSP) (a : assignment) :
  tidy self a -> pending self a [] -> complete a = true ->
  satisfies_constraints self (answer a).
Proof.
  intros Htidy Hpend Hcomp i j ci cij Hci Hcij.
  assert (Hc : constraint_of self i j <> None).
  { unfold constraint_of. rewrite Hci, Hcij. discriminate. }
  destruct (Hpend i j Hc) as [[]|(di & Hdi & Hall)]. simpl in Hdi, Hall.
  destruct (complete_single self a Htidy Hcomp i di Hdi) as [x Hx].
  destruct (Hall x) as (dj & ci' & cij' & b & Hdj & Hci' & Hcij' & Hb & Hp);
    [rewrite Hx; now left|].
  destruct (complete_single self a Htidy Hcomp j dj Hdj) as [y Hy].
  rewrite Hy in Hb. destruct Hb as [<-|[]].
  rewrite (answer_single a i di x Hdi Hx), (answer_single a j dj y Hdj Hy).
  congruence.
Qed.

Lemma shrunk_keeps_answer (self : CSP) (a a' : assignment) :
  shrunk a a' -> tidy self a' -> complete a' = true -> keeps a (answer a').
Proof.
  intros (Hk & _ & Hv) Htidy Hcomp x e Hget.
  assert (Hx : In x (dict_keys a')) by (rewrite Hk; eapply dict_get_keys; eauto).
  destruct (dict_get_in_keys _ _ Hx) as [e' He'].
  destruct (Hv x e' He') as (e0 & He0 & Hincl).
  rewrite Hget in He0. injection He0 as <-.
  destruct (complete_single self a' Htidy Hcomp x e' He') as [v Hv'].
  rewrite (answer_single a' x e' v He' Hv'). apply Hincl. rewrite Hv'. now left.
Qed.

(** ** From the declared domains to the answer *)

Lemma initial_assignment_keys (self : CSP) :
  dict_keys (initial_assignment self) = dict_keys (domains self).
Proof.
  unfold initial_assignment, dict_keys. rewrite map_map. reflexivity.
Qed.

Lemma initial_assignment_of (self : CSP) (x : name) (dom : list value) :
  dict_get x (domains self) = Some dom ->
  dict_get x (initial_assignment self) = Some (EList dom).
Proof.
  unfold initial_assignment.
  induction (domains self) as [|[k d0] d IH]; simpl; [discriminate|].
  destruct (String.eqb x k); [now intros [= ->] | exact IH].
Qed.

(** The assignment the search starts from is tidy when no variable was
    declared twice and every declared domain holds single characters, one
    at least and none twice. *)
Lemma initial_tidy (self : CSP) :
  NoDup (dict_keys (domains self)) ->
  (forall x dom, dict_get x (domains self) = Some dom ->
     dom <> [] /\ NoDup dom /\ forall v, In v dom -> String.length v = 1) ->
  tidy self (initial_assignment self).
Proof.
  intros Hnd Hdom.
  split; [now rewrite initial_assignment_keys|]. split.
  { intros x Hx. destruct (dict_get_in_keys _ _ Hx) as [e He].
    rewrite (size_of_get _ _ _ He).
    apply initial_assignment_get in He. destruct He as (dom & Hd & ->).
    destruct (Hdom x dom Hd) as (Hne & _). simpl.
    destruct dom; [congruence | simpl; lia]. }
  split.
  { intros x e v He Hv. apply initial_assignment_get in He.
    destruct He as (dom & Hd & ->). now apply (Hdom x dom Hd). }
  split.
  { intros x e He. apply initial_assignment_get in He.
    destruct He as (dom & Hd & ->). now apply (Hdom x dom Hd). }
  intros x e v He Hv. apply initial_assignment_get in He.
  destruct He as (dom & Hd & ->). now exists dom.
Qed.

Lemma search_sound (depth : nat) (self : CSP) (pruned a' : assignment)
  (self' : CSP) :
  all_different self -> two_way self ->
  tidy self (initial_assignment self) ->
  inference self (initial_assignment self) (get_all_arcs self)
    = Ok (true, pruned) ->
  backtracking_search depth self = Ok (Some a', self') ->
  tidy self a' /\ complete a' = true /\ shrunk (initial_assignment self) a' /\
  is_solution self (answer a').
Proof.
  intros Hdiff Htwo Htidy Hinf Hrun.
  unfold backtracking_search in Hrun. cbv zeta in Hrun. rewrite Hinf in Hrun.
  cbn [bind] in Hrun.
  destruct (inference_sound _ _ _ Hdiff Htwo Htidy Hinf) as [Htp Hpp].
  destruct (same_puzzle self (set_counters self 1 0) eq_refl eq_refl)
    as (Hd1 & Ht1 & Hty1 & Hp1).
  destruct (backtrack_sound depth _ _ _ _ (proj1 Hd1 Hdiff) (proj1 Ht1 Htwo)
              (proj1 (Hty1 _) Htp) (proj1 (Hp1 _ _) Hpp) Hrun) as [_ Hres].
  destruct (Hres a' eq_refl) as (Hta & Hpa & Hsa).
  apply Hty1 in Hta. apply Hp1 in Hpa.
  assert (Hcomp : complete a' = true).
  { destruct (backtrack_counts _ _ _ _ _ Hrun) as (_ & _ & Hc).
    now apply (Hc a' eq_refl). }
  assert (Hshr : shrunk (initial_assignment self) a').
  { eapply shrunk_trans; [eapply inference_shrunk; eauto | exact Hsa]. }
  split; [exact Hta|]. split; [exact Hcomp|]. split; [exact Hshr|]. split.
  - intros x dom Hx.
    apply (shrunk_keeps_answer self _ _ Hshr Hta Hcomp x (EList dom)).
    now apply initial_assignment_of.
  - now apply complete_consistent_satisfies.
Qed.

Lemma undecided_le (a : assignment) : undecided a <= List.length (dict_keys a).
Proof. unfold undecided. apply filter_length_le. Qed.

Lemma search_within_depth (depth : nat) (self : CSP) (pruned : assignment) :
  tidy self (initial_assignment self) ->
  inference self (initial_assignment self) (get_all_arcs self)
    = Ok (true, pruned) ->
  List.length (domains self) < depth ->
  backtracking_search depth self <> Raise RecursionError.
Proof.
  intros (Hnd & Hne & Hsc & _) Hinf Hdepth.
  unfold backtracking_search. cbv zeta. rewrite Hinf. cbn [bind].
  pose proof (inference_shrunk _ _ _ _ _ Hinf) as Hshr.
  apply backtrack_within_depth.
  - destruct Hshr as [-> _]. exact Hnd.
  - eapply inference_true_nonempty; eauto.
  - eapply shrunk_single_chars; eauto.
  - pose proof (shrunk_undecided _ _ Hshr) as H1.
    pose proof (undecided_le (initial_assignment self)) as H2.
    rewrite initial_assignment_keys in H2. unfold dict_keys in H2.
    rewrite length_map in H2. lia.
Qed.

(** ** The Sudoku board is a puzzle of different values *)

Lemma cell_domain_good (v : value) :
  String.length v = 1 ->
  cell_domain v <> [] /\ NoDup (cell_domain v) /\
  forall x, In x (cell_domain v) -> String.length x = 1.
Proof.
  intros Hlen. unfold cell_domain. destruct (String.eqb v "0").
  - split; [discriminate|]. split.
    + apply nodupb_sound. vm_compute. reflexivity.
    + assert (H : forallb (fun x => Nat.eqb (String.length x) 1)
                          (map str (range 1 10)) = true)
        by (vm_compute; reflexivity).
      rewrite forallb_forall in H. intros x Hx. now apply Nat.eqb_eq, H.
  - split; [discriminate|]. split.
    + constructor; [intros [] | constructor].
    + intros x [<-|[]]. exact Hlen.
Qed.

Lemma shown_single (board : list string) (r c : nat) :
  nine_by_nine board -> r < 9 -> c < 9 -> String.length (shown board r c) = 1.
Proof.
  intros Hb Hr Hc. destruct (Hb r c Hr Hc) as [v Hv].
  rewrite (shown_returned _ _ _ _ Hv). unfold board_at in Hv.
  destruct (nth_error board r) as [line|]; [|discriminate].
  destruct (String.get c line); [|discriminate].
  now injection Hv as <-.
Qed.

Lemma sudoku_puzzle (board : list string) (csp : CSP) :
  nine_by_nine board -> create_sudoku_csp board = Returned csp ->
  all_different csp /\ two_way csp /\ tidy csp (initial_assignment csp) /\
  dict_keys (domains csp) = cell_names /\
  (forall r c, r < 9 -> c < 9 ->
     dict_get (cell_name r c) (domains csp)
     = Some (cell_domain (shown board r c))) /\
  (forall r c r' c', r < 9 -> c < 9 -> r' < 9 -> c' < 9 ->
     peers r c r' c' = true ->
     constraint_of csp (cell_name r c) (cell_name r' c') <> None).
Proof.
  intros Hboard Hrun.
  destruct (sudoku_csp_spec board Hboard)
    as (csp0 & Hrun0 & _ & Hd & Hwf & Htwo & _ & _ & Hlinked & Hc).
  rewrite Hrun in Hrun0. injection Hrun0 as <-.
  assert (Hkeys : dict_keys (domains csp) = cell_names).
  { rewrite Hd. apply declared_board_keys. }
  assert (Hcell : forall r c, r < 9 -> c < 9 ->
            dict_get (cell_name r c) (domains csp)
            = Some (cell_domain (shown board r c))).
  { intros r c Hr Hcc. rewrite Hd. now apply declared_board_domain. }
  split.
  { intros i j pairs Hp. rewrite Hc in Hp.
    destruct (linked sudoku_groups i j) eqn:Hl; [|discriminate].
    destruct (dict_get i (domains csp)) as [dx|] eqn:Hdx; [|discriminate].
    destruct (dict_get j (domains csp)) as [dy|] eqn:Hdy; [|discriminate].
    injection Hp as <-. split.
    - unfold linked in Hl. apply andb_true_iff in Hl. destruct Hl as [Hl _].
      apply negb_true_iff in Hl. now apply String.eqb_neq.
    - intros x y. rewrite filter_In, in_get_all_possible_pairs, differ_spec.
      unfold declared. rewrite Hdx, Hdy. split.
      + intros ((Hx & Hy) & Hne). repeat split; eauto.
      + intros ((d1 & [= <-] & Hx) & (d2 & [= <-] & Hy) & Hne). auto. }
  split; [exact Htwo|]. split.
  { apply initial_tidy.
    - rewrite Hkeys. exact cell_names_nodup.
    - intros x dom Hx.
      assert (Hin : In x cell_names) by (rewrite <- Hkeys; eapply dict_get_keys; eauto).
      apply in_cell_names in Hin. destruct Hin as (r & c & Hr & Hcc & ->).
      rewrite (Hcell r c Hr Hcc) in Hx. injection Hx as <-.
      apply cell_domain_good. now apply shown_single. }
  split; [exact Hkeys|]. split; [exact Hcell|].
  intros r c r' c' Hr Hcc Hr' Hcc' Hp. apply Hlinked.
  now rewrite linked_is_peers.
Qed.

(** What [first_value] reads from a domain of one value *)
Lemma first_value_single (a : assignment) (x : name) (e : entry) (v : value) :
  dict_get x a = Some e -> py_iter e = [v] -> first_value a x = Returned v.
Proof.
  unfold first_value. intros -> Hv. destruct e as [l|s]; simpl in Hv.
  - now rewrite Hv.
  - destruct s as [|ch s]; [discriminate|]. simpl in Hv.
    injection Hv as <- Hs. reflexivity.
Qed.

(** ** The theorems of the search *)

(** X19: on an assignment with no variable twice, no empty domain and
    single characters as values, [backtrack] does not run out of the
    interpreter's recursion depth when the depth is greater than the number
    of variables that still have two values or more: every nested call
    has bound one more of them. *)
Theorem backtrack_depth_suffices (depth : nat) (self : CSP) (a : assignment) :
  NoDup (dict_keys a) -> all_nonempty a -> single_chars a ->
  undecided a < depth ->
  backtrack depth self a <> Raise RecursionError.
Proof. apply backtrack_within_depth. Qed.

Lemma two_free_assignment_good :
  let a := [("X", EList ["1"; "2"]); ("Y", EList ["1"; "2"])] in
  NoDup (dict_keys a) /\ all_nonempty a /\ single_chars a.
Proof.
  cbv zeta. split; [apply nodupb_sound; reflexivity|]. split.
  - intros x [<-|[<-|[]]]; vm_compute; lia.
  - intros x e v. simpl.
    destruct (String.eqb x "X"); [|destruct (String.eqb x "Y"); [|discriminate]];
      intros [= <-]; simpl; intros [<-|[<-|[]]]; reflexivity.
Qed.

Lemma backtrack_depth_suffices_witness :
  let a := [("X", EList ["1"; "2"]); ("Y", EList ["1"; "2"])] in
  undecided a < 3 /\
  backtrack 3 Boards.two_free_csp a <> Raise RecursionError.
Proof.
  cbv zeta. destruct two_free_assignment_good as (Hnd & Hne & Hsc).
  assert (Hlt : undecided [("X", EList ["1"; "2"]); ("Y", EList ["1"; "2"])] < 3)
    by (vm_compute; lia).
  split; [exact Hlt|].
  exact (backtrack_depth_suffices 3 Boards.two_free_csp _ Hnd Hne Hsc Hlt).
Defined.

(** X20: the search on a puzzle of different values.  When every
    constraint is an all-different constraint between two declared
    variables, the constraints go both ways, no variable was declared twice,
    every declared domain holds single characters, one at least and none
    twice, and the first AC-3 pass returned [True], an assignment that
    [backtracking_search] returns is a solution: it holds exactly one value
    for every variable, that value is in the declared domain, and every
    constrained pair of variables holds a legal pair. *)
Theorem backtracking_search_answers_solve (depth : nat) (self : CSP)
  (pruned a' : assignment) (self' : CSP) :
  all_different self -> two_way self ->
  NoDup (dict_keys (domains self)) ->
  (forall x dom, dict_get x (domains self) = Some dom ->
     dom <> [] /\ NoDup dom /\ forall v, In v dom -> String.length v = 1) ->
  inference self (initial_assignment self) (get_all_arcs self)
    = Ok (true, pruned) ->
  backtracking_search depth self = Ok (Some a', self') ->
  is_solution self (answer a') /\
  forall x, In x (dict_keys (domains self)) ->
    exists e, dict_get x a' = Some e /\ py_iter e = [answer a' x].
Proof.
  intros Hdiff Htwo Hnd Hdom Hinf Hrun.
  destruct (search_sound depth self pruned a' self' Hdiff Htwo
              (initial_tidy self Hnd Hdom) Hinf Hrun)
    as (Htidy & Hcomp & (Hkeys & _) & Hsol).
  split; [exact Hsol|]. intros x Hx.
  rewrite <- initial_assignment_keys, <- Hkeys in Hx.
  destruct (dict_get_in_keys _ _ Hx) as [e He]. exists e. split; [exact He|].
  destruct (complete_single self a' Htidy Hcomp x e He) as [v Hv].
  now rewrite (answer_single a' x e v He Hv).
Qed.

Lemma two_free_puzzle :
  all_different Boards.two_free_csp /\
  NoDup (dict_keys (domains Boards.two_free_csp)) /\
  (forall x dom, dict_get x (domains Boards.two_free_csp) = Some dom ->
     dom <> [] /\ NoDup dom /\ forall v, In v dom -> String.length v = 1).
Proof.
  split; [|split].
  - intros i j pairs. unfold constraint_of, declared. simpl.
    destruct (String.eqb i "X") eqn:Ei; [|destruct (String.eqb i "Y") eqn:Ei';
                                           [|discriminate]];
      simpl;
      [destruct (String.eqb j "Y") eqn:Ej | destruct (String.eqb j "X") eqn:Ej];
      try discriminate; intros [= <-];
      repeat match goal with
             | H : String.eqb _ _ = true |- _ => apply String.eqb_eq in H; subst
             end;
      (split; [discriminate|]); intros x y; simpl; split.
    + intros [[= <- <-]|[[= <- <-]|[]]];
        (split; [eexists; split; [reflexivity | simpl; auto]|]);
        (split; [eexists; split; [reflexivity | simpl; auto] | discriminate]).
    + intros ((d1 & [= <-] & [<-|[<-|[]]]) & (d2 & [= <-] & [<-|[<-|[]]]) & Hne);
        auto; congruence.
    + intros [[= <- <-]|[[= <- <-]|[]]];
        (split; [eexists; split; [reflexivity | simpl; auto]|]);
        (split; [eexists; split; [reflexivity | simpl; auto] | discriminate]).
    + intros ((d1 & [= <-] & [<-|[<-|[]]]) & (d2 & [= <-] & [<-|[<-|[]]]) & Hne);
        auto; congruence.
  - apply nodupb_sound. reflexivity.
  - intros x dom. simpl.
    destruct (String.eqb x "X"); [|destruct (String.eqb x "Y"); [|discriminate]];
      intros [= <-]; (split; [discriminate|]);
      (split; [apply nodupb_sound; reflexivity|]);
      intros v [<-|[<-|[]]]; reflexivity.
Qed.

Lemma backtracking_search_answers_solve_witness :
  let a' := [("X", EStr "1"); ("Y", EList ["2"])] in
  backtracking_search 3 Boards.two_free_csp
  = Ok (Some a', set_counters Boards.two_free_csp 2 0) /\
  is_solution Boards.two_free_csp (answer a') /\
  answer a' "X" = "1" /\ answer a' "Y" = "2".
Proof.
  cbv zeta. destruct two_free_puzzle as (Hdiff & Hnd & Hdom).
  destruct small_boards_good as (_ & _ & _ & Htwo).
  assert (Hrun : backtracking_search 3 Boards.two_free_csp
                 = Ok (Some [("X", EStr "1"); ("Y", EList ["2"])],
                       set_counters Boards.two_free_csp 2 0))
    by (vm_compute; reflexivity).
  split; [exact Hrun|]. split; [|split; reflexivity].
  apply (backtracking_search_answers_solve 3 Boards.two_free_csp
           [("X", EList ["1"; "2"]); ("Y", EList ["1"; "2"])]
           [("X", EStr "1"); ("Y", EList ["2"])]
           (set_counters Boards.two_free_csp 2 0)
           Hdiff Htwo Hnd Hdom); [vm_compute; reflexivity | exact Hrun].
Defined.

(** X21: the Sudoku solver.  On a board of nine rows of nine characters
    whose first AC-3 pass returned [True], the search needs no more than 82
    nested calls, and the grid it returns is a filled Sudoku grid: what
    [print_sudoku_solution] reads for a cell is the one value the cell has
    left, that value is the one the board shows, or one of ['1'] to ['9']
    when the board shows ['0'], and two cells of a row, a column or a box
    never hold the same value. *)
Theorem sudoku_answer_is_valid (board : list string) (depth : nat) (csp : CSP)
  (pruned : assignment) :
  nine_by_nine board ->
  create_sudoku_csp board = Returned csp ->
  inference csp (initial_assignment csp) (get_all_arcs csp) = Ok (true, pruned) ->
  (81 < depth -> backtracking_search depth csp <> Raise RecursionError) /\
  forall a' csp',
    backtracking_search depth csp = Ok (Some a', csp') ->
    (forall r c, r < 9 -> c < 9 ->
       first_value a' (cell_name r c) = Returned (answer a' (cell_name r c)) /\
       In (answer a' (cell_name r c)) (cell_domain (shown board r c))) /\
    (forall r c r' c', r < 9 -> c < 9 -> r' < 9 -> c' < 9 ->
       peers r c r' c' = true ->
       answer a' (cell_name r c) <> answer a' (cell_name r' c')).
Proof.
  intros Hboard Hcsp Hinf.
  destruct (sudoku_puzzle board csp Hboard Hcsp)
    as (Hdiff & Htwo & Htidy & Hkeys & Hcell & Hpeers).
  split.
  { intros Hdepth. apply (search_within_depth depth csp pruned Htidy Hinf).
    assert (Hlen : List.length (domains csp) = 81).
    { rewrite <- cell_names_length, <- Hkeys. unfold dict_keys.
      now rewrite length_map. }
    lia. }
  intros a' csp' Hrun.
  destruct (search_sound depth csp pruned a' csp' Hdiff Htwo Htidy Hinf Hrun)
    as (Hta & Hcomp & (Hk & _) & Hdom & Hsat).
  split.
  - intros r c Hr Hc. split; [|exact (Hdom _ _ (Hcell r c Hr Hc))].
    assert (Hin : In (cell_name r c) (dict_keys a')).
    { rewrite Hk, initial_assignment_keys, Hkeys. apply in_cell_names. eauto. }
    destruct (dict_get_in_keys _ _ Hin) as [e He].
    destruct (complete_single csp a' Hta Hcomp _ e He) as [v Hv].
    rewrite (answer_single a' _ e v He Hv).
    now apply (first_value_single a' _ e v).
  - intros r c r' c' Hr Hc Hr' Hc' Hp.
    specialize (Hpeers r c r' c' Hr Hc Hr' Hc' Hp).
    destruct (constraint_of csp (cell_name r c) (cell_name r' c'))
      as [pairs|] eqn:Hpairs; [|congruence].
    destruct (constraint_of_lookups _ _ _ _ Hpairs) as (ci & Hci & Hcij).
    pose proof (Hsat _ _ _ _ Hci Hcij) as Hlegal.
    apply (Hdiff _ _ _ Hpairs) in Hlegal. now destruct Hlegal as (_ & _ & Hne).
Qed.

Lemma sudoku_answer_is_valid_witness :
  nine_by_nine Boards.sample_board /\
  create_sudoku_csp Boards.sample_board = Returned Boards.sample_csp /\
  inference Boards.sample_csp (initial_assignment Boards.sample_csp)
            (get_all_arcs Boards.sample_csp)
  = Ok (true, Boards.sample_pruned) /\
  backtracking_search 1 Boards.sample_csp
  = Ok (Some Boards.sample_answer, Boards.sample_done) /\
  answer Boards.sample_answer (cell_name 0 2) = "4" /\
  In (answer Boards.sample_answer (cell_name 0 2))
     (cell_domain (shown Boards.sample_board 0 2)) /\
  answer Boards.sample_answer (cell_name 0 2)
  <> answer Boards.sample_answer (cell_name 0 0).
Proof.
  assert (Hboard : nine_by_nine Boards.sample_board).
  { apply nine_by_nine_checked. vm_compute. reflexivity. }
  assert (Hcsp : create_sudoku_csp Boards.sample_board
                 = Returned Boards.sample_csp) by (vm_compute; reflexivity).
  assert (Hinf : inference Boards.sample_csp
                   (initial_assignment Boards.sample_csp)
                   (get_all_arcs Boards.sample_csp)
                 = Ok (true, Boards.sample_pruned)) by (vm_compute; reflexivity).
  assert (Hrun : backtracking_search 1 Boards.sample_csp
                 = Ok (Some Boards.sample_answer, Boards.sample_done))
    by (vm_compute; reflexivity).
  destruct (sudoku_answer_is_valid Boards.sample_board 1 Boards.sample_csp
              Boards.sample_pruned Hboard Hcsp Hinf) as [_ Hvalid].
  destruct (Hvalid _ _ Hrun) as [Hcells Hdiffer].
  split; [exact Hboard|]. split; [exact Hcsp|]. split; [exact Hinf|].
  split; [exact Hrun|]. split; [vm_compute; reflexivity|].
  split; [apply (Hcells 0 2); lia|].
  apply (Hdiffer 0 2 0 0); try lia. reflexivity.
Defined.




(** ** [select_unassigned_variable] when nothing is left to choose *)

Lemma min_from_all_decided (a : assignment) (rest : list name) :
  (forall x, size_of a x < 2) ->
  (forall y, In y rest -> In y (dict_keys a)) ->
  forall best, min_from a best Inf rest = Ok best.
Proof.
  intros Hsmall. induction rest as [|y rest IH]; intros Hkeys best; simpl;
    [reflexivity|].
  rewrite badness_of_key by (apply Hkeys; now left). unfold bkey.
  specialize (Hsmall y) as Hy. apply Nat.ltb_lt in Hy. rewrite Hy. simpl.
  apply IH. intros z Hz. apply Hkeys. now right.
Qed.

Lemma select_first_when_decided (a : assignment) (k : name)
  (e : entry) (rest : assignment) :
  a = (k, e) :: rest -> (forall x, size_of a x < 2) ->
  select_unassigned_variable a = Ok k /\ dict_get k a = Some e.
Proof.
  intros Ha Hsmall. split.
  - unfold select_unassigned_variable.
    assert (Hks : dict_keys a = k :: dict_keys rest) by (now rewrite Ha).
    rewrite Hks. rewrite badness_of_key by (rewrite Hks; now left). cbn [bind].
    unfold bkey. specialize (Hsmall k) as Hk. apply Nat.ltb_lt in Hk. rewrite Hk.
    apply min_from_all_decided; [exact Hsmall|].
    intros y Hy. rewrite Hks. now right.
  - rewrite Ha. simpl. now rewrite String.eqb_refl.
Qed.

(** X23: the edges of [select_unassigned_variable].  It raises
    [ValueError] exactly on an assignment without variables and otherwise
    returns one of the variables, so it never raises [KeyError]; when no
    variable has two values or more, against what its comment assumes, it
    returns the first variable of the assignment. *)
Theorem select_unassigned_variable_edges (a : assignment) :
  (select_unassigned_variable a = Raise ValueError <-> a = []) /\
  (a <> [] ->
   exists v, select_unassigned_variable a = Ok v /\ In v (dict_keys a)) /\
  (forall k e rest,
     a = (k, e) :: rest -> (forall x, size_of a x < 2) ->
     select_unassigned_variable a = Ok k).
Proof.
  assert (Hsome : a <> [] ->
            exists v, select_unassigned_variable a = Ok v /\ In v (dict_keys a)).
  { intros Hne. destruct a as [|[k e] rest]; [congruence|].
    remember ((k, e) :: rest) as a0 eqn:Ha.
    assert (Hks : dict_keys a0 = k :: dict_keys rest) by (now rewrite Ha).
    unfold select_unassigned_variable.
    rewrite Hks. rewrite badness_of_key by (rewrite Hks; now left). cbn [bind].
    destruct (min_from_spec a0 (dict_keys rest) k [] [])
      as (v & before & after & Hv & Hsplit & _).
    - intros y Hy. rewrite Hks. now right.
    - intros y [].
    - intros y [].
    - exists v. split; [exact Hv|].
      simpl in Hsplit. rewrite Hsplit. apply in_or_app. right. now left. }
  split; [|split; [exact Hsome|]].
  - split.
    + intros Hrun. destruct a as [|p rest]; [reflexivity|].
      destruct Hsome as (v & Hv & _); [discriminate | congruence].
    + intros ->. reflexivity.
  - intros k e rest Ha Hsmall.
    now apply (select_first_when_decided a k e rest).
Qed.

(** ** A search that never ends *)

Lemma inference_empty_queue (self : CSP) (a : assignment) :
  inference self a [] = Ok (true, a).
Proof. unfold inference. now destruct (inference_bound self a []). Qed.

(** X24: a recursion without end.  When the CSP has no arc, no variable of
    the assignment has two values or more, the first variable has one value,
    a single character, and the test of line 131 fails, which takes a
    variable with an empty domain, [backtrack] binds the first variable to the
    value it has and calls itself on an assignment with the same domains:
    whatever the recursion depth allowed, the call ends in
    [RecursionError]. *)
Theorem backtrack_recursion_without_end (depth : nat) :
  forall (self : CSP) (k : name) (e : entry) (v : value) (rest : assignment),
    get_all_arcs self = [] ->
    py_iter e = [v] -> String.length v = 1 ->
    (forall x, size_of ((k, e) :: rest) x < 2) ->
    complete ((k, e) :: rest) = false ->
    backtrack depth self ((k, e) :: rest) = Raise RecursionError.
Proof.
  induction depth as [|depth IH]; intros self k e v rest Harcs He Hlen Hsmall Hcomp;
    [reflexivity|].
  rewrite backtrack_unfold, Hcomp.
  destruct (select_first_when_decided ((k, e) :: rest) k e rest
              eq_refl Hsmall) as [Hsel Hget].
  rewrite Hsel. cbn [bind]. unfold lookup. rewrite Hget. cbn [bind].
  rewrite He. cbn [try_values].
  rewrite Harcs, inference_empty_queue. cbn [bind].
  assert (Hset : dict_set k (EStr v) ((k, e) :: rest) = (k, EStr v) :: rest).
  { simpl. now rewrite String.eqb_refl. }
  rewrite Hset.
  rewrite (IH (count_backtrack self) k (EStr v) v rest); auto.
  - simpl. now apply chars_single.
  - intros x. specialize (Hsmall x). unfold size_of in *. simpl in *.
    destruct (String.eqb x k); [simpl; lia | exact Hsmall].
  - unfold complete in *. simpl in *. rewrite Hlen.
    rewrite <- py_iter_length, He in Hcomp. exact Hcomp.
Qed.

Lemma backtrack_recursion_without_end_witness :
  let self := mkCSP ["X"; "Y"] [("X", ["1"]); ("Y", [])]
                    [("X", []); ("Y", [])] 1 0 in
  get_all_arcs self = [] /\
  backtrack 1000 self [("X", EList ["1"]); ("Y", EList [])]
  = Raise RecursionError.
Proof.
  cbv zeta. split; [reflexivity|].
  apply (backtrack_recursion_without_end 1000 _ "X" (EList ["1"]) "1"
           [("Y", EList [])]); try reflexivity.
  intros x. unfold size_of. simpl.
  destruct (String.eqb x "X"); [simpl; lia|].
  destruct (String.eqb x "Y"); simpl; lia.
Defined.
